(** * Ataraxia core: peer negotiation, topology gossip and request/reply helper

    A shallow embedding of three classes of the [ataraxia] core package:

    - [RequestReplyHelper] (packages/core/src/RequestReplyHelper.ts),
    - [AbstractPeer] (the negotiation state machine of a peer),
    - [Topology] (packages/core/src/topology/Topology.ts).

    Objects are records, methods are functions from the state before the call
    to the state after it.  What a method does to its environment (frames
    handed to the transport, events emitted, timers armed with the runtime,
    promises settled) is recorded in the state as well, so that it can be
    observed by the theorems. *)

From Stdlib Require Import ZArith Lia Sorted Strings.Byte.
From stdpp Require Import gmap strings list fin_maps.

Local Open Scope Z_scope.

(** ** JavaScript numbers used as millisecond counts

    A [number] that holds a duration is an integer or [NaN]; [undefined] is
    modelled by [option].  [truthy] is JavaScript's ToBoolean on numbers. *)
Inductive JsNumber :=
| JsInt (z : Z)
| JsNaN.

Definition truthy (n : JsNumber) : bool :=
  match n with
  | JsInt z => negb (z =? 0)
  | JsNaN => false
  end.

(** [a || d] where [a] may be [undefined]. *)
Definition js_or (a : option JsNumber) (d : JsNumber) : JsNumber :=
  match a with
  | Some n => if truthy n then n else d
  | None => d
  end.

(** [new Error(message)] *)
Record Error := { message : string }.

#[global] Instance JsNumber_eq_dec : EqDecision JsNumber.
Proof. solve_decision. Defined.

(* ================================================================== *)
(** * RequestReplyHelper *)
(* ================================================================== *)
Module RequestReplyHelper.

Record RequestReplyHelperOptions := { timeout : option JsNumber }.

Section Helper.
Context {Result : Type}.

(** How a promise was settled: [resolve(result)] or [reject(err)]. *)
Inductive Settlement :=
| Resolved (result : Result)
| Rejected (error : option Error).

(** [PendingMessage]: [resolve] and [reject] are the two closures of one
    promise, named here by the promise they settle. *)
Record PendingMessage := {
  promise : nat;
  timeout_handle : N
}.

(** The helper together with the part of the runtime it touches.  An id is a
    JavaScript number counting up from 0, kept as an [N] (the increment is
    exact on the integers a counter can reach). *)
Record t := {
  (* fields of the class *)
  defaultTimeout : JsNumber;
  pending : gmap N PendingMessage;
  idCounter : N;
  (* runtime: armed timers, each with the id its callback closes over and
     its delay; the next timer handle; the number of promises created; the
     calls of resolve and reject so far, latest first *)
  timers : gmap N (N * JsNumber);
  nextTimer : N;
  nextPromise : nat;
  settled : list (nat * Settlement)
}.

Definition new (options : RequestReplyHelperOptions) : t :=
  {| defaultTimeout := js_or (timeout options) (JsInt 30000);
     pending := ∅;
     idCounter := 0%N;
     timers := ∅;
     nextTimer := 0%N;
     nextPromise := 0%nat;
     settled := [] |}.

Definition clearTimeout (handle : N) (s : t) : t :=
  {| defaultTimeout := defaultTimeout s;
     pending := pending s;
     idCounter := idCounter s;
     timers := delete handle (timers s);
     nextTimer := nextTimer s;
     nextPromise := nextPromise s;
     settled := settled s |}.

Definition releaseId (id : N) (s : t) : t :=
  match pending s !! id with
  | None => s
  | Some p =>
      let s1 := clearTimeout (timeout_handle p) s in
      {| defaultTimeout := defaultTimeout s1;
         pending := delete id (pending s1);
         idCounter := idCounter s1;
         timers := timers s1;
         nextTimer := nextTimer s1;
         nextPromise := nextPromise s1;
         settled := settled s1 |}
  end.

(** Calling [resolve] or [reject] of promise [p]. *)
Definition settle (p : nat) (how : Settlement) (s : t) : t :=
  {| defaultTimeout := defaultTimeout s;
     pending := pending s;
     idCounter := idCounter s;
     timers := timers s;
     nextTimer := nextTimer s;
     nextPromise := nextPromise s;
     settled := (p, how) :: settled s |}.

(** Returns [[messageId, promise]]. *)
Definition prepareRequest (s : t) : (N * nat) * t :=
  let messageId := idCounter s in
  let p := nextPromise s in
  let handle := nextTimer s in
  ((messageId, p),
   {| defaultTimeout := defaultTimeout s;
      pending := <[messageId := {| promise := p; timeout_handle := handle |}]> (pending s);
      idCounter := (messageId + 1)%N;
      timers := <[handle := (messageId, defaultTimeout s)]> (timers s);
      nextTimer := (handle + 1)%N;
      nextPromise := S p;
      settled := settled s |}).

Definition registerReply (id : N) (result : Result) (s : t) : t :=
  match pending s !! id with
  | None => s
  | Some message => settle (promise message) (Resolved result) (releaseId id s)
  end.

Definition registerError (id : N) (error : option Error) (s : t) : t :=
  match pending s !! id with
  | None => s
  | Some message => settle (promise message) (Rejected error) (releaseId id s)
  end.

Definition TimedOut : Error := {| message := "Timed out" |}.

(** The runtime runs the callback of timer [handle]: a timer fires once, and
    only while it is armed. *)
Definition timerFires (handle : N) (s : t) : t :=
  match timers s !! handle with
  | None => s
  | Some (messageId, _) => registerError messageId (Some TimedOut) (clearTimeout handle s)
  end.

(** A use of the helper: calls of its public methods and firings of timers. *)
Inductive Call :=
| PrepareRequest
| RegisterReply (id : N) (result : Result)
| RegisterError (id : N) (error : option Error)
| TimerFires (handle : N).

Definition step (c : Call) (s : t) : t :=
  match c with
  | PrepareRequest => snd (prepareRequest s)
  | RegisterReply id r => registerReply id r s
  | RegisterError id e => registerError id e s
  | TimerFires h => timerFires h s
  end.

(** The ids a call returns (none, except for [prepareRequest]). *)
Definition returned (c : Call) (s : t) : list N :=
  match c with
  | PrepareRequest => [fst (fst (prepareRequest s))]
  | _ => []
  end.

Fixpoint run (cs : list Call) (s : t) : t :=
  match cs with
  | [] => s
  | c :: cs' => run cs' (step c s)
  end.

Fixpoint ids (cs : list Call) (s : t) : list N :=
  match cs with
  | [] => []
  | c :: cs' => returned c s ++ ids cs' (step c s)
  end.

(** How many times promise [p] has been settled. *)
Definition settle_count (p : nat) (s : t) : nat :=
  length (filter (λ x, fst x = p) (settled s)).

(** The pending record of promise [p], if it is still outstanding. *)
Definition outstanding (p : nat) (s : t) : Prop :=
  ∃ id m, pending s !! id = Some m ∧ promise m = p.

(** What every state reached from [new] satisfies. *)
Record Inv (s : t) : Prop := {
  inv_promise : nextPromise s = N.to_nat (idCounter s);
  inv_pending : ∀ id m, pending s !! id = Some m →
    (id < idCounter s)%N ∧ promise m = N.to_nat id ∧
    timers s !! timeout_handle m = Some (id, defaultTimeout s);
  inv_timers : ∀ h x, timers s !! h = Some x → (h < nextTimer s)%N;
  inv_settled : ∀ p, (p < nextPromise s)%nat →
    (outstanding p s ∧ settle_count p s = 0%nat) ∨
    (¬ outstanding p s ∧ settle_count p s = 1%nat);
  inv_unborn : ∀ p, (nextPromise s ≤ p)%nat → settle_count p s = 0%nat
}.

End Helper.
Arguments t : clear implicits.
Arguments Call : clear implicits.
Arguments Settlement : clear implicits.

(** A run on which everything happens: two requests, a reply to the first,
    a second reply and an error for the same id, and the timer of the
    second request firing. *)
Definition sample_run : list (Call string) :=
  [PrepareRequest; PrepareRequest; RegisterReply 0 "a"; RegisterReply 0 "b";
   RegisterError 0 None; TimerFires 1; TimerFires 1; RegisterReply 1 "c"].

End RequestReplyHelper.

(* ================================================================== *)
(** * Identifiers and wire messages *)
(* ================================================================== *)

#[global] Instance byte_eq_dec : EqDecision byte := Byte.byte_eq_dec.
#[global] Instance byte_countable : Countable byte :=
  inj_countable Byte.to_N Byte.of_N Byte.of_to_N.

(** An [ArrayBuffer], compared by its content. *)
Definition Bytes := list byte.
Definition NodeId := Bytes.

(** Modelled from the spec: [noId] of the id module, the distinguished value
    that denotes an unknown node. *)
Definition noId : NodeId := [].

(** Modelled from the spec: the enum DisconnectReason, with the reasons the
    spec lists; the peer itself uses the first four. *)
Module DisconnectReason.
Inductive t := Manual | NegotiationFailed | AuthReject | PingTimeout | TransportError.
#[global] Instance eq_dec : EqDecision t.
Proof. solve_decision. Defined.
End DisconnectReason.

(** Modelled from the spec: the closed enum of frame types. *)
Module PeerMessageType.
Inductive t :=
| Hello | Select | Auth | AuthData | Ok | Reject | Begin
| Ping | Pong | Bye
| Data | DataAck | DataReject
| NodeSummary | NodeRequest | NodeDetails.
#[global] Instance eq_dec : EqDecision t.
Proof. solve_decision. Defined.
End PeerMessageType.

(** Modelled from the spec: the payload of each frame type, after the frame
    schema of the transport interface. *)
Module HelloMessage.
Record t := { id : NodeId; capabilities : list string }.
End HelloMessage.

Module SelectMessage.
Record t := { id : NodeId; capabilities : list string }.
End SelectMessage.

Module AuthMessage.
Record t := { method : string; data : Bytes }.
End AuthMessage.

Module AuthDataMessage.
Record t := { data : Bytes }.
End AuthDataMessage.

Module NodeRoutingSummary.
Record t := { id : NodeId; version : Z }.
End NodeRoutingSummary.

Module NodeSummaryMessage.
Record t := { ownVersion : Z; nodes : list NodeRoutingSummary.t }.
End NodeSummaryMessage.

Module NodeRequestMessage.
Record t := { nodes : list NodeId }.
End NodeRequestMessage.

Module NodeRoutingDetails.
Record t := { id : NodeId; version : Z; neighbors : list (NodeId * Z) }.
End NodeRoutingDetails.

Module NodeDetailsMessage.
Record t := { nodes : list NodeRoutingDetails.t }.
End NodeDetailsMessage.

Module DataMessage.
Record t := {
  source : NodeId; target : NodeId; id : Z; type : string;
  path : list NodeId; payload : Bytes
}.
End DataMessage.

Module DataAckMessage.
Record t := { id : Z; target : NodeId; path : list NodeId }.
End DataAckMessage.

Module DataRejectMessage.
Record t := { id : Z; target : NodeId; path : list NodeId; code : Z }.
End DataRejectMessage.

(** A frame: a type together with the payload of that type, as [send] and
    [receiveData] take them. *)
Inductive PeerMessage :=
| MHello (m : HelloMessage.t)
| MSelect (m : SelectMessage.t)
| MAuth (m : AuthMessage.t)
| MAuthData (m : AuthDataMessage.t)
| MOk | MReject | MBegin | MPing | MPong | MBye
| MData (m : DataMessage.t)
| MDataAck (m : DataAckMessage.t)
| MDataReject (m : DataRejectMessage.t)
| MNodeSummary (m : NodeSummaryMessage.t)
| MNodeRequest (m : NodeRequestMessage.t)
| MNodeDetails (m : NodeDetailsMessage.t).

Definition messageType (msg : PeerMessage) : PeerMessageType.t :=
  match msg with
  | MHello _ => PeerMessageType.Hello
  | MSelect _ => PeerMessageType.Select
  | MAuth _ => PeerMessageType.Auth
  | MAuthData _ => PeerMessageType.AuthData
  | MOk => PeerMessageType.Ok
  | MReject => PeerMessageType.Reject
  | MBegin => PeerMessageType.Begin
  | MPing => PeerMessageType.Ping
  | MPong => PeerMessageType.Pong
  | MBye => PeerMessageType.Bye
  | MData _ => PeerMessageType.Data
  | MDataAck _ => PeerMessageType.DataAck
  | MDataReject _ => PeerMessageType.DataReject
  | MNodeSummary _ => PeerMessageType.NodeSummary
  | MNodeRequest _ => PeerMessageType.NodeRequest
  | MNodeDetails _ => PeerMessageType.NodeDetails
  end.

(* ================================================================== *)
(** * Authentication interface *)
(* ================================================================== *)

(** A provider: its id, and whether it has the optional methods
    [createClientFlow] and [createServerFlow]. *)
Module AuthProvider.
Record t := { id : string; createClientFlow : bool; createServerFlow : bool }.
End AuthProvider.

(** The reply of a server flow.  The peer tests [reply.data] for presence
    before it sends it on, so a reply of type Data may lack its data; a
    buffer is an object, hence truthy whatever its length. *)
Module AuthServerReply.
Inductive t := Ok | Reject | Data (data : option Bytes).
End AuthServerReply.

Module AuthClientReply.
Inductive t := Data (data : Bytes) | Reject.
End AuthClientReply.

Module Authentication.
Record t := { providers : list AuthProvider.t }.

(** Modelled from the spec: [getProvider(methodId)] of the registry, which
    looks a provider up by its id. *)
Definition getProvider (a : t) (method : string) : option AuthProvider.t :=
  List.find (λ p, bool_decide (AuthProvider.id p = method)) (providers a).
End Authentication.

Module WithNetwork.
Record t := { networkId : NodeId; authentication : Authentication.t }.
End WithNetwork.

(* ================================================================== *)
(** * AbstractPeer *)
(* ================================================================== *)
Module AbstractPeer.

(** The interval at which pings are sent, and at which they are checked. *)
Definition pingInterval : Z := 30000.
Definition pingCheckInterval : Z := 5000.

Inductive State :=
| Initial
| WaitingForHello | WaitingForSelectAck | WaitingForAuth
| WaitingForAuthData | WaitingForBegin
| WaitingForSelect | WaitingForAuthAck
| Active.

#[global] Instance State_eq_dec : EqDecision State.
Proof. solve_decision. Defined.

(** The fields of the class.  Timer handles and auth flows are objects of
    the runtime, named by numbers; [None] is [undefined].  [authProviders]
    holds the content of the array the field refers to, which is the array
    [parent.authentication.providers] gave. *)
Record Peer := {
  parent : WithNetwork.t;
  id : NodeId;
  state : State;
  lastLatencyTime : Z;
  latencyValues : list Z;
  helloTimeout : option N;
  pingSender : option N;
  pingChecker : option N;
  authProviders : option (list AuthProvider.t);
  authClientFlow : option N;
  authServerFlow : option N
}.

(** What to do when the promise of a [send] rejects: the [catch] handlers of
    the class either abort the peer or only log. *)
Inductive Catch := CatchAbort | CatchDebug.

(** What a timer runs when it fires. *)
Inductive Callback := NegotiationTimeout | CheckFailure | SendPing.

Record Timer := { callback : Callback; delay : Z; repeats : bool }.

(** An asynchronous call the peer awaits; the runtime resumes the peer with
    its outcome (see the [_resume] functions). *)
Inductive Task :=
| InitialMessage (provider : AuthProvider.t) (flow : N)
| ClientReceiveData (flow : N) (data : Bytes)
| DestroyServerFlow (flow : N) (message : AuthMessage.t)
| ServerReceiveInitial (flow : N) (data : Bytes)
| ServerReceiveData (flow : N) (data : Bytes).

(** What the peer does to the world around it, in the order it does it. *)
Inductive Effect :=
| Send (msg : PeerMessage) (onError : Catch)
| RequestDisconnect (reason : DisconnectReason.t) (err : option Error)
| DidConnect
| ConnectEvent
| DisconnectEvent
| DataEvent (msg : PeerMessage)
| RegisterHeartbeat
| CreateClientFlow (provider : AuthProvider.t) (flow : N)
| CreateServerFlow (provider : AuthProvider.t) (flow : N)
| DestroyFlow (flow : N)
| Await (task : Task).

(** The runtime around the peer: the clock [Date.now()] reads, what
    [failureDetector.checkFailure()] would answer, the armed timers and
    intervals, the next timer handle and flow to allocate, and the effects
    so far. *)
Record Runtime := {
  now : Z;
  failureDetected : bool;
  timers : gmap N Timer;
  nextTimer : N;
  nextFlow : N;
  trace : list Effect
}.

Record World := { peer : Peer; runtime : Runtime }.

(** ** Field updates *)

Definition set_id v p :=
  {| parent := parent p; id := v; state := state p;
     lastLatencyTime := lastLatencyTime p; latencyValues := latencyValues p;
     helloTimeout := helloTimeout p; pingSender := pingSender p;
     pingChecker := pingChecker p; authProviders := authProviders p;
     authClientFlow := authClientFlow p;
     authServerFlow := authServerFlow p |}.
Definition set_state v p :=
  {| parent := parent p; id := id p; state := v;
     lastLatencyTime := lastLatencyTime p; latencyValues := latencyValues p;
     helloTimeout := helloTimeout p; pingSender := pingSender p;
     pingChecker := pingChecker p; authProviders := authProviders p;
     authClientFlow := authClientFlow p;
     authServerFlow := authServerFlow p |}.
Definition set_lastLatencyTime v p :=
  {| parent := parent p; id := id p; state := state p; lastLatencyTime := v;
     latencyValues := latencyValues p; helloTimeout := helloTimeout p;
     pingSender := pingSender p; pingChecker := pingChecker p;
     authProviders := authProviders p; authClientFlow := authClientFlow p;
     authServerFlow := authServerFlow p |}.
Definition set_latencyValues v p :=
  {| parent := parent p; id := id p; state := state p;
     lastLatencyTime := lastLatencyTime p; latencyValues := v;
     helloTimeout := helloTimeout p; pingSender := pingSender p;
     pingChecker := pingChecker p; authProviders := authProviders p;
     authClientFlow := authClientFlow p;
     authServerFlow := authServerFlow p |}.
Definition set_helloTimeout v p :=
  {| parent := parent p; id := id p; state := state p;
     lastLatencyTime := lastLatencyTime p; latencyValues := latencyValues p;
     helloTimeout := v; pingSender := pingSender p;
     pingChecker := pingChecker p; authProviders := authProviders p;
     authClientFlow := authClientFlow p;
     authServerFlow := authServerFlow p |}.
Definition set_pingSender v p :=
  {| parent := parent p; id := id p; state := state p;
     lastLatencyTime := lastLatencyTime p; latencyValues := latencyValues p;
     helloTimeout := helloTimeout p; pingSender := v;
     pingChecker := pingChecker p; authProviders := authProviders p;
     authClientFlow := authClientFlow p;
     authServerFlow := authServerFlow p |}.
Definition set_pingChecker v p :=
  {| parent := parent p; id := id p; state := state p;
     lastLatencyTime := lastLatencyTime p; latencyValues := latencyValues p;
     helloTimeout := helloTimeout p; pingSender := pingSender p;
     pingChecker := v; authProviders := authProviders p;
     authClientFlow := authClientFlow p;
     authServerFlow := authServerFlow p |}.
Definition set_authProviders v p :=
  {| parent := parent p; id := id p; state := state p;
     lastLatencyTime := lastLatencyTime p; latencyValues := latencyValues p;
     helloTimeout := helloTimeout p; pingSender := pingSender p;
     pingChecker := pingChecker p; authProviders := v;
     authClientFlow := authClientFlow p;
     authServerFlow := authServerFlow p |}.
Definition set_authClientFlow v p :=
  {| parent := parent p; id := id p; state := state p;
     lastLatencyTime := lastLatencyTime p; latencyValues := latencyValues p;
     helloTimeout := helloTimeout p; pingSender := pingSender p;
     pingChecker := pingChecker p; authProviders := authProviders p;
     authClientFlow := v; authServerFlow := authServerFlow p |}.
Definition set_authServerFlow v p :=
  {| parent := parent p; id := id p; state := state p;
     lastLatencyTime := lastLatencyTime p; latencyValues := latencyValues p;
     helloTimeout := helloTimeout p; pingSender := pingSender p;
     pingChecker := pingChecker p; authProviders := authProviders p;
     authClientFlow := authClientFlow p; authServerFlow := v |}.

Definition set_timers v r :=
  {| now := now r; failureDetected := failureDetected r; timers := v;
     nextTimer := nextTimer r; nextFlow := nextFlow r; trace := trace r |}.
Definition set_nextTimer v r :=
  {| now := now r; failureDetected := failureDetected r; timers := timers r;
     nextTimer := v; nextFlow := nextFlow r; trace := trace r |}.
Definition set_nextFlow v r :=
  {| now := now r; failureDetected := failureDetected r; timers := timers r;
     nextTimer := nextTimer r; nextFlow := v; trace := trace r |}.
Definition set_trace v r :=
  {| now := now r; failureDetected := failureDetected r; timers := timers r;
     nextTimer := nextTimer r; nextFlow := nextFlow r; trace := v |}.

(** ** The monad of methods: a method reads and updates the peer and its
    runtime, and returns a value. *)
Definition M (A : Type) : Type := World → A * World.

#[global] Instance M_ret : MRet M := λ A a w, (a, w).
#[global] Instance M_bind : MBind M := λ A B f m w, let '(a, w') := m w in f a w'.

(** Read a field of [this]. *)
Definition this {A} (field : Peer → A) : M A := λ w, (field (peer w), w).
(** Assign a field of [this]. *)
Definition assign (update : Peer → Peer) : M unit :=
  λ w, (tt, {| peer := update (peer w); runtime := runtime w |}).
Definition withRuntime {A} (f : Runtime → A * Runtime) : M A :=
  λ w, let '(a, r) := f (runtime w) in (a, {| peer := peer w; runtime := r |}).

Definition emit (e : Effect) : M unit :=
  withRuntime (λ r, (tt, set_trace (trace r ++ [e]) r)).
Definition Date_now : M Z := withRuntime (λ r, (now r, r)).

(** [setTimeout] and [setInterval]: arm a timer, return its handle. *)
Definition arm (t : Timer) : M N :=
  withRuntime (λ r,
    let h := nextTimer r in
    (h, set_nextTimer (h + 1)%N (set_timers (<[h := t]> (timers r)) r))).
Definition setTimeout (cb : Callback) (ms : Z) : M N :=
  arm {| callback := cb; delay := ms; repeats := false |}.
Definition setInterval (cb : Callback) (ms : Z) : M N :=
  arm {| callback := cb; delay := ms; repeats := true |}.

(** [clearTimeout] and [clearInterval]; clearing [undefined], or a timer
    that is no longer armed, does nothing. *)
Definition clearTimeout (handle : option N) : M unit :=
  match handle with
  | None => mret tt
  | Some h => withRuntime (λ r, (tt, set_timers (delete h (timers r)) r))
  end.
Definition clearInterval := clearTimeout.

(** A provider creates a flow: a new object of the runtime. *)
Definition newFlow : M N :=
  withRuntime (λ r, let f := nextFlow r in (f, set_nextFlow (f + 1)%N r)).

(** ** Abstract methods: what they are asked to do is recorded. *)
Definition requestDisconnect (reason : DisconnectReason.t) (err : option Error) : M unit :=
  emit (RequestDisconnect reason err).

Definition send (msg : PeerMessage) (onError : Catch) : M unit :=
  emit (Send msg onError).

(** ** Methods of the class *)

Definition new (parent : WithNetwork.t) : M unit :=
  time ← Date_now;
  assign (λ _, {| parent := parent; id := noId; state := Initial;
                  lastLatencyTime := time; latencyValues := [];
                  helloTimeout := None; pingSender := None; pingChecker := None;
                  authProviders := None; authClientFlow := None;
                  authServerFlow := None |}).

Definition connected (p : Peer) : bool := bool_decide (state p = Active).

(** Manually disconnect this peer: the base class only logs the request. *)
Definition disconnect : M unit := mret tt.

Definition handleDisconnect (reason : DisconnectReason.t) (err : option Error) : M unit :=
  h ← this helloTimeout; clearTimeout h;;
  s ← this pingSender; clearInterval s;;
  c ← this pingChecker; clearInterval c;;
  st ← this state;
  let wasActive := bool_decide (st = Active) in
  assign (set_state Initial);;
  if wasActive then emit DisconnectEvent else mret tt.

Definition abort (error : option Error) (reason : option DisconnectReason.t) : M unit :=
  h ← this helloTimeout; clearTimeout h;;
  let reason := default DisconnectReason.NegotiationFailed reason in
  requestDisconnect reason error.

Definition queueNegotiationTimeout : M unit :=
  h ← this helloTimeout;
  (if h is Some _ then clearTimeout h else mret tt);;
  h' ← setTimeout NegotiationTimeout 5000;
  assign (set_helloTimeout (Some h')).

Definition registerLatencySend : M unit :=
  time ← Date_now; assign (set_lastLatencyTime time).

Definition registerLatencyReply : M unit :=
  time ← Date_now;
  vs ← this latencyValues;
  (if decide (5 < length vs)%nat
   then assign (set_latencyValues (drop 1 vs)) else mret tt);;
  vs ← this latencyValues;
  last ← this lastLatencyTime;
  assign (set_latencyValues (vs ++ [time - last])).

(** The getter [latency]: throws when there is no sample. *)
Definition latency (p : Peer) : Error + Z :=
  if decide (length (latencyValues p) = 0%nat)
  then inl {| message := "Latency unknown" |}
  else
    let sum := foldl Z.add 0 (latencyValues p) in
    inr (sum `div` Z.of_nat (length (latencyValues p))).

Definition negotiateAsServer : M unit :=
  assign (set_state WaitingForSelect);;
  p ← this parent;
  send (MHello {| HelloMessage.id := WithNetwork.networkId p;
                  HelloMessage.capabilities := [] |}) CatchAbort;;
  queueNegotiationTimeout.

Definition negotiateAsClient : M unit :=
  registerLatencySend;;
  assign (set_state WaitingForHello);;
  queueNegotiationTimeout.

Definition receiveHello (message : HelloMessage.t) : M unit :=
  assign (set_id (HelloMessage.id message));;
  assign (set_state WaitingForSelectAck);;
  p ← this parent;
  registerLatencySend;;
  send (MSelect {| SelectMessage.id := WithNetwork.networkId p;
                   SelectMessage.capabilities := [] |}) CatchAbort;;
  queueNegotiationTimeout.

Definition receiveSelect (message : SelectMessage.t) : M unit :=
  assign (set_id (SelectMessage.id message));;
  assign (set_state WaitingForAuth);;
  send MOk CatchAbort;;
  queueNegotiationTimeout.

(** The loop of [pickNextAuthProvider] over the array: take the first
    provider off until one has [createClientFlow]; returns the provider and
    what is left of the array. *)
Fixpoint pick (providers : list AuthProvider.t)
  : option AuthProvider.t * list AuthProvider.t :=
  match providers with
  | [] => (None, [])
  | provider :: rest =>
      if AuthProvider.createClientFlow provider then (Some provider, rest)
      else pick rest
  end.

Definition pickNextAuthProvider : M (option AuthProvider.t) :=
  ps ← this authProviders;
  match ps with
  | None => mret None
  | Some l =>
      let '(provider, rest) := pick l in
      assign (set_authProviders (Some rest));;
      mret provider
  end.

Definition sendInitialAuth : M unit :=
  provider ← pickNextAuthProvider;
  match provider with
  | Some p =>
      if AuthProvider.createClientFlow p then
        flow ← newFlow;
        emit (CreateClientFlow p flow);;
        assign (set_authClientFlow (Some flow));;
        emit (Await (InitialMessage p flow));;
        queueNegotiationTimeout
      else abort None (Some DisconnectReason.AuthReject)
  | None => abort None (Some DisconnectReason.AuthReject)
  end.

(** The rest of the asynchronous block of [sendInitialAuth], once
    [initialMessage()] has settled. *)
Definition sendInitialAuth_resume (provider : AuthProvider.t) (outcome : Error + Bytes) : M unit :=
  match outcome with
  | inl err => abort (Some err) None
  | inr msg =>
      send (MAuth {| AuthMessage.method := AuthProvider.id provider;
                     AuthMessage.data := msg |}) CatchAbort
  end.

Definition receiveSelectOK : M unit :=
  registerLatencyReply;;
  assign (set_state WaitingForAuthAck);;
  p ← this parent;
  assign (set_authProviders
            (Some (Authentication.providers (WithNetwork.authentication p))));;
  sendInitialAuth.

Definition switchToActive : M unit :=
  h ← this helloTimeout; clearTimeout h;;
  assign (set_helloTimeout None);;
  emit DidConnect;;
  assign (set_state Active);;
  cf ← this authClientFlow;
  (if cf is Some f then emit (DestroyFlow f) else mret tt);;
  sf ← this authServerFlow;
  (if sf is Some f then emit (DestroyFlow f) else mret tt);;
  c ← setInterval CheckFailure pingCheckInterval;
  assign (set_pingChecker (Some c));;
  s ← setInterval SendPing pingInterval;
  assign (set_pingSender (Some s));;
  emit ConnectEvent.

(** [send] is abstract in the class: [receiveAuthOk] is written for
    whatever a subclass implements as [send], which is handed the peer as
    the switch to Active leaves it.  The peer of this model uses the [send]
    that records the frame. *)
Definition receiveAuthOk_with (send : PeerMessage → Catch → M unit) : M unit :=
  switchToActive;;
  send MBegin CatchAbort.

Definition receiveAuthOk : M unit := receiveAuthOk_with send.

Definition receiveAuthReject : M unit := sendInitialAuth.

Definition receiveServerAuthData (message : AuthDataMessage.t) : M unit :=
  cf ← this authClientFlow;
  match cf with
  | None => abort None None
  | Some f => emit (Await (ClientReceiveData f (AuthDataMessage.data message)))
  end;;
  queueNegotiationTimeout.

Definition receiveServerAuthData_resume (outcome : Error + AuthClientReply.t) : M unit :=
  match outcome with
  | inl err => abort (Some err) None
  | inr (AuthClientReply.Data d) =>
      send (MAuthData {| AuthDataMessage.data := d |}) CatchAbort
  | inr AuthClientReply.Reject => sendInitialAuth
  end.

(** Returns whether the promise it hands back is the one of a [send]
    ([true]) or an already rejected one ([false]). *)
Definition handleSendingAuthReply (reply : AuthServerReply.t) : M bool :=
  match reply with
  | AuthServerReply.Ok =>
      registerLatencySend;;
      assign (set_state WaitingForBegin);;
      send MOk CatchAbort;;
      mret true
  | AuthServerReply.Reject =>
      assign (set_state WaitingForAuth);;
      send MReject CatchAbort;;
      mret true
  | AuthServerReply.Data data =>
      assign (set_state WaitingForAuthData);;
      match data with
      | None => abort None None;; mret false
      | Some d =>
          send (MAuthData {| AuthDataMessage.data := d |}) CatchAbort;;
          mret true
      end
  end.

(** The end of the asynchronous blocks of [receiveAuth] and
    [receiveClientAuthData]: the reply of the server flow has settled; a
    rejected promise from [handleSendingAuthReply] is caught at once. *)
Definition serverReply_resume (outcome : Error + AuthServerReply.t) : M unit :=
  match outcome with
  | inl err => abort (Some err) None
  | inr reply =>
      sent ← handleSendingAuthReply reply;
      if sent : bool then mret tt else abort None None
  end.

(** [receiveAuth] after an earlier server flow, if any, was released. *)
Definition receiveAuth_released (message : AuthMessage.t) : M unit :=
  p ← this parent;
  match Authentication.getProvider (WithNetwork.authentication p)
          (AuthMessage.method message) with
  | Some provider =>
      if AuthProvider.createServerFlow provider then
        flow ← newFlow;
        emit (CreateServerFlow provider flow);;
        assign (set_authServerFlow (Some flow));;
        emit (Await (ServerReceiveInitial flow (AuthMessage.data message)))
      else
        send MReject CatchAbort;;
        queueNegotiationTimeout
  | None =>
      send MReject CatchAbort;;
      queueNegotiationTimeout
  end.

Definition receiveAuth (message : AuthMessage.t) : M unit :=
  sf ← this authServerFlow;
  match sf with
  | Some f =>
      emit (DestroyFlow f);;
      emit (Await (DestroyServerFlow f message))
  | None => receiveAuth_released message
  end;;
  queueNegotiationTimeout.

Definition receiveClientAuthData (message : AuthDataMessage.t) : M unit :=
  sf ← this authServerFlow;
  match sf with
  | None => abort None None
  | Some f => emit (Await (ServerReceiveData f (AuthDataMessage.data message)))
  end;;
  queueNegotiationTimeout.

Definition forceConnect (id : NodeId) : M unit :=
  assign (set_id id);;
  vs ← this latencyValues;
  assign (set_latencyValues (vs ++ [0]));;
  switchToActive.

Definition sendPing : M unit :=
  registerLatencySend;;
  send MPing CatchDebug.

Definition receivePing : M unit :=
  registerLatencyReply;;
  emit RegisterHeartbeat;;
  send MPong CatchDebug.

Definition checkFailure : M unit :=
  failed ← withRuntime (λ r, (failureDetected r, r));
  if failed : bool
  then requestDisconnect DisconnectReason.PingTimeout
         (Some {| message := "Timeout due to no ping" |})
  else mret tt.

Definition receiveData (msg : PeerMessage) : M unit :=
  st ← this state;
  match msg with
  | MBye => requestDisconnect DisconnectReason.Manual None
  | MPing => receivePing
  | MHello payload =>
      if decide (st = WaitingForHello) then receiveHello payload
      else abort None None
  | MSelect payload =>
      if decide (st = WaitingForSelect) then receiveSelect payload
      else abort None None
  | MAuth payload =>
      if decide (st = WaitingForAuth) then receiveAuth payload
      else abort None None
  | MAuthData payload =>
      if decide (st = WaitingForAuthData) then receiveClientAuthData payload
      else if decide (st = WaitingForAuthAck) then receiveServerAuthData payload
      else abort None None
  | MBegin =>
      if decide (st = WaitingForBegin) then registerLatencyReply;; switchToActive
      else abort None None
  | MOk =>
      if decide (st = WaitingForSelectAck) then receiveSelectOK
      else if decide (st = WaitingForAuthAck) then receiveAuthOk
      else abort None None
  | MReject =>
      if decide (st = WaitingForSelectAck) then abort None None
      else if decide (st = WaitingForAuthAck) then receiveAuthReject
      else abort None None
  | _ => emit (DataEvent msg)
  end.

(** ** What the runtime calls back *)

(** The promise of a [send] rejected with [err]: its handler runs. *)
Definition sendRejected (onError : Catch) (err : Error) : M unit :=
  match onError with
  | CatchAbort => abort (Some err) None
  | CatchDebug => mret tt
  end.

(** Timer [handle] fires: a timeout is disarmed by firing, an interval
    stays armed. *)
Definition timerFires (handle : N) : M unit :=
  t ← withRuntime (λ r, (timers r !! handle, r));
  match t with
  | None => mret tt
  | Some t =>
      (if repeats t then mret tt else clearTimeout (Some handle));;
      match callback t with
      | NegotiationTimeout => abort None None
      | CheckFailure => checkFailure
      | SendPing => sendPing
      end
  end.

(** Run a method on a world, keeping the world. *)
Definition exec {A} (m : M A) (w : World) : World := snd (m w).

(** The effects [m] adds when run on [w]. *)
Definition effects {A} (m : M A) (w : World) : list Effect :=
  drop (length (trace (runtime w))) (trace (runtime (exec m w))).

(** ** The transitions of the negotiation sequences

    The pairs of a state and a frame type that the server and the client
    sequences list: server Select, Auth, AuthData and Begin; client Hello,
    Ok, Reject and AuthData. *)
Definition listed (st : State) (type : PeerMessageType.t) : bool :=
  match st, type with
  | WaitingForSelect, PeerMessageType.Select
  | WaitingForAuth, PeerMessageType.Auth
  | WaitingForAuthData, PeerMessageType.AuthData
  | WaitingForBegin, PeerMessageType.Begin
  | WaitingForHello, PeerMessageType.Hello
  | WaitingForSelectAck, PeerMessageType.Ok
  | WaitingForSelectAck, PeerMessageType.Reject
  | WaitingForAuthAck, PeerMessageType.AuthData
  | WaitingForAuthAck, PeerMessageType.Ok
  | WaitingForAuthAck, PeerMessageType.Reject => true
  | _, _ => false
  end.

(** The frame types [receiveData] checks the state for. *)
Definition negotiationFrame (type : PeerMessageType.t) : bool :=
  match type with
  | PeerMessageType.Hello | PeerMessageType.Select | PeerMessageType.Auth
  | PeerMessageType.AuthData | PeerMessageType.Begin | PeerMessageType.Ok
  | PeerMessageType.Reject => true
  | _ => false
  end.

(** The requests to disconnect among some effects, with their reasons. *)
Definition disconnects (es : list Effect) : list DisconnectReason.t :=
  omap (λ e, if e is RequestDisconnect reason _ then Some reason else None) es.

(** ** Resources, as the statements observe them *)

(** The timer handles the peer holds in its three fields. *)
Definition heldTimers (p : Peer) : list N :=
  option_list (helloTimeout p) ++ option_list (pingSender p) ++
  option_list (pingChecker p).

(** The flows [destroy()] was called on, among some effects. *)
Definition destroyed (es : list Effect) : list N :=
  omap (λ e, if e is DestroyFlow flow then Some flow else None) es.

(** ** Client authentication, as the statements observe it *)

(** The providers that can create a client flow, in the order of the list. *)
Definition usable (providers : list AuthProvider.t) : list AuthProvider.t :=
  List.filter AuthProvider.createClientFlow providers.

(** The providers a client flow was created with, in order. *)
Definition attempts (es : list Effect) : list AuthProvider.t :=
  omap (λ e, if e is CreateClientFlow provider _ then Some provider else None) es.

(** [k] Reject frames in a row. *)
Fixpoint rejects (k : nat) : M unit :=
  match k with
  | O => mret tt
  | S k' => receiveData MReject;; rejects k'
  end.

(** The Auth frames among some effects, as method and data. *)
Definition authFrames (es : list Effect) : list (string * Bytes) :=
  omap (λ e, if e is Send (MAuth m) _
             then Some (AuthMessage.method m, AuthMessage.data m) else None) es.

(** The provider whose initial message the asynchronous block of
    [sendInitialAuth] waits for: asking for it is the last thing the peer
    has done. *)
Definition awaitedInitialMessage (w : World) : option AuthProvider.t :=
  match last (trace (runtime w)) with
  | Some (Await (InitialMessage provider _)) => Some provider
  | _ => None
  end.

(** [initialMessage()] settles: the block of [sendInitialAuth] that waits
    for it goes on, with the provider it was started for. *)
Definition initialMessageSettles (outcome : Error + Bytes) : M unit :=
  λ w, match awaitedInitialMessage w with
       | Some provider => sendInitialAuth_resume provider outcome w
       | None => (tt, w)
       end.

(** Attempts the server rejects: for each message in turn, the initial
    message of the attempt under way settles with it, which sends the Auth
    frame, and Reject comes back. *)
Fixpoint rejectedAttempts (msgs : list Bytes) : M unit :=
  match msgs with
  | [] => mret tt
  | msg :: rest =>
      initialMessageSettles (inr msg);; receiveData MReject;; rejectedAttempts rest
  end.

(** ** Sample worlds, for the examples *)

Definition sampleProvider (name : string) (client server : bool) : AuthProvider.t :=
  {| AuthProvider.id := name;
     AuthProvider.createClientFlow := client;
     AuthProvider.createServerFlow := server |}.

Definition sampleParent (providers : list AuthProvider.t) : WithNetwork.t :=
  {| WithNetwork.networkId := [x01]%byte;
     WithNetwork.authentication := {| Authentication.providers := providers |} |}.

Definition sampleRuntime : Runtime :=
  {| now := 1000; failureDetected := false; timers := ∅; nextTimer := 1%N;
     nextFlow := 0%N; trace := [] |}.

(** A peer fresh from its constructor. *)
Definition samplePeer (providers : list AuthProvider.t) : Peer :=
  {| parent := sampleParent providers; id := noId; state := Initial;
     lastLatencyTime := 1000; latencyValues := [];
     helloTimeout := None; pingSender := None; pingChecker := None;
     authProviders := None; authClientFlow := None; authServerFlow := None |}.

Definition sampleWorld (providers : list AuthProvider.t) : World :=
  {| peer := samplePeer providers; runtime := sampleRuntime |}.

Definition sampleHello : PeerMessage :=
  MHello {| HelloMessage.id := [x02]%byte; HelloMessage.capabilities := [] |}.

Definition sampleData : PeerMessage :=
  MData {| DataMessage.source := [x02]%byte; DataMessage.target := [x01]%byte;
           DataMessage.id := 7; DataMessage.type := "hi";
           DataMessage.path := [[x02]%byte]; DataMessage.payload := [x01; x02]%byte |}.

(** A client that has gone through Hello and Ok with the given providers
    configured: it waits for the answer to its first Auth, if it could send
    one. *)
Definition sampleClient (providers : list AuthProvider.t) : World :=
  exec (negotiateAsClient;; receiveData sampleHello;; receiveData MOk)
       (sampleWorld providers).

(** A server that has gone through Select and has received an Auth for a
    provider it knows: it waits for the reply of its server flow. *)
Definition sampleServer : World :=
  exec (negotiateAsServer;;
        receiveData (MSelect {| SelectMessage.id := [x02]%byte;
                                SelectMessage.capabilities := [] |});;
        receiveData (MAuth {| AuthMessage.method := "secret";
                              AuthMessage.data := [x2a]%byte |}))
       (sampleWorld [sampleProvider "secret" true true]).

(** A client configured with a provider without client flow, then two
    providers with one. *)
Definition sampleHelloed : World :=
  exec (negotiateAsClient;; receiveData sampleHello)
    (sampleWorld [sampleProvider "server-only" false true;
                  sampleProvider "secret" true true;
                  sampleProvider "anonymous" true false]).

(** A client that became Active after authenticating with its provider. *)
Definition sampleActive : World :=
  exec (receiveData MOk) (sampleClient [sampleProvider "anonymous" true true]).


(** ** Calls that touch the latency samples *)

(** The calls that touch the latency samples, each with the reading of the
    clock at the time of the call. *)
Inductive LatencyCall :=
| LatencySend (time : Z)
| LatencyReply (time : Z).

Definition tick (time : Z) : M unit :=
  withRuntime (λ r, (tt, {| now := time; failureDetected := failureDetected r;
                            timers := timers r; nextTimer := nextTimer r;
                            nextFlow := nextFlow r; trace := trace r |})).

Definition latencyCall (c : LatencyCall) : M unit :=
  match c with
  | LatencySend time => tick time;; registerLatencySend
  | LatencyReply time => tick time;; registerLatencyReply
  end.

Fixpoint latencyCalls (cs : list LatencyCall) : M unit :=
  match cs with
  | [] => mret tt
  | c :: cs' => latencyCall c;; latencyCalls cs'
  end.

(** The samples a sequence of calls records: a reply records the time
    since the send before it. *)
Fixpoint samples (last : Z) (cs : list LatencyCall) : list Z :=
  match cs with
  | [] => []
  | LatencySend time :: cs' => samples time cs'
  | LatencyReply time :: cs' => (time - last) :: samples last cs'
  end.

(** The [n] most recent of [l]. *)
Definition lastn {A} (n : nat) (l : list A) : list A := drop (length l - n) l.

End AbstractPeer.

(* ================================================================== *)
(** * Topology *)
(* ================================================================== *)
Module Topology.

(** A peer as the topology sees it: an object (named by [ref]) with an id. *)
Module Peer.
Record t := { ref : N; id : NodeId }.
#[global] Instance eq_dec : EqDecision t.
Proof. solve_decision. Defined.
End Peer.

(** The two events of a peer the topology listens to. *)
Inductive PeerEvent := OnData | OnDisconnect.

Section Topology.
(** The class TopologyNode is used through its interface.  [Routes] is what
    a node keeps about its edges.  A node is stored in [nodes] under its
    id, which never changes; the record holds the rest of it. *)
Context {Routes : Type}.

Record TopologyNode := {
  version : Z;
  direct : bool;
  routes : Routes
}.

(** The constructor and the methods of TopologyNode are taken as they
    come: [newTopologyNode] is what [new TopologyNode(topology, id)] makes
    (apart from the id), [removeRouting(peer)] answers whether routing
    changed, and [updateSelf(peers)] rebuilds the edges of the own node. *)
Variable newTopologyNode : TopologyNode.
Variable removeRouting : Peer.t → TopologyNode → TopologyNode * bool.
Variable updateSelf : list Peer.t → TopologyNode → TopologyNode.

Definition set_direct (v : bool) (n : TopologyNode) : TopologyNode :=
  {| version := version n; direct := v; routes := routes n |}.

Record PeerDetails := {
  peer : Peer.t;
  subscriptions : list N;
  pd_nodes : gset NodeId
}.

(** The topology and the part of the runtime it touches.  [self] is the node
    stored under [networkId].  Of the class Routing only the dirty flag that
    [markDirty()] sets is kept, as [routingDirty].  The runtime holds the
    live event subscriptions by handle, the armed broadcast timers, and the
    frames handed to peers, in order.  [peers.values()] and [nodes.values()]
    are enumerated in the order of the finite map; nothing below depends on
    the order. *)
Record t := {
  (* fields of the class *)
  networkId : NodeId;
  endpoint : bool;
  nodes : gmap NodeId TopologyNode;
  peers : gmap NodeId PeerDetails;
  broadcastTimeout : option N;
  routingDirty : bool;
  (* runtime *)
  listeners : gmap N (Peer.t * PeerEvent);
  nextHandle : N;
  timers : gset N;
  sent : list (Peer.t * PeerMessage)
}.

Definition set_nodes v s :=
  {| networkId := networkId s; endpoint := endpoint s; nodes := v;
     peers := peers s; broadcastTimeout := broadcastTimeout s;
     routingDirty := routingDirty s; listeners := listeners s;
     nextHandle := nextHandle s; timers := timers s; sent := sent s |}.
Definition set_peers v s :=
  {| networkId := networkId s; endpoint := endpoint s; nodes := nodes s;
     peers := v; broadcastTimeout := broadcastTimeout s;
     routingDirty := routingDirty s; listeners := listeners s;
     nextHandle := nextHandle s; timers := timers s; sent := sent s |}.
Definition set_broadcastTimeout v s :=
  {| networkId := networkId s; endpoint := endpoint s; nodes := nodes s;
     peers := peers s; broadcastTimeout := v; routingDirty := routingDirty s;
     listeners := listeners s; nextHandle := nextHandle s;
     timers := timers s; sent := sent s |}.
Definition set_routingDirty v s :=
  {| networkId := networkId s; endpoint := endpoint s; nodes := nodes s;
     peers := peers s; broadcastTimeout := broadcastTimeout s;
     routingDirty := v; listeners := listeners s; nextHandle := nextHandle s;
     timers := timers s; sent := sent s |}.
Definition set_listeners v s :=
  {| networkId := networkId s; endpoint := endpoint s; nodes := nodes s;
     peers := peers s; broadcastTimeout := broadcastTimeout s;
     routingDirty := routingDirty s; listeners := v;
     nextHandle := nextHandle s; timers := timers s; sent := sent s |}.
Definition set_nextHandle v s :=
  {| networkId := networkId s; endpoint := endpoint s; nodes := nodes s;
     peers := peers s; broadcastTimeout := broadcastTimeout s;
     routingDirty := routingDirty s; listeners := listeners s;
     nextHandle := v; timers := timers s; sent := sent s |}.
Definition set_timers v s :=
  {| networkId := networkId s; endpoint := endpoint s; nodes := nodes s;
     peers := peers s; broadcastTimeout := broadcastTimeout s;
     routingDirty := routingDirty s; listeners := listeners s;
     nextHandle := nextHandle s; timers := v; sent := sent s |}.
Definition set_sent v s :=
  {| networkId := networkId s; endpoint := endpoint s; nodes := nodes s;
     peers := peers s; broadcastTimeout := broadcastTimeout s;
     routingDirty := routingDirty s; listeners := listeners s;
     nextHandle := nextHandle s; timers := timers s; sent := v |}.

(** The constructor: the own node is direct and stored under the own id. *)
Definition new (parentNetworkId : NodeId) (optionsEndpoint : option bool) : t :=
  {| networkId := parentNetworkId;
     endpoint := default false optionsEndpoint;
     nodes := {[ parentNetworkId := set_direct true newTopologyNode ]};
     peers := ∅;
     broadcastTimeout := None;
     routingDirty := false;
     listeners := ∅;
     nextHandle := 1%N;
     timers := ∅;
     sent := [] |}.

(** Get a specific node, creating it if it is unknown. *)
Definition getOrCreate (id : NodeId) (s : t) : TopologyNode * t :=
  match nodes s !! id with
  | Some node => (node, s)
  | None => (newTopologyNode, set_nodes (<[id := newTopologyNode]> (nodes s)) s)
  end.

(** [peer.onData(...)] and [peer.onDisconnect(...)]: the runtime registers
    the listener and hands back its handle. *)
Definition subscribe (peer : Peer.t) (event : PeerEvent) (s : t) : N * t :=
  let h := nextHandle s in
  (h, set_nextHandle (h + 1)%N (set_listeners (<[h := (peer, event)]> (listeners s)) s)).

Definition unsubscribe (handle : N) (s : t) : t :=
  set_listeners (delete handle (listeners s)) s.

Definition send (peer : Peer.t) (msg : PeerMessage) (s : t) : t :=
  set_sent (sent s ++ [(peer, msg)]) s.

(** The peers of [peers.values()]. *)
Definition peerList (s : t) : list Peer.t :=
  (λ kv, peer (snd kv)) <$> map_to_list (peers s).

(** Queue a broadcast of routing information, unless one is queued. *)
Definition queueBroadcast (s : t) : t :=
  let s := set_routingDirty true s in
  if endpoint s then s
  else if bool_decide (is_Some (broadcastTimeout s)) || bool_decide (size (peers s) = 0%nat) then s
  else
    let h := nextHandle s in
    set_broadcastTimeout (Some h)
      (set_nextHandle (h + 1)%N (set_timers ({[h]} ∪ timers s) s)).

Definition addPeer (p : Peer.t) (s : t) : t :=
  match peers s !! Peer.id p with
  | Some current => s
  | None =>
      let '(h1, s) := subscribe p OnData s in
      let '(h2, s) := subscribe p OnDisconnect s in
      let peerInfo := {| peer := p; subscriptions := [h1; h2]; pd_nodes := ∅ |} in
      let s := set_peers (<[Peer.id p := peerInfo]> (peers s)) s in
      let '(_, s) := getOrCreate (Peer.id p) s in
      let s := set_nodes (alter (set_direct true) (Peer.id p) (nodes s)) s in
      let s := set_nodes (alter (updateSelf (peerList s)) (networkId s) (nodes s)) s in
      queueBroadcast s
  end.

(** The first part of [handleNodeSummaryMessage]: the ids to request and
    the ids found in the message, creating the nodes that are unknown. *)
Fixpoint compareSummaries (summaries : list NodeRoutingSummary.t)
    (idsToRequest : list NodeId) (found : gset NodeId) (s : t)
  : list NodeId * gset NodeId * t :=
  match summaries with
  | [] => (idsToRequest, found, s)
  | summary :: rest =>
      let '(node, s) := getOrCreate (NodeRoutingSummary.id summary) s in
      let found := found ∪ {[ NodeRoutingSummary.id summary ]} in
      let idsToRequest :=
        if decide (version node < NodeRoutingSummary.version summary)
        then idsToRequest ++ [NodeRoutingSummary.id summary]
        else idsToRequest in
      compareSummaries rest idsToRequest found s
  end.

Definition collectRequests (p : Peer.t) (message : NodeSummaryMessage.t) (s : t)
  : list NodeId * gset NodeId * t :=
  let found : gset NodeId := {[ Peer.id p ]} in
  let '(peerNode, s) := getOrCreate (Peer.id p) s in
  let idsToRequest :=
    if decide (version peerNode < NodeSummaryMessage.ownVersion message)
    then [Peer.id p] else [] in
  compareSummaries (NodeSummaryMessage.nodes message) idsToRequest found s.

(** The test of the second loop: the node is not the own one, was not found
    in the message, and is not a peer. *)
Definition unseen (found : gset NodeId) (s : t) (id : NodeId) : bool :=
  bool_decide (id ≠ networkId s) && bool_decide (id ∉ found)
  && bool_decide (peers s !! id = None).

Definition handleNodeSummaryMessage (p : Peer.t) (message : NodeSummaryMessage.t) (s : t) : t :=
  let '(idsToRequest, found, s) := collectRequests p message s in
  let didChangeRouting :=
    bool_decide (map_Exists
      (λ id node, unseen found s id = true ∧ snd (removeRouting p node) = true)
      (nodes s)) in
  let s := set_nodes
    (map_imap (λ id node,
       Some (if unseen found s id then fst (removeRouting p node) else node))
       (nodes s)) s in
  let s := if didChangeRouting then queueBroadcast s else s in
  match idsToRequest with
  | [] => s
  | _ => send p (MNodeRequest {| NodeRequestMessage.nodes := idsToRequest |}) s
  end.

(** Handle that a peer has disconnected. *)
Definition handleDisconnect (p : Peer.t) (s : t) : t :=
  match peers s !! Peer.id p with
  | None => s
  | Some info =>
      let s := set_peers (delete (Peer.id p) (peers s)) s in
      let s := foldl (λ s handle, unsubscribe handle s) s (subscriptions info) in
      let '(_, s) := getOrCreate (Peer.id p) s in
      let s := set_nodes (alter (set_direct false) (Peer.id p) (nodes s)) s in
      let s := set_nodes
        (map_imap (λ id node,
           Some (if bool_decide (id ∈ pd_nodes info)
                 then fst (removeRouting p node) else node))
           (nodes s)) s in
      let s := set_nodes (alter (updateSelf (peerList s)) (networkId s) (nodes s)) s in
      queueBroadcast s
  end.

(** ** What the statements observe *)

(** The version the topology has on record for a node; an unknown node is
    created on first sight, with the version of a new node. *)
Definition localVersion (s : t) (id : NodeId) : Z :=
  version (default newTopologyNode (nodes s !! id)).

(** [s'] is [s] with new nodes stored under those ids of [ks] that were
    unknown, and nothing else changed. *)
Definition grown (ks : gset NodeId) (s s' : t) : Prop :=
  s' = set_nodes (nodes s') s ∧
  ∀ k, nodes s' !! k =
    match nodes s !! k with
    | Some n => Some n
    | None => if decide (k ∈ ks) then Some newTopologyNode else None
    end.

(** The ids a summary message lists. *)
Definition summaryIds (message : NodeSummaryMessage.t) : list NodeId :=
  NodeRoutingSummary.id <$> NodeSummaryMessage.nodes message.

End Topology.
Arguments TopologyNode : clear implicits.
Arguments t : clear implicits.

(** ** A sample instance of the node interface, for the examples: the routes
    of a node are the ids of the peers it is reachable through. *)
Definition sampleRemoveRouting (p : Peer.t) (n : TopologyNode (list NodeId))
  : TopologyNode (list NodeId) * bool :=
  ({| version := version n; direct := direct n;
      routes := List.filter (λ i, negb (bool_decide (i = Peer.id p))) (routes n) |},
   bool_decide (Peer.id p ∈ routes n)).

Definition sampleUpdateSelf (ps : list Peer.t) (n : TopologyNode (list NodeId))
  : TopologyNode (list NodeId) :=
  {| version := version n + 1; direct := direct n; routes := Peer.id <$> ps |}.

Definition sampleNewNode : TopologyNode (list NodeId) :=
  {| version := 0; direct := false; routes := [] |}.

Definition peerA : Peer.t := {| Peer.ref := 1; Peer.id := [x0a]%byte |}.
Definition peerA' : Peer.t := {| Peer.ref := 2; Peer.id := [x0a]%byte |}.
Definition peerB : Peer.t := {| Peer.ref := 3; Peer.id := [x0b]%byte |}.

(** The topology of node 01 after peer A connected. *)
Definition sampleTopology : t (list NodeId) :=
  addPeer sampleNewNode sampleUpdateSelf peerA (new sampleNewNode [x01]%byte None).

(** The subscriptions the sample topology holds for peer A. *)
Definition sampleDetails : PeerDetails :=
  {| peer := peerA; subscriptions := [1; 2]%N;
     pd_nodes := ∅ |}.

(** The same, knowing a node 0c of version 1 that is reachable through A. *)
Definition sampleNodeC : TopologyNode (list NodeId) :=
  {| version := 1; direct := false; routes := [[x0a]%byte] |}.

Definition sampleGossip : t (list NodeId) :=
  set_nodes (<[ [x0c]%byte := sampleNodeC ]> (nodes sampleTopology)) sampleTopology.

(** A summary from A: its own version is 3, and it sees node 0d at
    version 2 (and no longer node 0c). *)
Definition sampleSummary : NodeSummaryMessage.t :=
  {| NodeSummaryMessage.ownVersion := 3;
     NodeSummaryMessage.nodes :=
       [{| NodeRoutingSummary.id := [x0d]%byte; NodeRoutingSummary.version := 2 |}] |}.

End Topology.

(* ================================================================== *)
(** * RequestReplyHelper: the timers of pending requests *)
(* ================================================================== *)
Module RequestReplyHelperTimers.
Import RequestReplyHelper.

Section Timers.
Context {Result : Type}.

(** Every armed timer is the timer of a pending request. *)
Definition owned (s : t Result) : Prop :=
  ∀ h id d, timers s !! h = Some (id, d) →
    ∃ m, pending s !! id = Some m ∧ timeout_handle m = h.

End Timers.
End RequestReplyHelperTimers.

(* ================================================================== *)
(** * AbstractPeer: everything that can happen to a peer *)
(* ================================================================== *)
Module PeerRuns.
Import AbstractPeer.

(** The calls a transport and the runtime make on a peer: the public and
    protected methods, incoming frames, timers that fire, promises that
    settle.  [ClockReads] and [FailureDetectorSays] set what [Date.now()]
    and [failureDetector.checkFailure()] answer from then on. *)
Inductive Input :=
| NegotiateAsServer
| NegotiateAsClient
| Receive (msg : PeerMessage)
| HandleDisconnect (reason : DisconnectReason.t) (err : option Error)
| Disconnect
| ForceConnect (id : NodeId)
| TimerFires (handle : N)
| SendRejected (onError : Catch) (err : Error)
| InitialMessageSettled (provider : AuthProvider.t) (outcome : Error + Bytes)
| ClientReplySettled (outcome : Error + AuthClientReply.t)
| ServerFlowReleased (message : AuthMessage.t)
| ServerReplySettled (outcome : Error + AuthServerReply.t)
| ClockReads (time : Z)
| FailureDetectorSays (failed : bool).

Definition failureDetectorSays (failed : bool) : M unit :=
  withRuntime (λ r, (tt, {| now := now r; failureDetected := failed;
                            timers := timers r; nextTimer := nextTimer r;
                            nextFlow := nextFlow r; trace := trace r |})).

Definition input (i : Input) : M unit :=
  match i with
  | NegotiateAsServer => negotiateAsServer
  | NegotiateAsClient => negotiateAsClient
  | Receive msg => receiveData msg
  | HandleDisconnect reason err => handleDisconnect reason err
  | Disconnect => disconnect
  | ForceConnect id => forceConnect id
  | TimerFires handle => timerFires handle
  | SendRejected onError err => sendRejected onError err
  | InitialMessageSettled provider outcome => sendInitialAuth_resume provider outcome
  | ClientReplySettled outcome => receiveServerAuthData_resume outcome
  | ServerFlowReleased message => receiveAuth_released message
  | ServerReplySettled outcome => serverReply_resume outcome
  | ClockReads time => tick time
  | FailureDetectorSays failed => failureDetectorSays failed
  end.

Fixpoint inputs (l : list Input) : M unit :=
  match l with
  | [] => mret tt
  | i :: l' => input i;; inputs l'
  end.

(** A peer fresh from its constructor, in a runtime without timers, at
    clock [time]. *)
Definition born (parent : WithNetwork.t) (time : Z) : World :=
  {| peer := {| parent := parent; id := noId; state := Initial;
                lastLatencyTime := time; latencyValues := [];
                helloTimeout := None; pingSender := None; pingChecker := None;
                authProviders := None; authClientFlow := None;
                authServerFlow := None |};
     runtime := {| now := time; failureDetected := false; timers := ∅;
                   nextTimer := 1%N; nextFlow := 0%N; trace := [] |} |}.

(** How often the connect and the disconnect event were emitted. *)
Definition connectEvents (es : list Effect) : nat :=
  length (List.filter (λ e, if e is ConnectEvent then true else false) es).
Definition disconnectEvents (es : list Effect) : nat :=
  length (List.filter (λ e, if e is DisconnectEvent then true else false) es).

(** The frames the peer hands to the transport and the frames it hands to
    its listeners.  A frame the peer sends is a ping or a pong, whose
    failure is only logged, or a negotiation frame, whose failure aborts;
    a frame it hands to the listeners of the data event is neither a
    negotiation frame nor Ping nor Bye. *)
Definition expected (e : Effect) : bool :=
  match e with
  | Send MPing onError | Send MPong onError =>
      if onError is CatchDebug then true else false
  | Send msg onError =>
      negotiationFrame (messageType msg) &&
      (if onError is CatchAbort then true else false)
  | DataEvent msg =>
      negb (negotiationFrame (messageType msg)) &&
      match msg with MPing | MBye => false | _ => true end
  | _ => true
  end.

(** What every world reached from a new peer satisfies: every armed
    negotiation timer is the one the peer holds; the disconnect event was
    emitted less often than the connect event while the peer is Active, and
    at most as often otherwise; and the peer did only what is [expected]. *)
Record Good (w : World) : Prop := {
  good_timer : ∀ h t, timers (runtime w) !! h = Some t →
    callback t = NegotiationTimeout → helloTimeout (peer w) = Some h;
  good_events :
    (disconnectEvents (trace (runtime w)) +
       (if decide (state (peer w) = Active) then 1 else 0)
     ≤ connectEvents (trace (runtime w)))%nat;
  good_effects : Forall (λ e, expected e = true) (trace (runtime w))
}.

(** A method keeps a property of the world. *)
Definition preserves (I : World → Prop) {A} (m : M A) : Prop :=
  ∀ w, I w → I (snd (m w)).

End PeerRuns.

(* ================================================================== *)
(** * Topology: the gossip handlers and the broadcast *)
(* ================================================================== *)
Module TopologyGossip.
Import Topology.

#[global] Instance PeerEvent_eq_dec : EqDecision PeerEvent.
Proof. solve_decision. Defined.

Section Gossip.
(** The interface of TopologyNode and of Routing, as far as the topology
    uses it: besides the constructor, [removeRouting] and [updateSelf],
    [updateRouting(peer, details)] answers whether routing changed,
    [toRoutingDetails()] describes a node (the id it reports is the one the
    node is stored under), [hasPeers] tells whether a node is reachable
    through some peer.  The class Routing is not among the sources: it is
    handed the own node, the map of nodes (the very map the topology
    uses) and a lookup of the peers, and holds the dirty flag.  [refresh] is
    what [routing.refresh()] makes of the map and the flag: it is free to
    change, to add and to remove nodes; the paths it computes and the
    availability events it emits stay with Routing. *)
Context {Routes : Type}.
Variable newTopologyNode : TopologyNode Routes.
Variable removeRouting : Peer.t → TopologyNode Routes → TopologyNode Routes * bool.
Variable updateSelf : list Peer.t → TopologyNode Routes → TopologyNode Routes.
Variable updateRouting :
  Peer.t → NodeRoutingDetails.t → TopologyNode Routes → TopologyNode Routes * bool.
Variable toRoutingDetails : NodeId → TopologyNode Routes → NodeRoutingDetails.t.
Variable hasPeers : TopologyNode Routes → bool.
Variable refresh :
  (NodeId → option Peer.t) → NodeId → gmap NodeId (TopologyNode Routes) → bool →
  gmap NodeId (TopologyNode Routes) * bool.

(** Reply to a request with the details of the requested nodes that are
    known. *)
Definition handleNodeRequestMessage (p : Peer.t) (message : NodeRequestMessage.t)
    (s : t Routes) : t Routes :=
  let reply :=
    omap (λ id, toRoutingDetails id <$> nodes s !! id)
         (NodeRequestMessage.nodes message) in
  send p (MNodeDetails {| NodeDetailsMessage.nodes := reply |}) s.

Definition set_pd_nodes (v : gset NodeId) (info : PeerDetails) : PeerDetails :=
  {| peer := peer info; subscriptions := subscriptions info; pd_nodes := v |}.

(** The first loop of [handleNodeDetailsMessage].  [oldNodes] is the set
    the peer advertised before; the set it advertises now is built up in
    the details stored for the peer. *)
Fixpoint updateRoutings (p : Peer.t) (routings : list NodeRoutingDetails.t)
    (oldNodes : gset NodeId) (didChangeRouting : bool) (s : t Routes)
  : gset NodeId * bool * t Routes :=
  match routings with
  | [] => (oldNodes, didChangeRouting, s)
  | routing :: rest =>
      let rid := NodeRoutingDetails.id routing in
      let '(node, s) := getOrCreate newTopologyNode rid s in
      (* Protect against updating our own routing information *)
      if decide (rid = networkId s) then
        updateRoutings p rest oldNodes didChangeRouting s
      else
        let oldNodes := oldNodes ∖ {[rid]} in
        let s := set_peers
          (alter (λ info, set_pd_nodes (pd_nodes info ∪ {[rid]}) info)
                 (Peer.id p) (peers s)) s in
        let '(node', changed) := updateRouting p routing node in
        let s := set_nodes (<[rid := node']> (nodes s)) s in
        updateRoutings p rest oldNodes (didChangeRouting || changed) s
  end.

Definition handleNodeDetailsMessage (p : Peer.t) (message : NodeDetailsMessage.t)
    (s : t Routes) : t Routes :=
  match peers s !! Peer.id p with
  | None => s
  | Some peerInfo =>
      let oldNodes := pd_nodes peerInfo in
      let s := set_peers (<[Peer.id p := set_pd_nodes ∅ peerInfo]> (peers s)) s in
      let '(oldNodes, didChangeRouting, s) :=
        updateRoutings p (NodeDetailsMessage.nodes message) oldNodes false s in
      (* Remove routing from nodes no longer seen by the peer *)
      let removed :=
        bool_decide (map_Exists
          (λ id node, id ∈ oldNodes ∧ snd (removeRouting p node) = true)
          (nodes s)) in
      let s := set_nodes
        (map_imap (λ id node,
           Some (if bool_decide (id ∈ oldNodes)
                 then fst (removeRouting p node) else node))
           (nodes s)) s in
      if didChangeRouting || removed then queueBroadcast s else s
  end.

(** [this.self]: the node stored under the own id. *)
Definition self (s : t Routes) : TopologyNode Routes :=
  default newTopologyNode (nodes s !! networkId s).

(** The summaries of a broadcast: every node but the own one that is
    reachable through a peer. *)
Definition summaries (s : t Routes) : list NodeRoutingSummary.t :=
  omap (λ kv : NodeId * TopologyNode Routes,
          if bool_decide (fst kv = networkId s) then None
          else if hasPeers (snd kv)
               then Some {| NodeRoutingSummary.id := fst kv;
                            NodeRoutingSummary.version := version (snd kv) |}
               else None)
       (map_to_list (nodes s)).

(** The own node is the root of the paths [routing.refresh()] computes:
    whatever it does to the other nodes, the own node stays in the map as
    it is. *)
Definition keepOwn (s : t Routes) (refreshed : gmap NodeId (TopologyNode Routes))
  : gmap NodeId (TopologyNode Routes) :=
  match nodes s !! networkId s with
  | Some own => <[networkId s := own]> refreshed
  | None => refreshed
  end.

Definition refreshRouting (s : t Routes) : t Routes :=
  let refreshed :=
    refresh (λ id, peer <$> peers s !! id) (networkId s) (nodes s) (routingDirty s) in
  set_routingDirty (snd refreshed) (set_nodes (keepOwn s (fst refreshed)) s).

(** What the broadcast timer runs: routing is refreshed, the summary of the
    nodes as they are then goes to every peer, and the schedule is free
    again.  (The order in which an IdMap hands out its values is the order
    of insertion; the finite maps here have their own, and the statements
    say nothing about the order of the summaries or of the sends.) *)
Definition broadcast (s : t Routes) : t Routes :=
  let s := refreshRouting s in
  let message :=
    {| NodeSummaryMessage.ownVersion := version (self s);
       NodeSummaryMessage.nodes := summaries s |} in
  let s := foldl (λ s p, send p (MNodeSummary message) s) s (peerList s) in
  set_broadcastTimeout None s.

(** Timer [handle] fires, if it is armed; a timeout fires once. *)
Definition timerFires (handle : N) (s : t Routes) : t Routes :=
  if bool_decide (handle ∈ timers s)
  then broadcast (set_timers (timers s ∖ {[handle]}) s)
  else s.

(** The listener [addPeer] registers for the data event of a peer; frames
    of type Data, DataAck and DataReject go to Messaging, which is not among
    the sources and keeps its own state, and frames of other types are not
    for the topology. *)
Definition onData (p : Peer.t) (msg : PeerMessage) (s : t Routes) : t Routes :=
  match msg with
  | MNodeSummary payload =>
      handleNodeSummaryMessage newTopologyNode removeRouting p payload s
  | MNodeDetails payload => handleNodeDetailsMessage p payload s
  | MNodeRequest payload => handleNodeRequestMessage p payload s
  | _ => s
  end.

Definition subscribed (p : Peer.t) (event : PeerEvent) (s : t Routes) : bool :=
  bool_decide (map_Exists (λ _ l, l = (p, event)) (listeners s)).

(** What can happen to a topology: a peer is added, a peer emits an event
    (which reaches the topology when a subscription for it is live), a
    timer fires, routing is refreshed. *)
Inductive Input :=
| AddPeer (p : Peer.t)
| DataEvent (p : Peer.t) (msg : PeerMessage)
| DisconnectEvent (p : Peer.t)
| TimerFires (handle : N)
| RefreshRouting.

Definition input (i : Input) (s : t Routes) : t Routes :=
  match i with
  | AddPeer p => addPeer newTopologyNode updateSelf p s
  | DataEvent p msg => if subscribed p OnData s then onData p msg s else s
  | DisconnectEvent p =>
      if subscribed p OnDisconnect s
      then handleDisconnect newTopologyNode removeRouting updateSelf p s
      else s
  | TimerFires handle => timerFires handle s
  | RefreshRouting => refreshRouting s
  end.

Definition inputs (l : list Input) (s : t Routes) : t Routes :=
  foldl (λ s i, input i s) s l.

(** The inputs the topology handles by itself, without a call to Routing or
    to Messaging. *)
Definition gossip (i : Input) : bool :=
  match i with
  | AddPeer _ | DisconnectEvent _ => true
  | DataEvent _ (MNodeSummary _ | MNodeRequest _ | MNodeDetails _) => true
  | _ => false
  end.

(** The summaries among the frames handed to peers. *)
Definition summariesSent (s : t Routes) : list (Peer.t * NodeSummaryMessage.t) :=
  omap (λ x : Peer.t * PeerMessage,
          if snd x is MNodeSummary m then Some (fst x, m) else None)
       (sent s).

(** What every topology reached from a new one satisfies. *)
Record Consistent (s : t Routes) : Prop := {
  consistent_handles : ∀ h l, listeners s !! h = Some l → (h < nextHandle s)%N;
  consistent_peers : ∀ id info, peers s !! id = Some info →
    Peer.id (peer info) = id ∧
    ∃ h1 h2, subscriptions info = [h1; h2] ∧ h1 ≠ h2 ∧
      listeners s !! h1 = Some (peer info, OnData) ∧
      listeners s !! h2 = Some (peer info, OnDisconnect);
  consistent_listeners : ∀ h p ev, listeners s !! h = Some (p, ev) →
    ∃ info, peers s !! Peer.id p = Some info ∧ peer info = p ∧
            h ∈ subscriptions info;
  consistent_schedule :
    timers s = (if broadcastTimeout s is Some h then {[h]} else ∅);
  consistent_endpoint : endpoint s = true →
    broadcastTimeout s = None ∧ summariesSent s = [];
  consistent_self : is_Some (nodes s !! networkId s);
  consistent_advertised : ∀ id info, peers s !! id = Some info →
    networkId s ∉ pd_nodes info
}.

(** What no handler of the topology changes: the own id, the endpoint
    option, and the nodes that are known. *)
Definition stable (s s' : t Routes) : Prop :=
  networkId s' = networkId s ∧ endpoint s' = endpoint s ∧
  ∀ id, is_Some (nodes s !! id) → is_Some (nodes s' !! id).

End Gossip.

(** ** A sample instance of the rest of the node interface, for the
    examples: the routes of a node are the ids of the peers it is reachable
    through, as in the samples of the topology. *)
Definition sampleUpdateRouting (p : Peer.t) (details : NodeRoutingDetails.t)
    (n : TopologyNode (list NodeId)) : TopologyNode (list NodeId) * bool :=
  ({| version := NodeRoutingDetails.version details; direct := direct n;
      routes := if bool_decide (Peer.id p ∈ routes n) then routes n
                else routes n ++ [Peer.id p] |},
   bool_decide (version n < NodeRoutingDetails.version details)).

Definition sampleToRoutingDetails (id : NodeId) (n : TopologyNode (list NodeId))
  : NodeRoutingDetails.t :=
  {| NodeRoutingDetails.id := id;
     NodeRoutingDetails.version := version n;
     NodeRoutingDetails.neighbors := (λ i, (i, 0)) <$> routes n |}.

Definition sampleHasPeers (n : TopologyNode (list NodeId)) : bool :=
  bool_decide (routes n ≠ []).

(** A sample [refresh]: it drops the nodes that are neither direct nor
    reachable through a peer, and clears the flag. *)
Definition sampleRefresh (peerOf : NodeId → option Peer.t) (own : NodeId)
    (nodes : gmap NodeId (TopologyNode (list NodeId))) (dirty : bool)
  : gmap NodeId (TopologyNode (list NodeId)) * bool :=
  (filter (λ kv, direct (snd kv) = true ∨ routes (snd kv) ≠ []) nodes, false).

(** Runs of the sample topology of node 01. *)
Definition sampleRun (l : list Input) : t (list NodeId) :=
  inputs sampleNewNode sampleRemoveRouting sampleUpdateSelf sampleUpdateRouting
    sampleToRoutingDetails sampleHasPeers sampleRefresh l
    (new sampleNewNode [x01]%byte None).

End TopologyGossip.

(* ================================================================== *)
(** * Properties of RequestReplyHelper *)
(* ================================================================== *)
Module RequestReplyHelperFacts.
Import RequestReplyHelper.

Section Facts.
Context {Result : Type}.
Implicit Types (s : t Result) (cs : list (Call Result)).


Lemma Inv_new options : Inv (new options : t Result).
Proof.
  split; simpl; try done.
  - intros p Hp. lia.
Qed.

Lemma outstanding_iff s p :
  Inv s → outstanding p s ↔ is_Some (pending s !! N.of_nat p).
Proof.
  intros HI. split.
  - intros (id & m & Hm & <-).
    destruct (inv_pending s HI id m Hm) as (_ & -> & _).
    rewrite N2Nat.id. eauto.
  - intros [m Hm]. exists (N.of_nat p), m. split; [done|].
    destruct (inv_pending s HI _ m Hm) as (_ & -> & _).
    by rewrite Nat2N.id.
Qed.

Lemma settle_count_settle p q how s :
  settle_count p (settle q how s) =
  ((if decide (q = p) then 1 else 0) + settle_count p s)%nat.
Proof.
  unfold settle_count, settle. simpl. rewrite filter_cons. simpl.
  by case_decide.
Qed.

Lemma settle_count_ext p s s' :
  settled s = settled s' → settle_count p s = settle_count p s'.
Proof. unfold settle_count. by intros ->. Qed.

Lemma Inv_prepareRequest s : Inv s → Inv (snd (prepareRequest s)).
Proof.
  intros HI. pose proof (inv_promise s HI) as Hnp.
  assert (Hfresh : pending s !! idCounter s = None).
  { destruct (pending s !! idCounter s) as [m|] eqn:Hm; [|done].
    destruct (inv_pending s HI _ m Hm) as (? & _). lia. }
  assert (Hfresh_t : timers s !! nextTimer s = None).
  { destruct (timers s !! nextTimer s) as [x|] eqn:Hx; [|done].
    pose proof (inv_timers s HI _ x Hx). lia. }
  split; simpl.
  - lia.
  - intros id m. rewrite lookup_insert. case_decide as Hid.
    + intros [= <-]. subst id. simpl. rewrite lookup_insert_eq.
      split; [lia|]. split; [lia|done].
    + intros Hm. destruct (inv_pending s HI id m Hm) as (Hlt & Hp & Ht).
      split; [lia|]. split; [done|].
      rewrite lookup_insert_ne; [done|].
      intros Heq. rewrite <- Heq in Ht. congruence.
  - intros h x. rewrite lookup_insert. case_decide.
    + intros _. lia.
    + intros Hx. pose proof (inv_timers s HI h x Hx). lia.
  - intros p Hp. destruct (decide (p = nextPromise s)) as [->|Hne].
    + left. split.
      * exists (idCounter s), {| promise := nextPromise s; timeout_handle := nextTimer s |}.
        simpl. by rewrite lookup_insert_eq.
      * apply (inv_unborn s HI). lia.
    + assert (Hp' : (p < nextPromise s)%nat) by lia.
      destruct (inv_settled s HI p Hp') as [[Ho Hc]|[Ho Hc]]; [left|right].
      * split; [|done]. destruct Ho as (id & m & Hm & Hpm).
        exists id, m. simpl. split; [|done].
        rewrite lookup_insert_ne; [done|]. intros <-. congruence.
      * split; [|done]. intros (id & m & Hm & Hpm). simpl in Hm.
        rewrite lookup_insert in Hm. case_decide.
        -- injection Hm as <-. simpl in Hpm. lia.
        -- apply Ho. by exists id, m.
  - intros p Hp. apply (inv_unborn s HI). lia.
Qed.

(** Settling the promise of a pending id after releasing the id. *)
Lemma Inv_release_settle s id m how :
  Inv s → pending s !! id = Some m →
  Inv (settle (promise m) how (releaseId id s)).
Proof.
  intros HI Hm. unfold releaseId. rewrite Hm.
  destruct (inv_pending s HI id m Hm) as (Hlt & Hpm & Htm).
  split; simpl.
  - apply (inv_promise s HI).
  - intros id' m'. rewrite lookup_delete. case_decide as Hid; [done|].
    intros Hm'. destruct (inv_pending s HI id' m' Hm') as (? & ? & Ht').
    split; [done|]. split; [done|].
    rewrite lookup_delete_ne; [done|].
    intros Heq. rewrite Heq in Htm. congruence.
  - intros h x. rewrite lookup_delete. case_decide; [done|].
    apply (inv_timers s HI).
  - intros p Hp. rewrite settle_count_settle.
    rewrite (settle_count_ext p _ s) by done.
    assert (Hgone : ∀ q, outstanding q
       {| defaultTimeout := defaultTimeout s;
          pending := delete id (pending s);
          idCounter := idCounter s;
          timers := delete (timeout_handle m) (timers s);
          nextTimer := nextTimer s;
          nextPromise := nextPromise s;
          settled := (promise m, how) :: settled s |} ↔
       outstanding q s ∧ q ≠ promise m).
    { intros q. split.
      - intros (id' & m' & Hm' & Hq). simpl in Hm'.
        rewrite lookup_delete in Hm'. case_decide as Hid; [done|].
        split; [by exists id', m'|].
        destruct (inv_pending s HI id' m' Hm') as (_ & Hq' & _).
        intros Heq. apply Hid. apply N2Nat.inj. congruence.
      - intros [(id' & m' & Hm' & Hq) Hne]. exists id', m'. simpl.
        split; [|done]. rewrite lookup_delete_ne; [done|].
        intros <-. congruence. }
    case_decide as Hq.
    + subst p. right. split; [rewrite Hgone; tauto|].
      destruct (inv_settled s HI _ Hp) as [[_ ->]|[Ho _]]; [done|].
      exfalso. apply Ho. by exists id, m.
    + destruct (inv_settled s HI _ Hp) as [[Ho Hc]|[Ho Hc]]; [left|right];
        (split; [rewrite Hgone; intuition congruence|done]).
  - intros p Hp. rewrite settle_count_settle.
    rewrite (settle_count_ext p _ s) by done. case_decide as Hq.
    + subst p. simpl in Hp. rewrite (inv_promise s HI) in Hp. lia.
    + by apply (inv_unborn s HI).
Qed.

Lemma Inv_registerReply s id r : Inv s → Inv (registerReply id r s).
Proof.
  intros HI. unfold registerReply.
  destruct (pending s !! id) as [m|] eqn:Hm; [|done].
  by apply Inv_release_settle.
Qed.

Lemma Inv_registerError s id e : Inv s → Inv (registerError id e s).
Proof.
  intros HI. unfold registerError.
  destruct (pending s !! id) as [m|] eqn:Hm; [|done].
  by apply Inv_release_settle.
Qed.

Lemma Inv_clear_fired s h id d :
  Inv s → timers s !! h = Some (id, d) → pending s !! id = None →
  Inv (clearTimeout h s).
Proof.
  intros HI Hh Hid. split; simpl.
  - apply (inv_promise s HI).
  - intros id' m' Hm'.
    destruct (inv_pending s HI id' m' Hm') as (? & ? & Ht').
    split; [done|]. split; [done|].
    rewrite lookup_delete_ne; [done|].
    intros Heq. rewrite <- Heq in Ht'. congruence.
  - intros h' x. rewrite lookup_delete. case_decide; [done|].
    apply (inv_timers s HI).
  - intros p Hp. rewrite (settle_count_ext p _ s) by done.
    destruct (inv_settled s HI p Hp) as [[Ho Hc]|[Ho Hc]]; [left|right];
      (split; [|done]); unfold outstanding in *; simpl; done.
  - intros p Hp. rewrite (settle_count_ext p _ s) by done.
    by apply (inv_unborn s HI).
Qed.

Lemma Inv_timerFires s h : Inv s → Inv (timerFires h s).
Proof.
  intros HI. unfold timerFires.
  destruct (timers s !! h) as [[id d]|] eqn:Hh; [|done].
  unfold registerError. simpl.
  destruct (pending s !! id) as [m|] eqn:Hm.
  - (* the timer of a pending request: clearing it twice is clearing it once *)
    destruct (inv_pending s HI id m Hm) as (_ & _ & Htm).
    pose proof (Inv_release_settle s id m (Rejected (Some TimedOut)) HI Hm) as HI'.
    unfold releaseId in *. simpl. rewrite Hm in *. simpl in *.
    destruct HI' as [I1 I2 I3 I4 I5]. simpl in *.
    split; simpl; try done.
    + intros id' m' Hm'. destruct (I2 id' m' Hm') as (? & ? & Ht').
      split; [done|]. split; [done|].
      rewrite lookup_delete in Ht'. case_decide; [done|].
      rewrite lookup_delete_ne by done.
      rewrite lookup_delete_ne; [done|].
      intros Heq. rewrite <- Heq in Ht'. rewrite Hh in Ht'.
      injection Ht' as -> _.
      rewrite lookup_delete_eq in Hm'. done.
    + intros h' x. rewrite !lookup_delete. repeat case_decide; try done.
      apply (inv_timers s HI).
  - by eapply Inv_clear_fired.
Qed.

Lemma Inv_step s c : Inv s → Inv (step c s).
Proof.
  intros HI. destruct c; unfold step.
  - by apply Inv_prepareRequest.
  - by apply Inv_registerReply.
  - by apply Inv_registerError.
  - by apply Inv_timerFires.
Qed.

Lemma Inv_run cs s : Inv s → Inv (run cs s).
Proof.
  revert s. induction cs as [|c cs IH]; intros s HI; simpl; [done|].
  apply IH. by apply Inv_step.
Qed.

(** The counter never decreases, and every id handed out lies between its
    value before and its value after. *)
Lemma idCounter_step c s : (idCounter s ≤ idCounter (step c s))%N.
Proof.
  destruct c; simpl.
  - lia.
  - unfold registerReply, releaseId. destruct (pending s !! id); simpl; lia.
  - unfold registerError, releaseId. destruct (pending s !! id); simpl; lia.
  - unfold timerFires. destruct (timers s !! handle) as [[id d]|]; [|lia].
    unfold registerError, releaseId. simpl.
    destruct (pending s !! id); simpl; lia.
Qed.

Lemma ids_sorted cs s :
  StronglySorted N.lt (ids cs s) ∧ Forall (λ i, (idCounter s ≤ i)%N) (ids cs s).
Proof.
  revert s. induction cs as [|c cs IH]; intros s; simpl.
  - split; constructor.
  - destruct (IH (step c s)) as [Hs Hf].
    pose proof (idCounter_step c s) as Hle.
    assert (Hf' : Forall (λ i, (idCounter s ≤ i)%N) (ids cs (step c s))).
    { eapply Forall_impl; [exact Hf|]. simpl. intros; lia. }
    destruct c; simpl; try (split; assumption).
    split.
    + constructor; [done|].
      eapply Forall_impl; [exact Hf|]. simpl. intros; lia.
    + constructor; [lia|done].
Qed.

Lemma defaultTimeout_step c s : defaultTimeout (step c s) = defaultTimeout s.
Proof.
  destruct c; simpl; try done.
  - unfold registerReply, releaseId. by destruct (pending s !! id).
  - unfold registerError, releaseId. by destruct (pending s !! id).
  - unfold timerFires. destruct (timers s !! handle) as [[id d]|]; [|done].
    unfold registerError, releaseId. simpl. by destruct (pending s !! id).
Qed.

Lemma defaultTimeout_run cs s : defaultTimeout (run cs s) = defaultTimeout s.
Proof.
  revert s. induction cs as [|c cs IH]; intros s; simpl; [done|].
  by rewrite IH, defaultTimeout_step.
Qed.

(** The timer of a pending request, when it fires, rejects its promise. *)
Lemma timerFires_pending s id m :
  Inv s → pending s !! id = Some m →
  settled (timerFires (timeout_handle m) s) =
    (promise m, Rejected (Some TimedOut)) :: settled s ∧
  pending (timerFires (timeout_handle m) s) !! id = None.
Proof.
  intros HI Hm. destruct (inv_pending s HI id m Hm) as (_ & _ & Ht).
  unfold timerFires. rewrite Ht. unfold registerError, releaseId. simpl.
  rewrite Hm. simpl. by rewrite lookup_delete_eq.
Qed.

(** C3: over every finite sequence of calls of prepareRequest, registerReply
    and registerError and of timer firings, starting from a new helper: each
    promise handed out so far has been settled exactly once when it is no
    longer pending, and not at all while it is pending; the ids handed out
    are strictly increasing, and the id the next prepareRequest hands out is
    not outstanding; registerReply and registerError on an id that is not
    pending leave everything as it is; and a request that is still pending
    has a timer armed with the configured timeout which, when it fires,
    rejects the promise of that request with the error 'Timed out'. *)
Theorem request_reply_exactly_once options cs :
  let s := run cs (new options) in
  (∀ p, (p < nextPromise s)%nat →
     (outstanding p s ∧ settle_count p s = 0%nat) ∨
     (¬ outstanding p s ∧ settle_count p s = 1%nat)) ∧
  StronglySorted N.lt (ids cs (new options)) ∧
  pending s !! fst (fst (prepareRequest s)) = None ∧
  (∀ id, pending s !! id = None →
     (∀ r, registerReply id r s = s) ∧ (∀ e, registerError id e s = s)) ∧
  (∀ id m, pending s !! id = Some m →
     timers s !! timeout_handle m =
       Some (id, js_or (timeout options) (JsInt 30000)) ∧
     settled (timerFires (timeout_handle m) s) =
       (promise m, Rejected (Some TimedOut)) :: settled s ∧
     pending (timerFires (timeout_handle m) s) !! id = None).
Proof.
  intros s.
  assert (HI : Inv s) by apply Inv_run, Inv_new.
  split; [apply (inv_settled s HI)|].
  split; [apply ids_sorted|].
  split.
  { simpl. destruct (pending s !! idCounter s) as [m|] eqn:Hm; [|done].
    destruct (inv_pending s HI _ m Hm) as (? & _). lia. }
  split.
  { intros id Hid. unfold registerReply, registerError. by rewrite Hid. }
  intros id m Hm. split.
  - destruct (inv_pending s HI id m Hm) as (_ & _ & ->).
    unfold s. by rewrite defaultTimeout_run.
  - by apply timerFires_pending.
Qed.

(** C10: a helper constructed with [timeout: 0], and likewise with NaN or
    with no timeout at all, uses 30000 ms; the effective timeout is always
    [options.timeout || 30000], so that, whatever the options are, it is
    never 0: no immediate timeout can be configured through them. *)
Theorem zero_timeout_is_default :
  defaultTimeout (new {| timeout := Some (JsInt 0) |} : t Result) = JsInt 30000 ∧
  defaultTimeout (new {| timeout := Some JsNaN |} : t Result) = JsInt 30000 ∧
  defaultTimeout (new {| timeout := None |} : t Result) = JsInt 30000 ∧
  (∀ options, defaultTimeout (new options : t Result) =
     js_or (timeout options) (JsInt 30000)) ∧
  (∀ options, defaultTimeout (new options : t Result) ≠ JsInt 0).
Proof.
  repeat split; try reflexivity.
  intros [[[z|]|]]; simpl; try done.
  destruct (Z.eqb_spec z 0); simpl; congruence.
Qed.

End Facts.


Example sample_run_ids :
  ids sample_run (new {| timeout := None |}) = [0%N; 1%N].
Proof. reflexivity. Qed.

Example sample_run_settled :
  settled (run sample_run (new {| timeout := None |})) =
    [(1%nat, Rejected (Some TimedOut)); (0%nat, Resolved "a")].
Proof. vm_compute. reflexivity. Qed.


End RequestReplyHelperFacts.

(* ================================================================== *)
(** * Properties of AbstractPeer *)
(* ================================================================== *)
Module AbstractPeerFacts.
Import AbstractPeer.

(** Unfolding the monad and the primitive operations of the runtime. *)
Ltac unfold_M :=
  unfold exec, effects, mbind, mret, M_bind, M_ret, this, assign, emit,
    Date_now, withRuntime in *.

Lemma lastn_snoc {A} (l : list A) x :
  (if decide (5 < length (lastn 6 l))%nat then drop 1 (lastn 6 l) else lastn 6 l) ++ [x]
  = lastn 6 (l ++ [x]).
Proof.
  unfold lastn. rewrite length_drop, length_app. simpl.
  case_decide as Hlen.
  - rewrite drop_drop.
    replace (length l + 1 - 6)%nat with (length l - 6 + 1)%nat by lia.
    rewrite drop_app_le by lia. done.
  - replace (length l - 6)%nat with 0%nat by lia.
    replace (length l + 1 - 6)%nat with 0%nat by lia. done.
Qed.

Lemma latencyCalls_lastn cs w l :
  latencyValues (peer w) = lastn 6 l →
  latencyValues (peer (exec (latencyCalls cs) w)) =
    lastn 6 (l ++ samples (lastLatencyTime (peer w)) cs).
Proof.
  revert w l. induction cs as [|c cs IH]; intros w l Hl.
  - simpl. by rewrite app_nil_r.
  - destruct w as [p r]. destruct c as [time|time].
    + specialize (IH (exec (latencyCall (LatencySend time)) {| peer := p; runtime := r |}) l).
      simpl in *. unfold_M. simpl in *. apply IH. done.
    + specialize (IH (exec (latencyCall (LatencyReply time)) {| peer := p; runtime := r |})
                     (l ++ [time - lastLatencyTime p])).
      simpl in *. unfold_M. unfold registerLatencyReply in *. unfold_M. simpl in *.
      rewrite <- app_assoc in IH. simpl in IH.
      destruct (decide (5 < length (latencyValues p))%nat) as [Hlen|Hlen];
        simpl in *; apply IH; rewrite Hl in *; rewrite <- lastn_snoc;
        (destruct (decide (5 < length (lastn 6 l))%nat); [done || lia | done || lia]).
Qed.

Lemma lastn_length {A} n (l : list A) : (length (lastn n l) ≤ n)%nat.
Proof. unfold lastn. rewrite length_drop. lia. Qed.

(** C8: on a peer fresh from its constructor, after any sequence of calls of
    registerLatencySend and registerLatencyReply, the stored samples are the
    6 most recent of the samples recorded (so at most 6, the oldest gone
    when a 7th arrives); the getter latency throws 'Latency unknown' when
    nothing was recorded, and otherwise returns the floor of the mean of
    the stored samples. *)
Theorem latency_six_most_recent parent w cs :
  let w' := exec (new parent;; latencyCalls cs) w in
  let recorded := samples (now (runtime w)) cs in
  let stored := latencyValues (peer w') in
  stored = lastn 6 recorded ∧
  (length stored ≤ 6)%nat ∧
  match latency (peer w') with
  | inl e => recorded = [] ∧ e = {| message := "Latency unknown" |}
  | inr q =>
      recorded ≠ [] ∧
      q = foldl Z.add 0 stored `div` Z.of_nat (length stored) ∧
      Z.of_nat (length stored) * q ≤ foldl Z.add 0 stored
        < Z.of_nat (length stored) * (q + 1)
  end.
Proof.
  intros w' recorded stored.
  assert (Hs : stored = lastn 6 recorded).
  { unfold stored, w', recorded.
    pose proof (latencyCalls_lastn cs (exec (new parent) w) []) as H.
    destruct w as [p r]. simpl in *. unfold_M. simpl in *.
    apply H. done. }
  split; [done|]. split; [rewrite Hs; apply lastn_length|].
  unfold latency. fold stored.
  destruct (decide (length stored = 0%nat)) as [Hz|Hnz].
  - split; [|done]. rewrite Hs in Hz. unfold lastn in Hz.
    rewrite length_drop in Hz. destruct recorded; [done|simpl in Hz; lia].
  - split. { intros Hr. rewrite Hs, Hr in Hnz. done. }
    split; [done|].
    assert (Hpos : 0 < Z.of_nat (length stored)) by lia.
    split.
    + by apply Z.mul_div_le.
    + rewrite Z.add_1_r. by apply Z.mul_succ_div_gt.
Qed.

(** Seven replies, 10 ms apart, after a send at time 0: the first sample is
    gone, and the latency is the floor of 270 / 6. *)
Example seven_samples parent w :
  let w' := exec (new parent;;
                  latencyCalls (LatencySend 0 ::
                    map LatencyReply [10; 20; 30; 40; 50; 60; 70])) w in
  latencyValues (peer w') = [20; 30; 40; 50; 60; 70] ∧
  latency (peer w') = inr 45.
Proof. destruct w as [p r]. split; reflexivity. Qed.

(** ** Frames out of sequence *)

(** What a method adds to a trace that it only appends to. *)
Lemma drop_trace (t es : list Effect) : drop (length t) (t ++ es) = es.
Proof. apply drop_app_length. Qed.

(** Name every field of a world. *)
Ltac destruct_world w :=
  destruct w as [[par i st llt lv ht ps pc ap cf sf] [nw fd tm nt nf tr]].

Ltac effects_simpl :=
  unfold effects; unfold_M; simpl;
  rewrite <- ?app_assoc; rewrite ?drop_trace; simpl.

Lemma abort_effects error reason w :
  effects (abort error reason) w =
    [RequestDisconnect (default DisconnectReason.NegotiationFailed reason) error] ∧
  peer (exec (abort error reason) w) = peer w.
Proof.
  destruct w as [p r]. unfold abort, requestDisconnect, clearTimeout.
  destruct (helloTimeout p) eqn:Hh; effects_simpl; rewrite Hh; simpl;
    unfold_M; simpl; rewrite drop_trace; done.
Qed.

Lemma receiveData_unexpected w msg :
  negotiationFrame (messageType msg) = true →
  listed (state (peer w)) (messageType msg) = false →
  exec (receiveData msg) w = exec (abort None None) w.
Proof.
  destruct w as [p r]. intros Hn Hl. unfold receiveData. unfold_M.
  simpl in *.
  destruct msg; simpl in Hn; try discriminate Hn;
    destruct (state p); simpl in Hl; try discriminate Hl; reflexivity.
Qed.

(** C1, as the code has it: a frame of a negotiation type (Hello, Select,
    Auth, AuthData, Begin, Ok, Reject) that arrives in a state for which the
    negotiation sequences do not list it aborts the peer with reason
    NegotiationFailed, and changes no field of the peer.  The other frame
    types never abort, whatever the state: Bye requests a disconnect with
    reason Manual, Ping registers a heartbeat and is answered by Pong, and
    every other frame (Pong, Data, DataAck, DataReject, NodeSummary,
    NodeRequest, NodeDetails) is handed to the listeners of the data
    event. *)
Theorem receiveData_out_of_sequence w msg :
  listed (state (peer w)) (messageType msg) = false →
  if negotiationFrame (messageType msg) then
    effects (receiveData msg) w =
      [RequestDisconnect DisconnectReason.NegotiationFailed None] ∧
    peer (exec (receiveData msg) w) = peer w
  else
    match msg with
    | MBye =>
        effects (receiveData msg) w =
          [RequestDisconnect DisconnectReason.Manual None] ∧
        peer (exec (receiveData msg) w) = peer w
    | MPing =>
        effects (receiveData msg) w = [RegisterHeartbeat; Send MPong CatchDebug] ∧
        state (peer (exec (receiveData msg) w)) = state (peer w)
    | _ =>
        effects (receiveData msg) w = [DataEvent msg] ∧
        peer (exec (receiveData msg) w) = peer w
    end.
Proof.
  intros Hl. destruct (negotiationFrame (messageType msg)) eqn:Hn.
  - unfold effects. rewrite (receiveData_unexpected w msg Hn Hl).
    apply (abort_effects None None w).
  - destruct w as [p r].
    destruct msg; simpl in Hn; try discriminate Hn;
      unfold receiveData, requestDisconnect, receivePing, registerLatencyReply, send;
      effects_simpl; try done.
    destruct (decide (5 < length (latencyValues p))%nat); simpl;
      rewrite <- ?app_assoc; rewrite drop_trace; done.
Qed.

Lemma receiveData_out_of_sequence_witness :
  effects (receiveData sampleHello) (sampleWorld []) =
    [RequestDisconnect DisconnectReason.NegotiationFailed None] ∧
  peer (exec (receiveData sampleHello) (sampleWorld [])) = peer (sampleWorld []).
Proof. apply (receiveData_out_of_sequence (sampleWorld []) sampleHello). reflexivity. Defined.

(** C1 as stated fails: Data in state Active, and Ping in state Initial, are
    not among the listed transitions, and neither aborts the peer. *)
Lemma unlisted_frames_without_abort :
  let active := exec (forceConnect [x02]%byte) (sampleWorld []) in
  state (peer active) = Active ∧
  listed Active (messageType sampleData) = false ∧
  effects (receiveData sampleData) active = [DataEvent sampleData] ∧
  disconnects (effects (receiveData sampleData) active) = [] ∧
  listed (state (peer (sampleWorld []))) (messageType MPing) = false ∧
  disconnects (effects (receiveData MPing) (sampleWorld [])) = [].
Proof. vm_compute. repeat split. Qed.

(** ** The end of the client sequence *)

Lemma switchToActive_effects w :
  effects switchToActive w =
    DidConnect ::
    (if authClientFlow (peer w) is Some f then [DestroyFlow f] else []) ++
    (if authServerFlow (peer w) is Some f then [DestroyFlow f] else []) ++
    [ConnectEvent] ∧
  state (peer (exec switchToActive w)) = Active.
Proof.
  destruct_world w.
  unfold switchToActive, clearTimeout, setInterval, arm.
  destruct ht, cf, sf; effects_simpl; done.
Qed.




(** ** Replies of the server flow *)

(** C6, as the code has it: an Ok reply of the server flow sends Ok and
    moves to WaitingForBegin; a Reject reply sends Reject and leaves the
    state WaitingForAuth; a Data reply that carries a buffer, of whatever
    length, sends it as AuthData and moves to WaitingForAuthData; a Data
    reply that carries no data sends no frame and aborts the peer with
    reason NegotiationFailed: the negotiation timeout is cleared, the
    disconnect is requested, and the promise handed back is a rejected one,
    on which the caller aborts once more. *)
Theorem handleSendingAuthReply_replies w reply :
  let w' := exec (handleSendingAuthReply reply) w in
  let es := effects (handleSendingAuthReply reply) w in
  match reply with
  | AuthServerReply.Ok =>
      es = [Send MOk CatchAbort] ∧ state (peer w') = WaitingForBegin
  | AuthServerReply.Reject =>
      es = [Send MReject CatchAbort] ∧ state (peer w') = WaitingForAuth
  | AuthServerReply.Data (Some d) =>
      es = [Send (MAuthData {| AuthDataMessage.data := d |}) CatchAbort] ∧
      state (peer w') = WaitingForAuthData
  | AuthServerReply.Data None =>
      es = [RequestDisconnect DisconnectReason.NegotiationFailed None] ∧
      fst (handleSendingAuthReply reply w) = false ∧
      (∀ h, helloTimeout (peer w) = Some h → timers (runtime w') !! h = None) ∧
      effects (serverReply_resume (inr reply)) w =
        [RequestDisconnect DisconnectReason.NegotiationFailed None;
         RequestDisconnect DisconnectReason.NegotiationFailed None]
  end.
Proof.
  destruct_world w.
  destruct reply as [| |[d|]]; simpl;
    unfold serverReply_resume, handleSendingAuthReply, registerLatencySend, send,
      abort, requestDisconnect, clearTimeout;
    try destruct ht; effects_simpl; try done.
  repeat split; try done. intros h [= <-]. apply lookup_delete_eq.
Qed.


(** C6 as stated fails on its last part: a Data reply whose buffer is empty
    does not abort; the empty buffer is sent as AuthData and the peer waits
    in WaitingForAuthData. *)
Lemma empty_data_reply_is_sent :
  let reply := AuthServerReply.Data (Some []) in
  state (peer sampleServer) = WaitingForAuth ∧
  effects (serverReply_resume (inr reply)) sampleServer =
    [Send (MAuthData {| AuthDataMessage.data := [] |}) CatchAbort] ∧
  disconnects (effects (serverReply_resume (inr reply)) sampleServer) = [] ∧
  state (peer (exec (serverReply_resume (inr reply)) sampleServer)) =
    WaitingForAuthData.
Proof. vm_compute. repeat split. Qed.

(** ** Client authentication *)

Lemma exec_bind {A B} (m : M A) (k : M B) w :
  exec (m;; k) w = exec k (exec m w).
Proof. unfold exec, mbind, M_bind. by destruct (m w). Qed.

Lemma attempts_app es1 es2 : attempts (es1 ++ es2) = attempts es1 ++ attempts es2.
Proof. apply omap_app. Qed.

Lemma disconnects_app es1 es2 :
  disconnects (es1 ++ es2) = disconnects es1 ++ disconnects es2.
Proof. apply omap_app. Qed.

(** The loop takes the first usable provider and leaves the ones after it. *)
Lemma pick_usable l :
  fst (pick l) = head (usable l) ∧ usable (snd (pick l)) = tail (usable l).
Proof.
  induction l as [|p l IH]; simpl; [done|].
  destruct (AuthProvider.createClientFlow p) eqn:Hp; simpl; [done|].
  exact IH.
Qed.

Lemma head_usable l p : head (usable l) = Some p → AuthProvider.createClientFlow p = true.
Proof.
  intros H. assert (Hin : In p (usable l)).
  { destruct (usable l); simpl in H; [done|]. injection H as ->. by left. }
  unfold usable in Hin. apply filter_In in Hin. tauto.
Qed.

(** One call of [sendInitialAuth]: it tries the first usable provider that
    is left, or requests a disconnect with AuthReject when there is none. *)
Lemma sendInitialAuth_next w l :
  authProviders (peer w) = Some l →
  ∃ l' es,
    authProviders (peer (exec sendInitialAuth w)) = Some l' ∧
    usable l' = tail (usable l) ∧
    state (peer (exec sendInitialAuth w)) = state (peer w) ∧
    trace (runtime (exec sendInitialAuth w)) = trace (runtime w) ++ es ∧
    attempts es = option_list (head (usable l)) ∧
    disconnects es =
      (if head (usable l) is Some _ then [] else [DisconnectReason.AuthReject]).
Proof.
  destruct_world w. simpl. intros ->.
  destruct (pick_usable l) as [Hh Ht].
  unfold sendInitialAuth, pickNextAuthProvider. unfold_M. simpl.
  destruct (pick l) as [[p|] rest] eqn:Hp; simpl in *.
  - rewrite <- Hh. rewrite (head_usable l p) by done.
    exists rest. eexists. 
    unfold newFlow, queueNegotiationTimeout, setTimeout, arm, clearTimeout.
    destruct ht; unfold_M; simpl; rewrite <- ?app_assoc; simpl;
      (split; [done|]); (split; [done|]); (split; [done|]);
      (split; [reflexivity|]); done.
  - rewrite <- Hh. exists rest. eexists.
    unfold abort, requestDisconnect, clearTimeout.
    destruct ht; unfold_M; simpl;
      (split; [done|]); (split; [done|]); (split; [done|]);
      (split; [reflexivity|]); done.
Qed.

Lemma rejects_in_order k : ∀ w l,
  state (peer w) = WaitingForAuthAck →
  authProviders (peer w) = Some l →
  (k ≤ S (length (usable l)))%nat →
  ∃ es,
    trace (runtime (exec (rejects k) w)) = trace (runtime w) ++ es ∧
    attempts es = take k (usable l) ∧
    disconnects es =
      (if decide (k = S (length (usable l))) then [DisconnectReason.AuthReject] else []).
Proof.
  induction k as [|k IH]; intros w l Hst Hl Hk.
  - exists []. simpl. unfold exec. simpl. rewrite app_nil_r. done.
  - simpl rejects. rewrite exec_bind.
    assert (Hstep : exec (receiveData MReject) w = exec sendInitialAuth w).
    { destruct w as [p r]. simpl in Hst. unfold receiveData, receiveAuthReject.
      unfold exec, mbind, M_bind, this. simpl. rewrite Hst. reflexivity. }
    rewrite Hstep.
    destruct (sendInitialAuth_next w l Hl) as (l' & es1 & Hl' & Hu & Hst' & Htr & Hat & Hdc).
    destruct (usable l) as [|p u] eqn:Hus; simpl in *.
    + assert (k = 0%nat) as -> by lia. exists es1. simpl.
      unfold exec at 1. simpl. fold (exec sendInitialAuth w). done.
    + destruct (IH (exec sendInitialAuth w) l') as (es2 & Htr2 & Hat2 & Hdc2);
        [congruence|done|rewrite Hu; lia|].
      exists (es1 ++ es2). rewrite Htr2, Htr, app_assoc. split; [done|].
      rewrite attempts_app, disconnects_app, Hat, Hdc, Hat2, Hdc2, Hu. simpl.
      split; [done|].
      repeat case_decide; try done; lia.
Qed.

Lemma authFrames_app es1 es2 :
  authFrames (es1 ++ es2) = authFrames es1 ++ authFrames es2.
Proof. apply omap_app. Qed.

(** One call of [sendInitialAuth], effect by effect. *)
Lemma sendInitialAuth_attempt w l :
  authProviders (peer w) = Some l →
  ∃ l',
    authProviders (peer (exec sendInitialAuth w)) = Some l' ∧
    usable l' = tail (usable l) ∧
    state (peer (exec sendInitialAuth w)) = state (peer w) ∧
    trace (runtime (exec sendInitialAuth w)) = trace (runtime w) ++
      (if head (usable l) is Some p
       then [CreateClientFlow p (nextFlow (runtime w));
             Await (InitialMessage p (nextFlow (runtime w)))]
       else [RequestDisconnect DisconnectReason.AuthReject None]).
Proof.
  destruct_world w. simpl. intros ->.
  destruct (pick_usable l) as [Hh Ht].
  unfold sendInitialAuth, pickNextAuthProvider. unfold_M. simpl.
  destruct (pick l) as [[p|] rest] eqn:Hp; simpl in *.
  - rewrite <- Hh. rewrite (head_usable l p) by done.
    exists rest.
    unfold newFlow, queueNegotiationTimeout, setTimeout, arm, clearTimeout.
    destruct ht; unfold_M; simpl; rewrite <- ?app_assoc; simpl; done.
  - rewrite <- Hh. exists rest.
    unfold abort, requestDisconnect, clearTimeout.
    destruct ht; unfold_M; simpl; done.
Qed.

(** One rejected attempt: the initial message settles, the Auth frame of
    the provider under way goes out, Reject comes back, and the next
    provider is tried. *)
Lemma rejected_attempt w l p msg :
  state (peer w) = WaitingForAuthAck →
  authProviders (peer w) = Some l →
  awaitedInitialMessage w = Some p →
  let w' := exec (initialMessageSettles (inr msg);; receiveData MReject) w in
  ∃ l' f,
    authProviders (peer w') = Some l' ∧
    usable l' = tail (usable l) ∧
    state (peer w') = WaitingForAuthAck ∧
    trace (runtime w') = trace (runtime w) ++
      Send (MAuth {| AuthMessage.method := AuthProvider.id p;
                     AuthMessage.data := msg |}) CatchAbort ::
      (if head (usable l) is Some q
       then [CreateClientFlow q f; Await (InitialMessage q f)]
       else [RequestDisconnect DisconnectReason.AuthReject None]).
Proof.
  intros Hst Hl Hp w'.
  set (w1 := exec (send (MAuth {| AuthMessage.method := AuthProvider.id p;
                                  AuthMessage.data := msg |}) CatchAbort) w).
  assert (H1 : state (peer w1) = WaitingForAuthAck ∧ authProviders (peer w1) = Some l ∧
               trace (runtime w1) = trace (runtime w) ++
                 [Send (MAuth {| AuthMessage.method := AuthProvider.id p;
                                 AuthMessage.data := msg |}) CatchAbort]).
  { unfold w1. destruct_world w. simpl in *. unfold send. unfold_M. simpl. done. }
  destruct H1 as (Hst1 & Hl1 & Htr1).
  assert (Hw' : w' = exec sendInitialAuth w1).
  { unfold w'. rewrite exec_bind.
    assert (exec (initialMessageSettles (inr msg)) w = w1) as ->.
    { unfold exec at 1. unfold initialMessageSettles. rewrite Hp. done. }
    destruct w1 as [p1 r1]. simpl in Hst1. unfold receiveData, receiveAuthReject.
    unfold exec, mbind, M_bind, this. simpl. rewrite Hst1. reflexivity. }
  destruct (sendInitialAuth_attempt w1 l Hl1) as (l' & Hl' & Hu & Hs' & Htr').
  exists l', (nextFlow (runtime w1)). rewrite Hw'.
  split; [done|]. split; [done|]. split; [congruence|].
  rewrite Htr', Htr1, <- app_assoc. done.
Qed.

Lemma awaited_after es p f :
  last (es ++ [CreateClientFlow p f; Await (InitialMessage p f)]) =
    Some (Await (InitialMessage p f)).
Proof.
  change [CreateClientFlow p f; Await (InitialMessage p f)]
    with ([CreateClientFlow p f] ++ [Await (InitialMessage p f)]).
  rewrite app_assoc. apply last_snoc.
Qed.

Lemma rejectedAttempts_in_order msgs : ∀ w l p,
  state (peer w) = WaitingForAuthAck →
  authProviders (peer w) = Some l →
  awaitedInitialMessage w = Some p →
  (length msgs ≤ S (length (usable l)))%nat →
  ∃ es,
    trace (runtime (exec (rejectedAttempts msgs) w)) = trace (runtime w) ++ es ∧
    attempts es = take (length msgs) (usable l) ∧
    authFrames es = zip (AuthProvider.id <$> p :: usable l) msgs ∧
    disconnects es =
      (if decide (length msgs = S (length (usable l)))
       then [DisconnectReason.AuthReject] else []) ∧
    state (peer (exec (rejectedAttempts msgs) w)) = WaitingForAuthAck ∧
    awaitedInitialMessage (exec (rejectedAttempts msgs) w) =
      (p :: usable l) !! length msgs.
Proof.
  induction msgs as [|msg rest IH]; intros w l p Hst Hl Hp Hk.
  - exists []. simpl. unfold exec. simpl. rewrite app_nil_r. done.
  - simpl rejectedAttempts.
    assert (Hsplit : exec (initialMessageSettles (inr msg);; receiveData MReject;;
                           rejectedAttempts rest) w =
                     exec (rejectedAttempts rest)
                       (exec (initialMessageSettles (inr msg);; receiveData MReject) w)).
    { rewrite !exec_bind. done. }
    rewrite Hsplit.
    destruct (rejected_attempt w l p msg Hst Hl Hp) as (l' & f & Hl' & Hu & Hst' & Htr).
    set (w' := exec (initialMessageSettles (inr msg);; receiveData MReject) w) in *.
    destruct (usable l) as [|q u] eqn:Hus; simpl in *.
    + assert (rest = []) as -> by (destruct rest; [done|simpl in Hk; lia]).
      eexists. simpl. unfold exec at 1 2 3. simpl. fold w'.
      split; [exact Htr|]. split; [done|]. split; [done|]. split; [done|].
      split; [done|].
      unfold awaitedInitialMessage. rewrite Htr, last_app_cons. done.
    + assert (Hp' : awaitedInitialMessage w' = Some q).
      { unfold awaitedInitialMessage. rewrite Htr, last_app_cons. done. }
      destruct (IH w' l' q Hst' Hl' Hp') as (es2 & Htr2 & Hat2 & Haf2 & Hdc2 & Hst2 & Haw2);
        [rewrite Hu; lia|].
      eexists. rewrite Htr2, Htr, <- app_assoc. split; [reflexivity|].
      rewrite Hu in *.
      split; [simpl; by rewrite Hat2|].
      split; [simpl; by rewrite Haf2|].
      split.
      { simpl. rewrite Hdc2. repeat case_decide; try done; lia. }
      split; [done|]. exact Haw2.
Qed.

(** C5: a client that receives Ok in WaitingForSelectAck and whose attempts
    are then rejected one after the other (each time the initial message of
    the attempt under way settles, which sends the Auth frame, and Reject
    comes back), as many as the list [msgs] has messages and at most as
    many as there are configured providers that can create a client flow:
    it has created its client flows with exactly the first of those
    providers, in the configured order, skipping the providers that cannot
    create one, one more than were rejected; the Auth frames it has sent
    carry, in that order, the ids of those providers and the initial
    messages; the attempt under way is the one for the next such provider;
    and it has requested a disconnect, with reason AuthReject, exactly when
    no provider was left after the last Reject (or none could create a
    client flow at all). *)
Theorem client_auth_in_configured_order w msgs :
  state (peer w) = WaitingForSelectAck →
  let configured :=
    Authentication.providers (WithNetwork.authentication (parent (peer w))) in
  let k := length msgs in
  let es := effects (receiveData MOk;; rejectedAttempts msgs) w in
  let w' := exec (receiveData MOk;; rejectedAttempts msgs) w in
  (k ≤ length (usable configured))%nat →
  attempts es = take (S k) (usable configured) ∧
  authFrames es = zip (AuthProvider.id <$> usable configured) msgs ∧
  awaitedInitialMessage w' = usable configured !! k ∧
  disconnects es =
    (if decide (k = length (usable configured))
     then [DisconnectReason.AuthReject] else []) ∧
  state (peer w') = WaitingForAuthAck.
Proof.
  intros Hst configured k es w' Hk. subst k.
  (* Ok in WaitingForSelectAck: the providers are assigned, then the first
     attempt is made. *)
  set (w0 := exec (registerLatencyReply;;
                   assign (set_state WaitingForAuthAck);;
                   p ← this parent;
                   assign (set_authProviders
                     (Some (Authentication.providers (WithNetwork.authentication p))))) w).
  assert (Hok : exec (receiveData MOk) w = exec sendInitialAuth w0).
  { unfold w0. destruct_world w. simpl in Hst. subst st.
    unfold receiveData, receiveSelectOK, registerLatencyReply. unfold_M. simpl.
    destruct (decide (5 < length lv)%nat); reflexivity. }
  assert (H0 : state (peer w0) = WaitingForAuthAck ∧
               authProviders (peer w0) = Some configured ∧
               trace (runtime w0) = trace (runtime w)).
  { unfold w0, configured. destruct_world w.
    unfold registerLatencyReply. unfold_M. simpl.
    destruct (decide (5 < length lv)%nat); done. }
  destruct H0 as (Hst0 & Hl0 & Htr0).
  destruct (sendInitialAuth_attempt w0 configured Hl0) as (l' & Hl' & Hu & Hst' & Htr).
  set (w1 := exec sendInitialAuth w0) in *.
  assert (Hw' : w' = exec (rejectedAttempts msgs) w1).
  { unfold w'. by rewrite exec_bind, Hok. }
  unfold es, effects. fold w'. rewrite Hw'.
  destruct (usable configured) as [|p u] eqn:Hus; simpl in Htr, Hu.
  - assert (msgs = []) as -> by (destruct msgs; [done|simpl in Hk; lia]).
    simpl. unfold exec at 1 2 3 4 5. simpl.
    rewrite Htr, Htr0, drop_trace. simpl.
    split; [done|]. split; [done|].
    split.
    { unfold awaitedInitialMessage. rewrite Htr, last_snoc. done. }
    split; [done|]. congruence.
  - assert (Hp : awaitedInitialMessage w1 = Some p).
    { unfold awaitedInitialMessage. rewrite Htr, awaited_after. done. }
    destruct (rejectedAttempts_in_order msgs w1 l' p)
      as (es2 & Htr2 & Hat2 & Haf2 & Hdc2 & Hst2 & Haw2);
      [congruence|done|done|rewrite Hu; simpl in Hk; lia|].
    rewrite Htr2, Htr, Htr0, <- app_assoc, drop_trace.
    rewrite Hu in *.
    split.
    { rewrite attempts_app, Hat2. done. }
    split.
    { rewrite authFrames_app, Haf2. done. }
    split; [exact Haw2|].
    split.
    { rewrite disconnects_app, Hdc2. simpl. repeat case_decide; try done; lia. }
    exact Hst2.
Qed.

Lemma client_auth_in_configured_order_witness :
  let configured :=
    Authentication.providers (WithNetwork.authentication (parent (peer sampleHelloed))) in
  let msgs := [[x2a]; [x2b]]%byte in
  let es := effects (receiveData MOk;; rejectedAttempts msgs) sampleHelloed in
  state (peer sampleHelloed) = WaitingForSelectAck ∧
  (length msgs ≤ length (usable configured))%nat ∧
  attempts es = take 3 (usable configured) ∧
  authFrames es = zip (AuthProvider.id <$> usable configured) msgs ∧
  disconnects es =
    (if decide (length msgs = length (usable configured))
     then [DisconnectReason.AuthReject] else []).
Proof.
  assert (H1 : state (peer sampleHelloed) = WaitingForSelectAck) by reflexivity.
  assert (H2 : (length [[x2a]; [x2b]]%byte ≤ length (usable (Authentication.providers
            (WithNetwork.authentication (parent (peer sampleHelloed))))))%nat)
    by (vm_compute; lia).
  pose proof (client_auth_in_configured_order sampleHelloed [[x2a]; [x2b]]%byte H1 H2)
    as (Ha & Hf & _ & Hd & _).
  split; [exact H1|]. split; [exact H2|]. split; [exact Ha|].
  split; [exact Hf|exact Hd].
Defined.

(** The sample, evaluated: both usable providers are tried in order, each
    with its Auth frame, and the second Reject leaves none. *)
Example client_auth_frames_sample :
  let es := effects (receiveData MOk;; rejectedAttempts [[x2a]; [x2b]]%byte)
                    sampleHelloed in
  attempts es = [sampleProvider "secret" true true;
                 sampleProvider "anonymous" true false] ∧
  authFrames es = [("secret", [x2a]%byte); ("anonymous", [x2b]%byte)] ∧
  disconnects es = [DisconnectReason.AuthReject].
Proof. vm_compute. done. Qed.

Example client_auth_sample :
  let es := effects (receiveData MOk;; rejects 2) sampleHelloed in
  attempts es = [sampleProvider "secret" true true;
                 sampleProvider "anonymous" true false] ∧
  disconnects es = [DisconnectReason.AuthReject].
Proof. vm_compute. done. Qed.

End AbstractPeerFacts.

(* ================================================================== *)
(** * Properties of Topology *)
(* ================================================================== *)
Module TopologyFacts.
Import Topology.

Section Facts.
Context {Routes : Type}.
Variable newTopologyNode : Topology.TopologyNode Routes.
Variable removeRouting : Peer.t → TopologyNode Routes → TopologyNode Routes * bool.
Variable updateSelf : list Peer.t → TopologyNode Routes → TopologyNode Routes.
Implicit Types (s : t Routes) (p : Peer.t).

(** C9: when a peer with the same id is already tracked, addPeer leaves the
    topology exactly as it was: the peers, the nodes (the own node and its
    version among them), the queued broadcast and its timer, and the event
    subscriptions held by the runtime, to which nothing is added. *)
Theorem addPeer_tracked_is_ignored p s :
  is_Some (peers s !! Peer.id p) →
  addPeer newTopologyNode updateSelf p s = s.
Proof. intros [current Hc]. unfold addPeer. by rewrite Hc. Qed.

(** ** Node summaries *)


Lemma grown_refl s : grown newTopologyNode ∅ s s.
Proof.
  split; [by destruct s|]. intros k. destruct (nodes s !! k); [done|].
  case_decide; [set_solver|done].
Qed.

Lemma grown_trans ks1 ks2 s s1 s2 :
  grown newTopologyNode ks1 s s1 → grown newTopologyNode ks2 s1 s2 → grown newTopologyNode (ks1 ∪ ks2) s s2.
Proof.
  intros [E1 H1] [E2 H2]. split.
  - rewrite E2 at 1. rewrite E1. done.
  - intros k. rewrite H2, H1. destruct (nodes s !! k); [done|].
    repeat case_decide; try done; set_solver.
Qed.

Lemma grown_localVersion ks s s' id :
  grown newTopologyNode ks s s' → localVersion newTopologyNode s' id = localVersion newTopologyNode s id.
Proof.
  intros [_ H]. unfold localVersion. rewrite H.
  destruct (nodes s !! id); [done|]. by case_decide.
Qed.

Lemma getOrCreate_grown id s :
  version (fst (getOrCreate newTopologyNode id s)) = localVersion newTopologyNode s id ∧
  grown newTopologyNode {[id]} s (snd (getOrCreate newTopologyNode id s)).
Proof.
  unfold getOrCreate, localVersion.
  destruct (nodes s !! id) as [n|] eqn:Hn; simpl.
  - split; [done|]. split; [by destruct s|].
    intros k. destruct (nodes s !! k) eqn:Hk; [done|].
    case_decide; [|done]. set_solver.
  - split; [done|]. split; [done|]. intros k. simpl.
    rewrite lookup_insert. case_decide as Hk.
    + subst k. rewrite Hn. case_decide; [done|set_solver].
    + destruct (nodes s !! k); [done|]. case_decide; [set_solver|done].
Qed.

Lemma compareSummaries_spec summaries : ∀ ids found s,
  ∃ ids' s',
    compareSummaries newTopologyNode summaries ids found s =
      (ids', found ∪ list_to_set (NodeRoutingSummary.id <$> summaries), s') ∧
    grown newTopologyNode (list_to_set (NodeRoutingSummary.id <$> summaries)) s s' ∧
    ∀ id, id ∈ ids' ↔
      id ∈ ids ∨
      ∃ sm, sm ∈ summaries ∧ NodeRoutingSummary.id sm = id ∧
            localVersion newTopologyNode s id < NodeRoutingSummary.version sm.
Proof.
  induction summaries as [|sm rest IH]; intros ids found s.
  - exists ids, s. simpl. split; [f_equal; f_equal; set_solver|].
    split; [apply grown_refl|]. intros id. split; [auto|].
    intros [?|(? & Hin & _)]; [done|]. by apply elem_of_nil in Hin.
  - simpl. destruct (getOrCreate_grown (NodeRoutingSummary.id sm) s) as [Hv Hg].
    destruct (getOrCreate newTopologyNode (NodeRoutingSummary.id sm) s) as [node s1].
    simpl in Hv, Hg.
    destruct (IH (if decide (version node < NodeRoutingSummary.version sm)
                  then ids ++ [NodeRoutingSummary.id sm] else ids)
                 (found ∪ {[NodeRoutingSummary.id sm]}) s1)
      as (ids' & s' & -> & Hg' & Hids).
    exists ids', s'. split; [f_equal; f_equal; set_solver|].
    split; [by eapply grown_trans|].
    intros id. rewrite Hids. clear Hids. rewrite Hv. split.
    + intros [Hin|(sm' & Hin & Hid & Hlt)].
      * case_decide as Hlt; [|by left].
        apply elem_of_app in Hin as [Hin|Hin]; [by left|].
        apply list_elem_of_singleton in Hin. subst id. right.
        exists sm. split; [left|done].
      * right. exists sm'. split; [by right|]. split; [done|].
        by rewrite <- (grown_localVersion _ s s1 id Hg).
    + intros [Hin|(sm' & Hin & Hid & Hlt)].
      * left. case_decide; [|done]. apply elem_of_app. by left.
      * apply elem_of_cons in Hin as [->|Hin].
        -- left. subst id. rewrite decide_True by done.
           apply elem_of_app. right. by apply list_elem_of_singleton.
        -- right. exists sm'. split; [done|]. split; [done|].
           by rewrite (grown_localVersion _ s s1 id Hg).
Qed.

Lemma collectRequests_spec p message s :
  ∃ ids' s',
    collectRequests newTopologyNode p message s =
      (ids', {[Peer.id p]} ∪ list_to_set (summaryIds message), s') ∧
    grown newTopologyNode ({[Peer.id p]} ∪ list_to_set (summaryIds message)) s s' ∧
    ∀ id, id ∈ ids' ↔
      (id = Peer.id p ∧
       localVersion newTopologyNode s id < NodeSummaryMessage.ownVersion message) ∨
      ∃ sm, sm ∈ NodeSummaryMessage.nodes message ∧
            NodeRoutingSummary.id sm = id ∧
            localVersion newTopologyNode s id < NodeRoutingSummary.version sm.
Proof.
  unfold collectRequests, summaryIds.
  destruct (getOrCreate_grown (Peer.id p) s) as [Hv Hg].
  destruct (getOrCreate newTopologyNode (Peer.id p) s) as [peerNode s1].
  simpl in Hv, Hg.
  destruct (compareSummaries_spec (NodeSummaryMessage.nodes message)
              (if decide (version peerNode < NodeSummaryMessage.ownVersion message)
               then [Peer.id p] else [])
              {[Peer.id p]} s1) as (ids' & s' & -> & Hg' & Hids).
  exists ids', s'. split; [done|]. split; [by eapply grown_trans|].
  intros id. rewrite Hids, Hv. clear Hids. split.
  - intros [Hin|(sm & Hin & Hid & Hlt)].
    + case_decide; [|by apply elem_of_nil in Hin].
      apply list_elem_of_singleton in Hin. subst id. by left.
    + right. exists sm. split; [done|]. split; [done|].
      by rewrite <- (grown_localVersion _ s s1 id Hg).
  - intros [[-> Hlt]|(sm & Hin & Hid & Hlt)].
    + left. rewrite decide_True by done. by apply list_elem_of_singleton.
    + right. exists sm. split; [done|]. split; [done|].
      by rewrite (grown_localVersion _ s s1 id Hg).
Qed.

Lemma queueBroadcast_keeps s :
  nodes (queueBroadcast s) = nodes s ∧ sent (queueBroadcast s) = sent s ∧
  peers (queueBroadcast s) = peers s.
Proof.
  unfold queueBroadcast. simpl. destruct (endpoint s); [done|].
  destruct (_ || _); done.
Qed.

(** C7: when a NodeSummary arrives from a tracked peer, an id is requested
    exactly when the version on record for it is strictly lower than the
    advertised one, be it the id of the sending peer with its ownVersion or
    an id listed in the summary; removeRouting(peer) is applied to exactly
    the known nodes, other than the own one, that are neither listed in the
    summary nor tracked as a peer, all other known nodes staying as they
    are and unknown listed ids getting a new node; and a NodeRequest with
    the requested ids is sent to the peer if and only if there are any. *)
Theorem handleNodeSummaryMessage_requests p message s :
  is_Some (peers s !! Peer.id p) →
  let requested := fst (fst (collectRequests newTopologyNode p message s)) in
  let s' := handleNodeSummaryMessage newTopologyNode removeRouting p message s in
  (∀ id, id ∈ requested ↔
     (id = Peer.id p ∧
      localVersion newTopologyNode s id < NodeSummaryMessage.ownVersion message) ∨
     ∃ sm, sm ∈ NodeSummaryMessage.nodes message ∧
           NodeRoutingSummary.id sm = id ∧
           localVersion newTopologyNode s id < NodeRoutingSummary.version sm) ∧
  (∀ id node, nodes s !! id = Some node →
     nodes s' !! id =
       Some (if bool_decide (id ≠ networkId s ∧ (id ∉ summaryIds message) ∧
                             peers s !! id = None)
             then fst (removeRouting p node) else node)) ∧
  (∀ id, nodes s !! id = None →
     nodes s' !! id =
       if bool_decide (id = Peer.id p ∨ id ∈ summaryIds message)
       then Some newTopologyNode else None) ∧
  sent s' = sent s ++
    (if requested is [] then []
     else [(p, MNodeRequest {| NodeRequestMessage.nodes := requested |})]).
Proof.
  intros Htracked requested s'.
  destruct (collectRequests_spec p message s) as (ids' & s1 & Hc & [E1 Hg] & Hids).
  unfold requested, s', handleNodeSummaryMessage. rewrite Hc. simpl.
  set (found := {[Peer.id p]} ∪ list_to_set (summaryIds message) : gset NodeId) in *.
  set (nodes2 := map_imap _ (nodes s1)).
  set (s2 := set_nodes nodes2 s1).
  set (s3 := if bool_decide _ then queueBroadcast s2 else s2).
  assert (Hn3 : nodes s3 = nodes2 ∧ sent s3 = sent s).
  { unfold s3. case_bool_decide.
    - destruct (queueBroadcast_keeps s2) as (-> & -> & _). simpl.
      by rewrite E1.
    - simpl. by rewrite E1. }
  destruct Hn3 as [Hn3 Hs3].
  assert (Hunseen : ∀ id, unseen found s1 id =
            bool_decide (id ≠ networkId s ∧ (id ∉ summaryIds message) ∧
                         peers s !! id = None)).
  { intros id. unfold unseen. rewrite E1. simpl.
    destruct Htracked as [info Hinfo].
    apply eq_true_iff_eq. rewrite !andb_true_iff, !bool_decide_eq_true.
    unfold found. split.
    - intros [[? Hf] ?]. set_solver.
    - intros (? & Hf & Hp). split; [split; [done|]|done].
      intros [Hin|Hin]%elem_of_union; [|set_solver].
      apply elem_of_singleton in Hin. congruence. }
  assert (Hnodes : ∀ id, nodes (match ids' with
            | [] => s3
            | _ :: _ => send p (MNodeRequest {| NodeRequestMessage.nodes := ids' |}) s3
            end) !! id = nodes2 !! id).
  { intros id. destruct ids'; simpl; by rewrite Hn3. }
  split; [exact Hids|]. split; [|split].
  - intros id node Hid. rewrite Hnodes. unfold nodes2.
    rewrite map_lookup_imap, Hg, Hid. simpl. by rewrite Hunseen.
  - intros id Hid. rewrite Hnodes. unfold nodes2.
    rewrite map_lookup_imap, Hg, Hid.
    case_decide as Hin; case_bool_decide as Hb; simpl.
    + f_equal. rewrite Hunseen. rewrite bool_decide_eq_false_2; [done|].
      intros (_ & Hnl & Hnp). destruct Hb as [->|Hb]; [|done].
      destruct Htracked as [? Ht]. congruence.
    + exfalso. apply Hb. unfold found in Hin. set_solver.
    + exfalso. apply Hin. unfold found. set_solver.
    + done.
  - destruct ids'; simpl; rewrite Hs3; [by rewrite app_nil_r|done].
Qed.

End Facts.

Lemma handleNodeSummaryMessage_requests_witness :
  let requested := fst (fst (collectRequests sampleNewNode peerA sampleSummary sampleGossip)) in
  let s' := handleNodeSummaryMessage sampleNewNode sampleRemoveRouting peerA sampleSummary sampleGossip in
  is_Some (peers sampleGossip !! Peer.id peerA) ∧
  (nodes sampleGossip !! [x0c]%byte = Some sampleNodeC →
   nodes s' !! [x0c]%byte =
     Some (if bool_decide ([x0c]%byte ≠ networkId sampleGossip ∧
                           ([x0c]%byte ∉ summaryIds sampleSummary) ∧
                           peers sampleGossip !! [x0c]%byte = None)
           then fst (sampleRemoveRouting peerA sampleNodeC) else sampleNodeC)) ∧
  sent s' = sent sampleGossip ++
    (if requested is [] then []
     else [(peerA, MNodeRequest {| NodeRequestMessage.nodes := requested |})]).
Proof.
  assert (H : is_Some (peers sampleGossip !! Peer.id peerA)) by (vm_compute; eauto).
  pose proof (handleNodeSummaryMessage_requests sampleNewNode sampleRemoveRouting
                peerA sampleSummary sampleGossip H) as (_ & Hn & _ & Hs).
  split; [exact H|]. split; [exact (Hn [x0c]%byte sampleNodeC)|exact Hs].
Defined.

(** The sample, evaluated: the peer itself and node 0d are requested, and
    node 0c is no longer reachable through A. *)
Example handleNodeSummaryMessage_sample :
  let s' := handleNodeSummaryMessage sampleNewNode sampleRemoveRouting peerA sampleSummary sampleGossip in
  sent s' = [(peerA, MNodeRequest {| NodeRequestMessage.nodes := [[x0a]; [x0d]]%byte |})] ∧
  (routes <$> nodes s' !! [x0c]%byte) = Some [] ∧
  (routes <$> nodes sampleGossip !! [x0c]%byte) = Some [[x0a]%byte] ∧
  dom (nodes s') = {[ [x01]; [x0a]; [x0c]; [x0d] ]}%byte.
Proof. repeat split; vm_compute; reflexivity. Qed.

Lemma addPeer_tracked_is_ignored_witness :
  is_Some (peers sampleTopology !! Peer.id peerA') ∧
  addPeer sampleNewNode sampleUpdateSelf peerA' sampleTopology = sampleTopology.
Proof.
  assert (H : is_Some (peers sampleTopology !! Peer.id peerA'))
    by (vm_compute; eauto).
  split; [exact H|].
  exact (addPeer_tracked_is_ignored sampleNewNode sampleUpdateSelf peerA' sampleTopology H).
Defined.

(** A peer with an id that is not tracked is added, with its two
    subscriptions, and the own node gets a new version. *)
Example addPeer_new_peer :
  let s := addPeer sampleNewNode sampleUpdateSelf peerB sampleTopology in
  dom (peers s) = {[ [x0a]%byte; [x0b]%byte ]} ∧
  size (listeners s) = 4%nat ∧
  (version <$> nodes s !! [x01]%byte) = Some 2 ∧
  (version <$> nodes sampleTopology !! [x01]%byte) = Some 1.
Proof. repeat split; vm_compute; reflexivity. Qed.

End TopologyFacts.

(* ================================================================== *)
(** * Disconnecting: the peer and the topology together *)
(* ================================================================== *)
Module DisconnectFacts.

Section Facts.
Context {Routes : Type}.
Variable newTopologyNode : Topology.TopologyNode Routes.
Variable removeRouting :
  Topology.Peer.t → Topology.TopologyNode Routes → Topology.TopologyNode Routes * bool.
Variable updateSelf :
  list Topology.Peer.t → Topology.TopologyNode Routes → Topology.TopologyNode Routes.

Import AbstractPeer.

Lemma handleDisconnect_timers reason err w :
  let w' := exec (handleDisconnect reason err) w in
  (∀ h, timers (runtime w') !! h =
     if bool_decide (h ∈ heldTimers (peer w)) then None
     else timers (runtime w) !! h) ∧
  state (peer w') = Initial ∧
  effects (handleDisconnect reason err) w =
    (if bool_decide (state (peer w) = Active) then [DisconnectEvent] else []) ∧
  authClientFlow (peer w') = authClientFlow (peer w) ∧
  authServerFlow (peer w') = authServerFlow (peer w).
Proof.
  AbstractPeerFacts.destruct_world w.
  unfold handleDisconnect, clearInterval, clearTimeout, heldTimers.
  split.
  - intros h. destruct ht as [h1|], ps as [h2|], pc as [h3|];
      AbstractPeerFacts.unfold_M; simpl;
      destruct (bool_decide (st = Active)); simpl;
      rewrite ?lookup_delete; try case_bool_decide; repeat case_decide;
      try done; exfalso; rewrite ?elem_of_cons, ?elem_of_nil in *;
      intuition congruence.
  - destruct ht, ps, pc; AbstractPeerFacts.effects_simpl;
      destruct (bool_decide (st = Active)); simpl;
      rewrite ?AbstractPeerFacts.drop_trace, ?drop_all; done.
Qed.

Lemma topology_handleDisconnect_unsubscribes (p : Topology.Peer.t) (s : Topology.t Routes) info :
  Topology.peers s !! Topology.Peer.id p = Some info →
  let s' := Topology.handleDisconnect newTopologyNode removeRouting updateSelf p s in
  Topology.peers s' !! Topology.Peer.id p = None ∧
  ∀ h, Topology.listeners s' !! h =
    if bool_decide (h ∈ Topology.subscriptions info) then None
    else Topology.listeners s !! h.
Proof.
  intros Hinfo. unfold Topology.handleDisconnect. rewrite Hinfo.
  set (s1 := Topology.set_peers _ s).
  assert (H1 : ∀ l (s0 : Topology.t Routes),
    Topology.peers (foldl (λ s handle, Topology.unsubscribe handle s) s0 l)
      = Topology.peers s0 ∧
    ∀ h, Topology.listeners (foldl (λ s handle, Topology.unsubscribe handle s) s0 l) !! h =
      if bool_decide (h ∈ l) then None else Topology.listeners s0 !! h).
  { induction l as [|a l IH]; intros s0; simpl.
    - split; [done|]. intros h. done.
    - destruct (IH (Topology.unsubscribe a s0)) as [IHp IHl]. split; [by rewrite IHp|].
      intros h. rewrite IHl. simpl. rewrite lookup_delete.
      repeat case_bool_decide; repeat case_decide; try done;
        rewrite elem_of_cons in *; intuition congruence. }
  destruct (H1 (Topology.subscriptions info) s1) as [Hp Hl].
  set (s2 := foldl _ s1 _) in *.
  destruct (TopologyFacts.getOrCreate_grown newTopologyNode (Topology.Peer.id p) s2) as [_ [E _]].
  destruct (Topology.getOrCreate newTopologyNode (Topology.Peer.id p) s2) as [n s3].
  simpl in E.
  match goal with |- context [Topology.queueBroadcast ?x] =>
    destruct (TopologyFacts.queueBroadcast_keeps x) as (_ & _ & Hq);
    assert (Hlq : Topology.listeners (Topology.queueBroadcast x) = Topology.listeners x)
  end.
  { unfold Topology.queueBroadcast. simpl. destruct (Topology.endpoint s3); [done|].
    destruct (_ || _); done. }
  split.
  - rewrite Hq. simpl. rewrite E. simpl. rewrite Hp. unfold s1. simpl.
    apply lookup_delete_eq.
  - intros h. rewrite Hlq. simpl. rewrite E. simpl. rewrite Hl. done.
Qed.

(** What a disconnect does release: handleDisconnect, for every reason
    (manual, negotiation failure, auth reject, ping timeout, transport
    error) and in every state of the peer, clears the timers whose handles
    the three fields of the peer hold, and no other, sets the state to
    Initial, and emits the disconnect event when the peer was Active.  On
    the disconnect of a tracked peer the topology removes the peer and
    unsubscribes every subscription it holds for it.  The auth flows are
    destroyed by the switch to Active, not by the disconnect. *)
Theorem disconnect_releases w reason err (p : Topology.Peer.t) (s : Topology.t Routes) info :
  Topology.peers s !! Topology.Peer.id p = Some info →
  let w' := exec (handleDisconnect reason err) w in
  let s' := Topology.handleDisconnect newTopologyNode removeRouting updateSelf p s in
  (∀ h, h ∈ heldTimers (peer w) → timers (runtime w') !! h = None) ∧
  (∀ h, h ∉ heldTimers (peer w) →
     timers (runtime w') !! h = timers (runtime w) !! h) ∧
  ((∀ h, is_Some (timers (runtime w) !! h) → h ∈ heldTimers (peer w)) →
   timers (runtime w') = ∅) ∧
  state (peer w') = Initial ∧
  effects (handleDisconnect reason err) w =
    (if bool_decide (state (peer w) = Active) then [DisconnectEvent] else []) ∧
  destroyed (effects switchToActive w) =
    option_list (authClientFlow (peer w)) ++ option_list (authServerFlow (peer w)) ∧
  Topology.peers s' !! Topology.Peer.id p = None ∧
  (∀ h, h ∈ Topology.subscriptions info → Topology.listeners s' !! h = None).
Proof.
  intros Hinfo w' s'.
  destruct (handleDisconnect_timers reason err w) as (Ht & Hst & He & _ & _).
  destruct (topology_handleDisconnect_unsubscribes p s info Hinfo) as [Hp Hl].
  fold w' in Ht, Hst. fold s' in Hp, Hl.
  split. { intros h Hh. rewrite Ht. by rewrite bool_decide_eq_true_2. }
  split. { intros h Hh. rewrite Ht. by rewrite bool_decide_eq_false_2. }
  split.
  { intros Hall. apply map_eq. intros h. rewrite Ht, lookup_empty.
    destruct (decide (h ∈ heldTimers (peer w))) as [Hh|Hh].
    - by rewrite bool_decide_eq_true_2.
    - rewrite bool_decide_eq_false_2 by done.
      destruct (timers (runtime w) !! h) eqn:Hlk; [|done].
      exfalso. apply Hh, Hall. by rewrite Hlk. }
  split; [done|]. split; [done|].
  split.
  { destruct (AbstractPeerFacts.switchToActive_effects w) as [-> _].
    destruct (authClientFlow (peer w)), (authServerFlow (peer w)); done. }
  split; [done|].
  intros h Hh. rewrite Hl. by rewrite bool_decide_eq_true_2.
Qed.

End Facts.

Import AbstractPeer.



Lemma disconnect_releases_witness :
  let w' := exec (handleDisconnect DisconnectReason.PingTimeout None) sampleActive in
  let s' := Topology.handleDisconnect Topology.sampleNewNode Topology.sampleRemoveRouting
              Topology.sampleUpdateSelf Topology.peerA Topology.sampleTopology in
  Topology.peers Topology.sampleTopology !! Topology.Peer.id Topology.peerA
    = Some Topology.sampleDetails ∧
  state (peer w') = Initial ∧
  ((∀ h, is_Some (timers (runtime sampleActive) !! h) →
         h ∈ heldTimers (peer sampleActive)) →
   timers (runtime w') = ∅) ∧
  Topology.peers s' !! Topology.Peer.id Topology.peerA = None ∧
  (∀ h, h ∈ Topology.subscriptions Topology.sampleDetails → Topology.listeners s' !! h = None).
Proof.
  assert (H : Topology.peers Topology.sampleTopology
                !! Topology.Peer.id Topology.peerA = Some Topology.sampleDetails)
    by (vm_compute; reflexivity).
  pose proof (disconnect_releases Topology.sampleNewNode Topology.sampleRemoveRouting
                Topology.sampleUpdateSelf sampleActive
                DisconnectReason.PingTimeout None
                Topology.peerA Topology.sampleTopology Topology.sampleDetails H)
    as (_ & _ & Hnone & Hst & _ & _ & Hp & Hl).
  split; [exact H|]. split; [exact Hst|]. split; [exact Hnone|].
  split; [exact Hp|exact Hl].
Defined.

(** On the sample, evaluated: the active peer holds two intervals, both are
    gone after the disconnect, and the topology has no listener left. *)
Example disconnect_sample :
  let w' := exec (handleDisconnect DisconnectReason.PingTimeout None) sampleActive in
  let s' := Topology.handleDisconnect Topology.sampleNewNode Topology.sampleRemoveRouting
              Topology.sampleUpdateSelf Topology.peerA Topology.sampleTopology in
  size (timers (runtime sampleActive)) = 2%nat ∧
  timers (runtime w') = ∅ ∧
  effects (handleDisconnect DisconnectReason.PingTimeout None) sampleActive
    = [DisconnectEvent] ∧
  size (Topology.listeners Topology.sampleTopology) = 2%nat ∧
  Topology.listeners s' = ∅.
Proof. vm_compute. done. Qed.

(** A client whose only provider is rejected aborts with AuthReject while
    it holds a client flow, and the disconnect that follows destroys no
    flow: flow 0 is still held by the peer, and [destroy] was called on
    nothing in the whole run. *)
Lemma auth_reject_leaves_flow :
  let w := sampleClient [sampleProvider "anonymous" true true] in
  let w1 := exec (receiveData MReject) w in
  let w2 := exec (handleDisconnect DisconnectReason.AuthReject None) w1 in
  disconnects (effects (receiveData MReject) w) = [DisconnectReason.AuthReject] ∧
  authClientFlow (peer w1) = Some 0%N ∧
  state (peer w2) = Initial ∧
  authClientFlow (peer w2) = Some 0%N ∧
  destroyed (trace (runtime w2)) = [].
Proof. vm_compute. done. Qed.

(** C4, at the inputs where the code leaves resources behind.

    A client with one provider, whose Auth frame the server rejects: it
    aborts with AuthReject, and after the disconnect the flow created for
    the attempt is still held and [destroy] was called on no flow.

    A client with two providers, the first rejected and the second
    accepted, that is disconnected later: a flow was created for each
    attempt, and only the second was ever destroyed.

    A server that receives Auth a second time before its flow has answered
    the first, and then Begin for each of the two accepted attempts: the
    second switch to Active arms a second pair of intervals over the first,
    and after the disconnect the first pair is still armed, while the
    fields of the peer hold the handles of the second. *)
Theorem disconnect_leaves_resources :
  let secret := sampleProvider "secret" true true in
  let token := sampleProvider "token" true true in
  let auth := {| AuthMessage.method := "secret"; AuthMessage.data := [x2a]%byte |} in
  let rejected :=
    exec (PeerRuns.inputs
            [PeerRuns.NegotiateAsClient; PeerRuns.Receive sampleHello;
             PeerRuns.Receive MOk;
             PeerRuns.InitialMessageSettled secret (inr [x2a]%byte);
             PeerRuns.Receive MReject;
             PeerRuns.HandleDisconnect DisconnectReason.AuthReject None])
         (PeerRuns.born (sampleParent [secret]) 0) in
  let rotated :=
    exec (PeerRuns.inputs
            [PeerRuns.NegotiateAsClient; PeerRuns.Receive sampleHello;
             PeerRuns.Receive MOk;
             PeerRuns.InitialMessageSettled secret (inr [x2a]%byte);
             PeerRuns.Receive MReject;
             PeerRuns.InitialMessageSettled token (inr [x2b]%byte);
             PeerRuns.Receive MOk;
             PeerRuns.HandleDisconnect DisconnectReason.Manual None])
         (PeerRuns.born (sampleParent [secret; token]) 0) in
  let twice :=
    exec (PeerRuns.inputs
            [PeerRuns.NegotiateAsServer;
             PeerRuns.Receive (MSelect {| SelectMessage.id := [x02]%byte;
                                          SelectMessage.capabilities := [] |});
             PeerRuns.Receive (MAuth auth); PeerRuns.Receive (MAuth auth);
             PeerRuns.ServerFlowReleased auth;
             PeerRuns.ServerReplySettled (inr AuthServerReply.Ok);
             PeerRuns.Receive MBegin;
             PeerRuns.ServerReplySettled (inr AuthServerReply.Ok);
             PeerRuns.Receive MBegin;
             PeerRuns.HandleDisconnect DisconnectReason.Manual None])
         (PeerRuns.born (sampleParent [secret]) 0) in
  (state (peer rejected) = Initial ∧
   disconnects (trace (runtime rejected)) = [DisconnectReason.AuthReject] ∧
   attempts (trace (runtime rejected)) = [secret] ∧
   authClientFlow (peer rejected) = Some 0%N ∧
   destroyed (trace (runtime rejected)) = []) ∧
  (state (peer rotated) = Initial ∧
   attempts (trace (runtime rotated)) = [secret; token] ∧
   destroyed (trace (runtime rotated)) = [1%N]) ∧
  (state (peer twice) = Initial ∧
   heldTimers (peer twice) = [8%N; 7%N] ∧
   timers (runtime twice) =
     {[ 5%N := {| callback := CheckFailure; delay := 5000; repeats := true |};
        6%N := {| callback := SendPing; delay := 30000; repeats := true |} ]}).
Proof. repeat split; vm_compute; reflexivity. Qed.

End DisconnectFacts.

(* ================================================================== *)
(** * RequestReplyHelper: timers and round trips *)
(* ================================================================== *)
Module RequestReplyHelperTimersFacts.
Import RequestReplyHelper RequestReplyHelperFacts RequestReplyHelperTimers.

Section Facts.
Context {Result : Type}.
Implicit Types (s : t Result) (cs : list (Call Result)).

Lemma owned_release_settle s id m how :
  Inv s → owned s → pending s !! id = Some m →
  owned (settle (promise m) how (releaseId id s)).
Proof.
  intros HI Ho Hm. unfold releaseId. rewrite Hm. intros h id' d. simpl.
  rewrite lookup_delete. case_decide as Hh; [done|]. intros Ht.
  destruct (Ho h id' d Ht) as (m' & Hm' & Hh').
  exists m'. split; [|done]. rewrite lookup_delete_ne; [done|].
  intros <-. congruence.
Qed.

Lemma owned_step c s : Inv s → owned s → owned (step c s).
Proof.
  intros HI Ho. destruct c as [|id r|id e|h]; simpl.
  - intros h id d. simpl. rewrite lookup_insert. case_decide as Hh.
    + intros [= <- <-]. eexists. rewrite lookup_insert_eq. done.
    + intros Ht. destruct (Ho h id d Ht) as (m & Hm & Hh').
      exists m. split; [|done]. rewrite lookup_insert_ne; [done|].
      intros <-. destruct (inv_pending s HI _ m Hm). lia.
  - unfold registerReply. destruct (pending s !! id) as [m|] eqn:Hm; [|done].
    by apply owned_release_settle.
  - unfold registerError. destruct (pending s !! id) as [m|] eqn:Hm; [|done].
    by apply owned_release_settle.
  - unfold timerFires. destruct (timers s !! h) as [[id d]|] eqn:Hh; [|done].
    destruct (Ho h id d Hh) as (m & Hm & Hhm).
    unfold registerError. simpl. rewrite Hm.
    pose proof (owned_release_settle s id m (Rejected (Some TimedOut)) HI Ho Hm) as H.
    unfold releaseId in *. simpl. rewrite Hm in *. simpl in *.
    intros h' id' d'. simpl. intros Ht. apply (H h' id' d'). simpl.
    apply lookup_delete_Some in Ht as [Hne Ht].
    apply lookup_delete_Some in Ht as [_ Ht].
    rewrite lookup_delete_ne by done. exact Ht.
Qed.

Lemma owned_run cs s : Inv s → owned s → owned (run cs s).
Proof.
  revert s. induction cs as [|c cs IH]; intros s HI Ho; simpl; [done|].
  apply IH; [by apply Inv_step|by apply owned_step].
Qed.

(** X1: in every state reached from a new helper, a timer is armed exactly
    when it is the timer of a pending request, with the request's id and the
    configured delay; so once no request is pending, no timer is armed. *)
Theorem timers_are_those_of_pending options cs :
  let s := run cs (new options) in
  (∀ h id d, timers s !! h = Some (id, d) ↔
     ∃ m, pending s !! id = Some m ∧ timeout_handle m = h ∧
          d = js_or (timeout options) (JsInt 30000)) ∧
  (pending s = ∅ → timers s = ∅).
Proof.
  intros s.
  assert (HI : Inv s) by apply Inv_run, Inv_new.
  assert (Ho : owned s).
  { apply owned_run; [apply Inv_new|]. intros h id d. simpl.
    by rewrite lookup_empty. }
  assert (Hd : defaultTimeout s = js_or (timeout options) (JsInt 30000)).
  { unfold s. by rewrite defaultTimeout_run. }
  assert (Hiff : ∀ h id d, timers s !! h = Some (id, d) ↔
     ∃ m, pending s !! id = Some m ∧ timeout_handle m = h ∧
          d = js_or (timeout options) (JsInt 30000)).
  { intros h id d. split.
    - intros Ht. destruct (Ho h id d Ht) as (m & Hm & Hh).
      exists m. split; [done|]. split; [done|].
      destruct (inv_pending s HI id m Hm) as (_ & _ & Ht').
      rewrite Hh, Ht in Ht'. congruence.
    - intros (m & Hm & <- & ->).
      destruct (inv_pending s HI id m Hm) as (_ & _ & Ht'). by rewrite <- Hd. }
  split; [exact Hiff|].
  intros He. apply map_eq. intros h. rewrite lookup_empty.
  destruct (timers s !! h) as [[id d]|] eqn:Ht; [|done].
  apply Hiff in Ht as (m & Hm & _). rewrite He, lookup_empty in Hm. done.
Qed.

Lemma prepare_reply_state s v :
  pending s !! idCounter s = None → timers s !! nextTimer s = None →
  registerReply (idCounter s) v (snd (prepareRequest s)) =
    {| defaultTimeout := defaultTimeout s; pending := pending s;
       idCounter := (idCounter s + 1)%N; timers := timers s;
       nextTimer := (nextTimer s + 1)%N; nextPromise := S (nextPromise s);
       settled := (nextPromise s, Resolved v) :: settled s |}.
Proof.
  intros Hp Ht. unfold registerReply, releaseId. simpl.
  rewrite lookup_insert_eq. simpl.
  rewrite !delete_insert_id by done. done.
Qed.

(** X2: in every state reached from a new helper, a request that is
    prepared and then replied to resolves its promise with the reply, and
    leaves the pending requests and the armed timers as they were before
    it was prepared; after that its timer, a second reply and an error for
    the same id change nothing. *)
Theorem prepare_then_reply options cs (v v' : Result) e :
  let s := run cs (new options) in
  let id := fst (fst (prepareRequest s)) in
  let p := snd (fst (prepareRequest s)) in
  let s' := registerReply id v (snd (prepareRequest s)) in
  settled s' = (p, Resolved v) :: settled s ∧
  pending s' = pending s ∧
  timers s' = timers s ∧
  timerFires (nextTimer s) s' = s' ∧
  registerReply id v' s' = s' ∧
  registerError id e s' = s'.
Proof.
  intros s id p s'.
  assert (HI : Inv s) by apply Inv_run, Inv_new.
  assert (Hfresh : pending s !! idCounter s = None).
  { destruct (pending s !! idCounter s) as [m|] eqn:Hm; [|done].
    destruct (inv_pending s HI _ m Hm) as (? & _). lia. }
  assert (Hfresh_t : timers s !! nextTimer s = None).
  { destruct (timers s !! nextTimer s) as [x|] eqn:Hx; [|done].
    pose proof (inv_timers s HI _ x Hx). lia. }
  pose proof (prepare_reply_state s v Hfresh Hfresh_t) as Hs'.
  change (registerReply (idCounter s) v (snd (prepareRequest s))) with s' in Hs'.
  change id with (idCounter s). change p with (nextPromise s).
  clearbody s' s. subst s'. simpl.
  split; [done|]. split; [done|]. split; [done|].
  unfold timerFires, registerReply, registerError. simpl.
  by rewrite Hfresh, Hfresh_t.
Qed.

End Facts.
End RequestReplyHelperTimersFacts.

(* ================================================================== *)
(** * AbstractPeer: invariants of every run *)
(* ================================================================== *)
Module PeerRunsFacts.
Import AbstractPeer AbstractPeerFacts PeerRuns.

Lemma preserves_ret I {A} (a : A) : preserves I (mret a).
Proof. by intros w. Qed.

Lemma preserves_bind I {A B} (m : M A) (k : A → M B) :
  preserves I m → (∀ a, preserves I (k a)) → preserves I (m ≫= k).
Proof.
  intros Hm Hk w HI. unfold mbind, M_bind. specialize (Hm w HI).
  destruct (m w) as [a w']. by apply Hk.
Qed.

Lemma preserves_this I {A} (f : Peer → A) : preserves I (this f).
Proof. by intros w. Qed.

Lemma connectEvents_app es1 es2 :
  connectEvents (es1 ++ es2) = (connectEvents es1 + connectEvents es2)%nat.
Proof. unfold connectEvents. by rewrite List.filter_app, length_app. Qed.

Lemma disconnectEvents_app es1 es2 :
  disconnectEvents (es1 ++ es2) = (disconnectEvents es1 + disconnectEvents es2)%nat.
Proof. unfold disconnectEvents. by rewrite List.filter_app, length_app. Qed.

(** Emitting anything expected, except the disconnect event. *)
Lemma Good_emit e :
  expected e = true → (if e is DisconnectEvent then False else True) →
  preserves Good (emit e).
Proof.
  intros He Hd [p r] [G1 G2 G3]. simpl in *. split; simpl.
  - exact G1.
  - rewrite connectEvents_app, disconnectEvents_app.
    destruct e; try done; unfold connectEvents, disconnectEvents in *;
      simpl; lia.
  - apply Forall_app. split; [done|]. by constructor.
Qed.

(** Assigning a field other than the state and the negotiation timeout. *)
Lemma Good_assign f :
  (∀ p, state (f p) = state p ∧ helloTimeout (f p) = helloTimeout p) →
  preserves Good (assign f).
Proof.
  intros Hf [p r] [G1 G2 G3]. destruct (Hf p) as [Hs Hh]. simpl in *.
  split; simpl; rewrite ?Hs, ?Hh; done.
Qed.

(** Leaving for a state other than Active. *)
Lemma Good_set_state v : v ≠ Active → preserves Good (assign (set_state v)).
Proof.
  intros Hv [p r] [G1 G2 G3]. simpl in *. split; simpl; try done.
  rewrite decide_False by done. case_decide; lia.
Qed.

Lemma Good_clearTimeout h : preserves Good (clearTimeout h).
Proof.
  intros [p r] [G1 G2 G3]. destruct h as [h|]; [|done]. simpl in *.
  split; simpl; try done.
  intros h' t Ht. apply lookup_delete_Some in Ht as [_ Ht]. by apply (G1 h' t).
Qed.

(** Arming an interval. *)
Lemma Good_setInterval cb ms : cb ≠ NegotiationTimeout → preserves Good (setInterval cb ms).
Proof.
  intros Hcb [p r] [G1 G2 G3]. unfold setInterval, arm, withRuntime.
  simpl in *. split; simpl; try done.
  intros h t Ht Hc. apply lookup_insert_Some in Ht as [[_ <-]|[_ Ht]]; [done|].
  by apply (G1 h t).
Qed.

Lemma Good_read {A} (f : Runtime → A) : preserves Good (withRuntime (λ r, (f r, r))).
Proof. intros [p r] G. by destruct r. Qed.

Lemma Good_newFlow : preserves Good newFlow.
Proof. intros [p r] [G1 G2 G3]. by split. Qed.

Lemma Good_tick time : preserves Good (tick time).
Proof. intros [p r] [G1 G2 G3]. by split. Qed.

Lemma Good_failureDetectorSays b : preserves Good (failureDetectorSays b).
Proof. intros [p r] [G1 G2 G3]. by split. Qed.

(** Re-arming the negotiation timeout: the timer held before is cleared,
    the new one is the one held after. *)
Lemma Good_queueNegotiationTimeout : preserves Good queueNegotiationTimeout.
Proof.
  intros w [G1 G2 G3]. destruct_world w. simpl in *.
  unfold queueNegotiationTimeout, setTimeout, arm, clearTimeout.
  destruct ht as [h0|]; unfold_M; simpl; (split; simpl; [|done|done]);
    intros h t Ht Hc; apply lookup_insert_Some in Ht as [[<- _]|[_ Ht]];
    try done.
  - apply lookup_delete_Some in Ht as [Hne Ht].
    specialize (G1 h t Ht Hc). congruence.
  - by specialize (G1 h t Ht Hc).
Qed.

(** Becoming Active: the negotiation timer is cleared and given up, and the
    connect event is emitted. *)
Lemma Good_switchToActive : preserves Good switchToActive.
Proof.
  intros w [G1 G2 G3]. destruct_world w. simpl in *.
  unfold switchToActive, setInterval, arm, clearTimeout.
  destruct ht as [h0|], cf, sf; unfold_M; simpl; (split; simpl);
    try (intros h t Ht Hc;
         apply lookup_insert_Some in Ht as [[_ <-]|[_ Ht]]; [done|];
         apply lookup_insert_Some in Ht as [[_ <-]|[_ Ht]]; [done|];
         try (apply lookup_delete_Some in Ht as [Hne Ht]);
         specialize (G1 h t Ht Hc); congruence);
    try (rewrite !connectEvents_app, !disconnectEvents_app;
         unfold connectEvents, disconnectEvents in *; simpl;
         destruct (decide (st = Active)); lia);
    rewrite !Forall_app; repeat split; try done; by repeat constructor.
Qed.

(** Being disconnected: the disconnect event is emitted only when the peer
    was Active. *)
Lemma Good_handleDisconnect reason err : preserves Good (handleDisconnect reason err).
Proof.
  intros w [G1 G2 G3]. destruct_world w. simpl in *.
  unfold handleDisconnect, clearInterval, clearTimeout.
  destruct ht as [h0|], ps as [h1|], pc as [h2|]; unfold_M; simpl;
    destruct (decide (st = Active)) as [->|Hst]; simpl;
    rewrite ?bool_decide_eq_false_2 by done; simpl;
    (split; simpl);
    try (intros h t Ht Hc;
         repeat (apply lookup_delete_Some in Ht as [? Ht]);
         by apply (G1 h t));
    try (rewrite ?connectEvents_app, ?disconnectEvents_app;
         unfold connectEvents, disconnectEvents in *; simpl; lia);
    rewrite ?Forall_app; repeat split; try done; by repeat constructor.
Qed.

(** Composite methods: each is built from the steps above. *)
Ltac pres :=
  repeat lazymatch goal with
  | |- preserves _ (mbind _ _) => apply preserves_bind; [|intros ?]
  | |- preserves _ (mret _) => apply preserves_ret
  | |- preserves _ (this _) => apply preserves_this
  | |- preserves _ (emit _) => apply Good_emit; [reflexivity|exact I]
  | |- preserves _ (assign (set_state _)) => apply Good_set_state; discriminate
  | |- preserves _ (assign _) => apply Good_assign; intros []; done
  | |- preserves _ (clearTimeout _) => apply Good_clearTimeout
  | |- preserves _ (clearInterval _) => apply Good_clearTimeout
  | |- preserves _ Date_now => apply Good_read
  | |- preserves _ (withRuntime (λ r, (_, r))) => apply Good_read
  | |- preserves _ newFlow => apply Good_newFlow
  | |- preserves _ queueNegotiationTimeout => apply Good_queueNegotiationTimeout
  | |- preserves _ switchToActive => apply Good_switchToActive
  | |- preserves _ (match ?x with _ => _ end) => destruct x
  end.

Lemma Good_abort error reason : preserves Good (abort error reason).
Proof. unfold abort, requestDisconnect. pres. Qed.

Lemma Good_registerLatencySend : preserves Good registerLatencySend.
Proof. unfold registerLatencySend. pres. Qed.

Lemma Good_registerLatencyReply : preserves Good registerLatencyReply.
Proof. unfold registerLatencyReply. pres. Qed.

Lemma Good_sendInitialAuth : preserves Good sendInitialAuth.
Proof.
  unfold sendInitialAuth, pickNextAuthProvider. pres;
    try apply Good_abort.
Qed.

Ltac pres' :=
  repeat first
    [ progress pres
    | apply Good_abort
    | apply Good_registerLatencySend
    | apply Good_registerLatencyReply
    | apply Good_sendInitialAuth ].

Lemma Good_receiveData msg : preserves Good (receiveData msg).
Proof.
  unfold receiveData. apply preserves_bind; [apply preserves_this|].
  intros st.
  destruct msg;
    unfold requestDisconnect, receivePing, receiveHello, receiveSelect,
      receiveAuth, receiveAuth_released, receiveClientAuthData,
      receiveServerAuthData, receiveSelectOK, receiveAuthOk, receiveAuthOk_with,
      receiveAuthReject, send;
    pres'.
Qed.

Lemma Good_input i : preserves Good (input i).
Proof.
  destruct i; simpl.
  - unfold negotiateAsServer, send. pres'.
  - unfold negotiateAsClient. pres'.
  - apply Good_receiveData.
  - apply Good_handleDisconnect.
  - unfold disconnect. pres'.
  - unfold forceConnect. pres'.
  - unfold timerFires, checkFailure, sendPing, requestDisconnect, send. pres'.
  - unfold sendRejected. pres'.
  - unfold sendInitialAuth_resume, send. pres'.
  - unfold receiveServerAuthData_resume, send. pres'.
  - unfold receiveAuth_released, send. pres'.
  - unfold serverReply_resume, handleSendingAuthReply, send. pres'.
  - apply Good_tick.
  - apply Good_failureDetectorSays.
Qed.

Lemma Good_inputs l : preserves Good (inputs l).
Proof.
  induction l as [|i l IH]; simpl; [apply preserves_ret|].
  apply preserves_bind; [apply Good_input|]. intros _. exact IH.
Qed.

Lemma Good_born parent time : Good (born parent time).
Proof. split; simpl; [by intros h t; rewrite lookup_empty|lia|constructor]. Qed.

Lemma Good_reached parent time l : Good (exec (inputs l) (born parent time)).
Proof. apply Good_inputs, Good_born. Qed.

(** X3: whatever happens to a peer after its construction (calls, frames,
    timers, settled promises, in any order), at most one negotiation timer
    is armed, and it is the one the peer holds in helloTimeout: re-arming
    always clears the timer armed before. *)
Theorem one_negotiation_timer parent time l :
  let w := exec (inputs l) (born parent time) in
  (∀ h t, timers (runtime w) !! h = Some t →
          callback t = NegotiationTimeout → helloTimeout (peer w) = Some h) ∧
  (∀ h1 h2 t1 t2,
     timers (runtime w) !! h1 = Some t1 → callback t1 = NegotiationTimeout →
     timers (runtime w) !! h2 = Some t2 → callback t2 = NegotiationTimeout →
     h1 = h2).
Proof.
  intros w. destruct (Good_reached parent time l) as [G1 _ _]. fold w in G1.
  split; [exact G1|].
  intros h1 h2 t1 t2 H1 C1 H2 C2.
  pose proof (G1 h1 t1 H1 C1). pose proof (G1 h2 t2 H2 C2). congruence.
Qed.

(** X4: whatever happens to a peer after its construction, the disconnect
    event has been emitted at most as often as the connect event, and
    strictly less often while the peer is connected: no disconnect event
    without a connect event before it. *)
Theorem disconnect_events_follow_connect_events parent time l :
  let w := exec (inputs l) (born parent time) in
  (disconnectEvents (trace (runtime w)) ≤ connectEvents (trace (runtime w)))%nat ∧
  (connected (peer w) = true →
   (disconnectEvents (trace (runtime w)) < connectEvents (trace (runtime w)))%nat).
Proof.
  intros w. destruct (Good_reached parent time l) as [_ G2 _]. fold w in G2.
  unfold connected. split.
  - case_decide; lia.
  - intros Hc%bool_decide_eq_true. rewrite decide_True in G2 by done. lia.
Qed.

(** X5: whatever happens to a peer after its construction, the only frames
    it sends are negotiation frames, with a handler that aborts the peer
    when the send fails, and Ping and Pong, with a handler that only logs;
    and the frames it hands to the listeners of the data event are never
    negotiation frames, Ping or Bye. *)
Theorem frames_sent_and_surfaced parent time l :
  let w := exec (inputs l) (born parent time) in
  (∀ msg onError, Send msg onError ∈ trace (runtime w) →
     if onError is CatchDebug
     then msg = MPing ∨ msg = MPong
     else negotiationFrame (messageType msg) = true) ∧
  (∀ msg, DataEvent msg ∈ trace (runtime w) →
     negotiationFrame (messageType msg) = false ∧ msg ≠ MPing ∧ msg ≠ MBye).
Proof.
  intros w. destruct (Good_reached parent time l) as [_ _ G3]. fold w in G3.
  rewrite Forall_forall in G3. split.
  - intros msg c Hin. specialize (G3 _ Hin).
    destruct msg, c; simpl in *; try done; auto.
  - intros msg Hin. specialize (G3 _ Hin).
    destruct msg; simpl in *; done.
Qed.

End PeerRunsFacts.

(* ================================================================== *)
(** * AbstractPeer: handshakes, timeouts and pings *)
(* ================================================================== *)
Module PeerScenarios.
Import AbstractPeer AbstractPeerFacts PeerRuns.

#[local] Arguments Authentication.getProvider : simpl never.
#[local] Arguments pick : simpl never.

(** What a method adds to a trace that already holds [es1]. *)
Lemma drop_trace_after (t es1 es2 : list Effect) :
  drop (length (t ++ es1)) (t ++ es1 ++ es2) = es2.
Proof. rewrite app_assoc. apply drop_app_length. Qed.

Lemma drop_trace_len (t es1 es2 : list Effect) :
  drop (length (t ++ es1)) (t ++ es2) = drop (length es1) es2.
Proof. rewrite length_app. apply drop_app_add. Qed.

Lemma exec_inputs_cons i l w : exec (inputs (i :: l)) w = exec (inputs l) (exec (input i) w).
Proof. simpl inputs. apply exec_bind. Qed.

Lemma exec_inputs_nil w : exec (inputs []) w = w.
Proof. by destruct w. Qed.

(** X6: the server sequence, from construction to Active.  With a provider
    registered for the method of the Auth frame that can create a server
    flow, a new peer that negotiates as server and receives Select, Auth,
    the Ok reply of its server flow and Begin ends Active, under the id of
    the Select frame; it has sent Hello with the own id, Ok and Ok, in that
    order, has destroyed the server flow, and has emitted the connect event
    once; its latency sample is the time between the reply and Begin; the
    negotiation timers are all gone and exactly the two ping intervals
    (check every 5000 ms, send every 30000 ms) are armed. *)
Theorem server_handshake parent time select auth provider t1 t2 :
  Authentication.getProvider (WithNetwork.authentication parent)
    (AuthMessage.method auth) = Some provider →
  AuthProvider.createServerFlow provider = true →
  let w := exec (inputs [NegotiateAsServer; Receive (MSelect select);
                         Receive (MAuth auth); ClockReads t1;
                         ServerReplySettled (inr AuthServerReply.Ok);
                         ClockReads t2; Receive MBegin])
             (born parent time) in
  state (peer w) = Active ∧
  id (peer w) = SelectMessage.id select ∧
  trace (runtime w) =
    [Send (MHello {| HelloMessage.id := WithNetwork.networkId parent;
                     HelloMessage.capabilities := [] |}) CatchAbort;
     Send MOk CatchAbort;
     CreateServerFlow provider 0;
     Await (ServerReceiveInitial 0 (AuthMessage.data auth));
     Send MOk CatchAbort;
     DidConnect; DestroyFlow 0; ConnectEvent] ∧
  latencyValues (peer w) = [t2 - t1] ∧
  helloTimeout (peer w) = None ∧
  timers (runtime w) =
    {[ 4%N := {| callback := CheckFailure; delay := 5000; repeats := true |};
       5%N := {| callback := SendPing; delay := 30000; repeats := true |} ]}.
Proof.
  intros Hp Hc w. unfold w.
  rewrite !exec_inputs_cons, exec_inputs_nil.
  set (w2 := exec (input (Receive (MSelect select))) _).
  vm_compute in w2.
  set (w3 := exec (input (Receive (MAuth auth))) w2).
  assert (H3 : w3 = exec (input (Receive (MAuth auth))) w2) by done.
  unfold w2, input, receiveData, receiveAuth, receiveAuth_released in H3.
  unfold_M. simpl in H3. rewrite Hp in H3. simpl in H3. rewrite Hc in H3.
  clearbody w3. subst w3. clear w2.
  repeat split; vm_compute; reflexivity.
Qed.

Lemma server_handshake_witness :
  let parent := sampleParent [sampleProvider "secret" true true] in
  let auth := {| AuthMessage.method := "secret"; AuthMessage.data := [x2a]%byte |} in
  let select := {| SelectMessage.id := [x02]%byte; SelectMessage.capabilities := [] |} in
  let w := exec (inputs [NegotiateAsServer; Receive (MSelect select);
                         Receive (MAuth auth); ClockReads 10;
                         ServerReplySettled (inr AuthServerReply.Ok);
                         ClockReads 25; Receive MBegin])
             (born parent 0) in
  Authentication.getProvider (WithNetwork.authentication parent)
    (AuthMessage.method auth) = Some (sampleProvider "secret" true true) ∧
  state (peer w) = Active ∧
  latencyValues (peer w) = [25 - 10].
Proof.
  assert (H : Authentication.getProvider
                (WithNetwork.authentication (sampleParent [sampleProvider "secret" true true]))
                "secret" = Some (sampleProvider "secret" true true)) by reflexivity.
  pose proof (server_handshake (sampleParent [sampleProvider "secret" true true]) 0
                {| SelectMessage.id := [x02]%byte; SelectMessage.capabilities := [] |}
                {| AuthMessage.method := "secret"; AuthMessage.data := [x2a]%byte |}
                (sampleProvider "secret" true true) 10 25 H eq_refl)
    as (Hs & _ & _ & Hl & _).
  split; [exact H|]. split; [exact Hs|exact Hl].
Defined.

(** X7: the client sequence, from construction to Active.  With at least
    one configured provider that can create a client flow, a new peer that
    negotiates as client and receives Hello, Ok, the initial message of its
    client flow and Ok ends Active, under the id of the Hello frame; it has
    sent Select with the own id, Auth with the id of the first such
    provider and the initial message, and, after the connect event, Begin;
    its latency sample is the time between Hello and the first Ok; the
    negotiation timers are all gone and exactly the two ping intervals are
    armed. *)
Theorem client_handshake parent time hello provider rest msg t1 t2 :
  usable (Authentication.providers (WithNetwork.authentication parent))
    = provider :: rest →
  let w := exec (inputs [NegotiateAsClient; ClockReads t1; Receive (MHello hello);
                         ClockReads t2; Receive MOk;
                         InitialMessageSettled provider (inr msg);
                         Receive MOk])
             (born parent time) in
  state (peer w) = Active ∧
  id (peer w) = HelloMessage.id hello ∧
  trace (runtime w) =
    [Send (MSelect {| SelectMessage.id := WithNetwork.networkId parent;
                      SelectMessage.capabilities := [] |}) CatchAbort;
     CreateClientFlow provider 0;
     Await (InitialMessage provider 0);
     Send (MAuth {| AuthMessage.method := AuthProvider.id provider;
                    AuthMessage.data := msg |}) CatchAbort;
     DidConnect; DestroyFlow 0; ConnectEvent;
     Send MBegin CatchAbort] ∧
  latencyValues (peer w) = [t2 - t1] ∧
  helloTimeout (peer w) = None ∧
  timers (runtime w) =
    {[ 4%N := {| callback := CheckFailure; delay := 5000; repeats := true |};
       5%N := {| callback := SendPing; delay := 30000; repeats := true |} ]}.
Proof.
  intros Hu w. unfold w.
  pose proof (pick_usable (Authentication.providers (WithNetwork.authentication parent)))
    as [Hh _].
  pose proof (head_usable _ provider (eq_trans (f_equal head Hu) eq_refl)) as Hc.
  rewrite Hu in Hh. simpl in Hh.
  rewrite !exec_inputs_cons, exec_inputs_nil.
  set (w4 := exec (input (ClockReads t2)) _).
  vm_compute in w4.
  set (w5 := exec (input (Receive MOk)) w4).
  assert (H5 : w5 = exec (input (Receive MOk)) w4) by done.
  unfold w4, input, receiveData, receiveSelectOK, registerLatencyReply,
    sendInitialAuth, pickNextAuthProvider in H5.
  unfold_M. simpl in H5.
  destruct (pick (Authentication.providers (WithNetwork.authentication parent)))
    as [o l'] eqn:Hpick.
  simpl in Hh. subst o. simpl in H5. rewrite Hc in H5.
  clearbody w5. subst w5. clear w4.
  repeat split; vm_compute; reflexivity.
Qed.

Lemma client_handshake_witness :
  let parent := sampleParent [sampleProvider "server-only" false true;
                              sampleProvider "secret" true true] in
  let w := exec (inputs [NegotiateAsClient; ClockReads 3; Receive sampleHello;
                         ClockReads 8; Receive MOk;
                         InitialMessageSettled (sampleProvider "secret" true true)
                           (inr [x2a]%byte);
                         Receive MOk])
             (born parent 0) in
  usable (Authentication.providers (WithNetwork.authentication parent))
    = [sampleProvider "secret" true true] ∧
  state (peer w) = Active ∧
  latencyValues (peer w) = [8 - 3].
Proof.
  assert (H : usable (Authentication.providers (WithNetwork.authentication
                (sampleParent [sampleProvider "server-only" false true;
                               sampleProvider "secret" true true])))
              = [sampleProvider "secret" true true]) by reflexivity.
  pose proof (client_handshake
                (sampleParent [sampleProvider "server-only" false true;
                               sampleProvider "secret" true true]) 0
                {| HelloMessage.id := [x02]%byte; HelloMessage.capabilities := [] |}
                (sampleProvider "secret" true true) [] [x2a]%byte 3 8 H)
    as (Hs & _ & _ & Hl & _).
  split; [exact H|]. split; [exact Hs|exact Hl].
Defined.

(** X8: a negotiation that gets no answer is aborted by its timer.  After
    negotiateAsClient, and likewise after negotiateAsServer, in whatever
    world, the peer holds a one-shot timer of 5000 ms; when it fires, the
    peer requests a disconnect with reason NegotiationFailed, does nothing
    else, and the timer is no longer armed. *)
Theorem negotiation_timeout_aborts w :
  let h := nextTimer (runtime w) in
  let timeout := {| callback := NegotiationTimeout; delay := 5000; repeats := false |} in
  let wc := exec negotiateAsClient w in
  let ws := exec negotiateAsServer w in
  (helloTimeout (peer wc) = Some h ∧
   timers (runtime wc) !! h = Some timeout ∧
   effects (timerFires h) wc =
     [RequestDisconnect DisconnectReason.NegotiationFailed None] ∧
   timers (runtime (exec (timerFires h) wc)) !! h = None) ∧
  (helloTimeout (peer ws) = Some h ∧
   timers (runtime ws) !! h = Some timeout ∧
   effects (timerFires h) ws =
     [RequestDisconnect DisconnectReason.NegotiationFailed None] ∧
   timers (runtime (exec (timerFires h) ws)) !! h = None).
Proof.
  destruct_world w.
  unfold negotiateAsClient, negotiateAsServer, registerLatencySend, send,
    queueNegotiationTimeout, setTimeout, arm, clearTimeout, timerFires, abort,
    requestDisconnect.
  destruct ht as [h0|]; effects_simpl; rewrite ?lookup_insert_eq; simpl;
    rewrite ?lookup_delete_eq; rewrite <- ?app_assoc;
    rewrite ?drop_trace, ?drop_trace_after; done.
Qed.

(** X9: an Auth for a method the registry does not know, or whose provider
    cannot create a server flow, is answered with Reject: a server in
    WaitingForAuth that holds no server flow sends Reject and nothing else,
    stays in WaitingForAuth without a server flow, and holds a newly armed
    negotiation timer. *)
Theorem unknown_auth_method_is_rejected w auth :
  state (peer w) = WaitingForAuth →
  authServerFlow (peer w) = None →
  (∀ provider,
     Authentication.getProvider (WithNetwork.authentication (parent (peer w)))
       (AuthMessage.method auth) = Some provider →
     AuthProvider.createServerFlow provider = false) →
  let w' := exec (receiveData (MAuth auth)) w in
  effects (receiveData (MAuth auth)) w = [Send MReject CatchAbort] ∧
  state (peer w') = WaitingForAuth ∧
  authServerFlow (peer w') = None ∧
  ∃ h, helloTimeout (peer w') = Some h ∧
       timers (runtime w') !! h =
         Some {| callback := NegotiationTimeout; delay := 5000; repeats := false |}.
Proof.
  destruct_world w. simpl. intros -> -> Hnone.
  unfold receiveData, receiveAuth, receiveAuth_released, send,
    queueNegotiationTimeout, setTimeout, arm, clearTimeout.
  destruct (Authentication.getProvider (WithNetwork.authentication par)
              (AuthMessage.method auth)) as [provider|] eqn:Hp.
  - specialize (Hnone provider eq_refl).
    destruct ht as [h0|]; effects_simpl; rewrite Hp; simpl; rewrite Hnone; simpl;
      rewrite <- ?app_assoc; rewrite ?drop_trace;
      (split; [done|]); (split; [done|]); (split; [done|]);
      eexists; (split; [reflexivity|]); apply lookup_insert_eq.
  - destruct ht as [h0|]; effects_simpl; rewrite Hp; simpl;
      rewrite <- ?app_assoc; rewrite ?drop_trace;
      (split; [done|]); (split; [done|]); (split; [done|]);
      eexists; (split; [reflexivity|]); apply lookup_insert_eq.
Qed.

Lemma unknown_auth_method_is_rejected_witness :
  let w := exec (inputs [NegotiateAsServer;
                         Receive (MSelect {| SelectMessage.id := [x02]%byte;
                                             SelectMessage.capabilities := [] |})])
             (born (sampleParent [sampleProvider "secret" true true]) 0) in
  let auth := {| AuthMessage.method := "token"; AuthMessage.data := [] |} in
  state (peer w) = WaitingForAuth ∧
  effects (receiveData (MAuth auth)) w = [Send MReject CatchAbort] ∧
  state (peer (exec (receiveData (MAuth auth)) w)) = WaitingForAuth.
Proof.
  set (w := exec (inputs [NegotiateAsServer;
                         Receive (MSelect {| SelectMessage.id := [x02]%byte;
                                             SelectMessage.capabilities := [] |})])
             (born (sampleParent [sampleProvider "secret" true true]) 0)).
  assert (H1 : state (peer w) = WaitingForAuth) by reflexivity.
  assert (H2 : authServerFlow (peer w) = None) by reflexivity.
  assert (H3 : ∀ provider,
     Authentication.getProvider (WithNetwork.authentication (parent (peer w)))
       "token" = Some provider →
     AuthProvider.createServerFlow provider = false)
    by (intros provider Hp; vm_compute in Hp; discriminate Hp).
  pose proof (unknown_auth_method_is_rejected w
                {| AuthMessage.method := "token"; AuthMessage.data := [] |}
                H1 H2 H3) as (He & Hs & _).
  split; [exact H1|]. split; [exact He|exact Hs].
Defined.

(** X10: liveness of an active peer.  After the switch to Active, in
    whatever world, the ping-check interval requests a disconnect with
    reason PingTimeout when the failure detector reports a failure and does
    nothing when it does not, and stays armed either way; the ping-send
    interval sends Ping and restarts the latency clock; and a Ping whose
    send fails changes nothing at all. *)
Theorem active_peer_pings w err time :
  let wa := exec switchToActive w in
  let check := nextTimer (runtime w) in
  let ping := (nextTimer (runtime w) + 1)%N in
  pingChecker (peer wa) = Some check ∧
  pingSender (peer wa) = Some ping ∧
  effects (failureDetectorSays true;; timerFires check) wa =
    [RequestDisconnect DisconnectReason.PingTimeout
       (Some {| message := "Timeout due to no ping" |})] ∧
  effects (failureDetectorSays false;; timerFires check) wa = [] ∧
  is_Some (timers (runtime (exec (failureDetectorSays true;; timerFires check) wa)) !! check) ∧
  effects (tick time;; timerFires ping) wa = [Send MPing CatchDebug] ∧
  lastLatencyTime (peer (exec (tick time;; timerFires ping) wa)) = time ∧
  exec (sendRejected CatchDebug err) (exec (timerFires ping) wa)
    = exec (timerFires ping) wa.
Proof.
  destruct_world w.
  assert (Hne : (nt + 1)%N ≠ nt) by lia.
  unfold switchToActive, setInterval, arm, clearTimeout, timerFires,
    failureDetectorSays, tick, checkFailure, sendPing, registerLatencySend,
    requestDisconnect, send, sendRejected.
  destruct ht as [h0|], cf, sf; effects_simpl;
    rewrite ?lookup_insert_eq; simpl;
    rewrite ?(lookup_insert_ne _ _ _ _ Hne), ?lookup_insert_eq; simpl;
    rewrite <- ?app_assoc; simpl; rewrite ?drop_trace_len; simpl;
    repeat split; try done;
    rewrite lookup_insert_ne by done; rewrite lookup_insert_eq; eauto.
Qed.

End PeerScenarios.

(* ================================================================== *)
(** * AbstractPeer: authentication in several rounds *)
(* ================================================================== *)
Module PeerChallenges.
Import AbstractPeer AbstractPeerFacts PeerRuns PeerScenarios.

#[local] Arguments Authentication.getProvider : simpl never.
#[local] Arguments pick : simpl never.

(** The step of a server that receives Auth for a known method while it
    holds no server flow. *)
Lemma receiveAuth_known w auth provider :
  state (peer w) = WaitingForAuth →
  authServerFlow (peer w) = None →
  Authentication.getProvider (WithNetwork.authentication (parent (peer w)))
    (AuthMessage.method auth) = Some provider →
  AuthProvider.createServerFlow provider = true →
  exec (input (Receive (MAuth auth))) w =
  exec (flow ← newFlow;
        emit (CreateServerFlow provider flow);;
        assign (set_authServerFlow (Some flow));;
        emit (Await (ServerReceiveInitial flow (AuthMessage.data auth)));;
        queueNegotiationTimeout) w.
Proof.
  intros Hs Hf Hp Hc. destruct_world w. simpl in *. subst st sf.
  unfold input, receiveData, receiveAuth, receiveAuth_released.
  unfold_M. simpl. rewrite Hp. simpl. rewrite Hc. done.
Qed.

(** The same once an earlier server flow was released. *)
Lemma receiveAuth_released_known w auth provider :
  Authentication.getProvider (WithNetwork.authentication (parent (peer w)))
    (AuthMessage.method auth) = Some provider →
  AuthProvider.createServerFlow provider = true →
  exec (input (ServerFlowReleased auth)) w =
  exec (flow ← newFlow;
        emit (CreateServerFlow provider flow);;
        assign (set_authServerFlow (Some flow));;
        emit (Await (ServerReceiveInitial flow (AuthMessage.data auth)))) w.
Proof.
  intros Hp Hc. destruct_world w. simpl in *.
  unfold input, receiveAuth_released.
  unfold_M. simpl. rewrite Hp. simpl. rewrite Hc. done.
Qed.

(** X18: a server flow that asks for more data.  When the server flow
    answers the Auth frame with data, the peer sends it as AuthData and
    waits; the AuthData the client sends back goes to the same flow, and
    when the flow then accepts, the peer sends Ok, and Begin makes it
    Active; the flow is created once and destroyed once. *)
Theorem server_challenge parent time select auth provider challenge answer t1 t2 :
  Authentication.getProvider (WithNetwork.authentication parent)
    (AuthMessage.method auth) = Some provider →
  AuthProvider.createServerFlow provider = true →
  let w := exec (inputs [NegotiateAsServer; Receive (MSelect select);
                         Receive (MAuth auth);
                         ServerReplySettled (inr (AuthServerReply.Data (Some challenge)));
                         Receive (MAuthData answer); ClockReads t1;
                         ServerReplySettled (inr AuthServerReply.Ok);
                         ClockReads t2; Receive MBegin])
             (born parent time) in
  state (peer w) = Active ∧
  trace (runtime w) =
    [Send (MHello {| HelloMessage.id := WithNetwork.networkId parent;
                     HelloMessage.capabilities := [] |}) CatchAbort;
     Send MOk CatchAbort;
     CreateServerFlow provider 0;
     Await (ServerReceiveInitial 0 (AuthMessage.data auth));
     Send (MAuthData {| AuthDataMessage.data := challenge |}) CatchAbort;
     Await (ServerReceiveData 0 (AuthDataMessage.data answer));
     Send MOk CatchAbort;
     DidConnect; DestroyFlow 0; ConnectEvent] ∧
  latencyValues (peer w) = [t2 - t1] ∧
  helloTimeout (peer w) = None.
Proof.
  intros Hp Hc w. unfold w.
  rewrite !exec_inputs_cons, exec_inputs_nil.
  set (w2 := exec (input (Receive (MSelect select))) _).
  vm_compute in w2.
  rewrite (receiveAuth_known w2 auth provider eq_refl eq_refl Hp Hc).
  subst w2. repeat split; vm_compute; reflexivity.
Qed.

Lemma server_challenge_witness :
  let parent := sampleParent [sampleProvider "secret" true true] in
  let auth := {| AuthMessage.method := "secret"; AuthMessage.data := [x2a]%byte |} in
  let select := {| SelectMessage.id := [x02]%byte; SelectMessage.capabilities := [] |} in
  let w := exec (inputs [NegotiateAsServer; Receive (MSelect select);
                         Receive (MAuth auth);
                         ServerReplySettled (inr (AuthServerReply.Data (Some [x07]%byte)));
                         Receive (MAuthData {| AuthDataMessage.data := [x08]%byte |});
                         ClockReads 10;
                         ServerReplySettled (inr AuthServerReply.Ok);
                         ClockReads 25; Receive MBegin])
             (born parent 0) in
  Authentication.getProvider (WithNetwork.authentication parent)
    (AuthMessage.method auth) = Some (sampleProvider "secret" true true) ∧
  state (peer w) = Active ∧
  latencyValues (peer w) = [25 - 10].
Proof.
  assert (H : Authentication.getProvider
                (WithNetwork.authentication (sampleParent [sampleProvider "secret" true true]))
                "secret" = Some (sampleProvider "secret" true true)) by reflexivity.
  pose proof (server_challenge (sampleParent [sampleProvider "secret" true true]) 0
                {| SelectMessage.id := [x02]%byte; SelectMessage.capabilities := [] |}
                {| AuthMessage.method := "secret"; AuthMessage.data := [x2a]%byte |}
                (sampleProvider "secret" true true) [x07]%byte
                {| AuthDataMessage.data := [x08]%byte |} 10 25 H eq_refl)
    as (Hs & _ & Hl & _).
  split; [exact H|]. split; [exact Hs|exact Hl].
Defined.

(** X19: a rejected attempt and a second one.  When the server flow rejects
    the Auth frame, the peer sends Reject and waits for Auth again; on the
    next Auth it first destroys the flow of the rejected attempt, then
    creates a flow of the provider of the new method, and when that accepts
    and Begin arrives the peer is Active; each flow is destroyed exactly
    once. *)
Theorem server_retry parent time select auth1 auth2 provider1 provider2 :
  Authentication.getProvider (WithNetwork.authentication parent)
    (AuthMessage.method auth1) = Some provider1 →
  AuthProvider.createServerFlow provider1 = true →
  Authentication.getProvider (WithNetwork.authentication parent)
    (AuthMessage.method auth2) = Some provider2 →
  AuthProvider.createServerFlow provider2 = true →
  let rejected :=
    exec (inputs [NegotiateAsServer; Receive (MSelect select);
                  Receive (MAuth auth1);
                  ServerReplySettled (inr AuthServerReply.Reject)])
         (born parent time) in
  let w := exec (inputs [Receive (MAuth auth2); ServerFlowReleased auth2;
                         ServerReplySettled (inr AuthServerReply.Ok);
                         Receive MBegin]) rejected in
  state (peer rejected) = WaitingForAuth ∧
  authServerFlow (peer rejected) = Some 0%N ∧
  state (peer w) = Active ∧
  trace (runtime w) =
    [Send (MHello {| HelloMessage.id := WithNetwork.networkId parent;
                     HelloMessage.capabilities := [] |}) CatchAbort;
     Send MOk CatchAbort;
     CreateServerFlow provider1 0;
     Await (ServerReceiveInitial 0 (AuthMessage.data auth1));
     Send MReject CatchAbort;
     DestroyFlow 0;
     Await (DestroyServerFlow 0 auth2);
     CreateServerFlow provider2 1;
     Await (ServerReceiveInitial 1 (AuthMessage.data auth2));
     Send MOk CatchAbort;
     DidConnect; DestroyFlow 1; ConnectEvent].
Proof.
  intros Hp1 Hc1 Hp2 Hc2 rejected w. unfold w, rejected.
  rewrite !exec_inputs_cons, !exec_inputs_nil.
  set (w2 := exec (input (Receive (MSelect select))) _).
  vm_compute in w2.
  rewrite (receiveAuth_known w2 auth1 provider1 eq_refl eq_refl Hp1 Hc1).
  subst w2.
  set (w5 := exec (input (Receive (MAuth auth2))) _).
  vm_compute in w5.
  rewrite (receiveAuth_released_known w5 auth2 provider2 Hp2 Hc2).
  subst w5. repeat split; vm_compute; reflexivity.
Qed.

Lemma server_retry_witness :
  let parent := sampleParent [sampleProvider "secret" true true;
                              sampleProvider "token" true true] in
  let select := {| SelectMessage.id := [x02]%byte; SelectMessage.capabilities := [] |} in
  let auth1 := {| AuthMessage.method := "secret"; AuthMessage.data := [x2a]%byte |} in
  let auth2 := {| AuthMessage.method := "token"; AuthMessage.data := [x2b]%byte |} in
  let rejected :=
    exec (inputs [NegotiateAsServer; Receive (MSelect select);
                  Receive (MAuth auth1);
                  ServerReplySettled (inr AuthServerReply.Reject)])
         (born parent 0) in
  let w := exec (inputs [Receive (MAuth auth2); ServerFlowReleased auth2;
                         ServerReplySettled (inr AuthServerReply.Ok);
                         Receive MBegin]) rejected in
  Authentication.getProvider (WithNetwork.authentication parent) "secret"
    = Some (sampleProvider "secret" true true) ∧
  Authentication.getProvider (WithNetwork.authentication parent) "token"
    = Some (sampleProvider "token" true true) ∧
  state (peer rejected) = WaitingForAuth ∧
  state (peer w) = Active.
Proof.
  assert (H1 : Authentication.getProvider
                (WithNetwork.authentication
                   (sampleParent [sampleProvider "secret" true true;
                                  sampleProvider "token" true true]))
                "secret" = Some (sampleProvider "secret" true true)) by reflexivity.
  assert (H2 : Authentication.getProvider
                (WithNetwork.authentication
                   (sampleParent [sampleProvider "secret" true true;
                                  sampleProvider "token" true true]))
                "token" = Some (sampleProvider "token" true true)) by reflexivity.
  pose proof (server_retry
                (sampleParent [sampleProvider "secret" true true;
                               sampleProvider "token" true true]) 0
                {| SelectMessage.id := [x02]%byte; SelectMessage.capabilities := [] |}
                {| AuthMessage.method := "secret"; AuthMessage.data := [x2a]%byte |}
                {| AuthMessage.method := "token"; AuthMessage.data := [x2b]%byte |}
                (sampleProvider "secret" true true) (sampleProvider "token" true true)
                H1 eq_refl H2 eq_refl)
    as (Hr & _ & Hs & _).
  split; [exact H1|]. split; [exact H2|]. split; [exact Hr|exact Hs].
Defined.

(** X20: a client flow that is asked for more data.  When the server
    answers the Auth frame with AuthData, the peer hands the data to its
    client flow, and sends what the flow answers as AuthData; when the
    server then sends Ok, the peer is Active and sends Begin.  It has
    created one client flow, for the first usable provider, and destroyed
    it once. *)
Theorem client_challenge parent time hello provider rest msg challenge answer :
  usable (Authentication.providers (WithNetwork.authentication parent))
    = provider :: rest →
  let w := exec (inputs [NegotiateAsClient; Receive (MHello hello); Receive MOk;
                         InitialMessageSettled provider (inr msg);
                         Receive (MAuthData challenge);
                         ClientReplySettled (inr (AuthClientReply.Data answer));
                         Receive MOk])
             (born parent time) in
  state (peer w) = Active ∧
  id (peer w) = HelloMessage.id hello ∧
  trace (runtime w) =
    [Send (MSelect {| SelectMessage.id := WithNetwork.networkId parent;
                      SelectMessage.capabilities := [] |}) CatchAbort;
     CreateClientFlow provider 0;
     Await (InitialMessage provider 0);
     Send (MAuth {| AuthMessage.method := AuthProvider.id provider;
                    AuthMessage.data := msg |}) CatchAbort;
     Await (ClientReceiveData 0 (AuthDataMessage.data challenge));
     Send (MAuthData {| AuthDataMessage.data := answer |}) CatchAbort;
     DidConnect; DestroyFlow 0; ConnectEvent;
     Send MBegin CatchAbort] ∧
  helloTimeout (peer w) = None.
Proof.
  intros Hu w. unfold w.
  pose proof (pick_usable (Authentication.providers (WithNetwork.authentication parent)))
    as [Hh _].
  pose proof (head_usable _ provider (eq_trans (f_equal head Hu) eq_refl)) as Hc.
  rewrite Hu in Hh. simpl in Hh.
  rewrite !exec_inputs_cons, exec_inputs_nil.
  set (w2 := exec (input (Receive (MHello hello))) _).
  vm_compute in w2.
  set (w3 := exec (input (Receive MOk)) w2).
  assert (H3 : w3 = exec (input (Receive MOk)) w2) by done.
  unfold w2, input, receiveData, receiveSelectOK, registerLatencyReply,
    sendInitialAuth, pickNextAuthProvider in H3.
  unfold_M. simpl in H3.
  destruct (pick (Authentication.providers (WithNetwork.authentication parent)))
    as [o l'] eqn:Hpick.
  simpl in Hh. subst o. simpl in H3. rewrite Hc in H3.
  clearbody w3. subst w3. clear w2.
  repeat split; vm_compute; reflexivity.
Qed.

Lemma client_challenge_witness :
  let parent := sampleParent [sampleProvider "server-only" false true;
                              sampleProvider "secret" true true] in
  let w := exec (inputs [NegotiateAsClient; Receive sampleHello; Receive MOk;
                         InitialMessageSettled (sampleProvider "secret" true true)
                           (inr [x2a]%byte);
                         Receive (MAuthData {| AuthDataMessage.data := [x07]%byte |});
                         ClientReplySettled (inr (AuthClientReply.Data [x08]%byte));
                         Receive MOk])
             (born parent 0) in
  usable (Authentication.providers (WithNetwork.authentication parent))
    = [sampleProvider "secret" true true] ∧
  state (peer w) = Active ∧
  helloTimeout (peer w) = None.
Proof.
  assert (H : usable (Authentication.providers (WithNetwork.authentication
                (sampleParent [sampleProvider "server-only" false true;
                               sampleProvider "secret" true true])))
              = [sampleProvider "secret" true true]) by reflexivity.
  pose proof (client_challenge
                (sampleParent [sampleProvider "server-only" false true;
                               sampleProvider "secret" true true]) 0
                {| HelloMessage.id := [x02]%byte; HelloMessage.capabilities := [] |}
                (sampleProvider "secret" true true) [] [x2a]%byte
                {| AuthDataMessage.data := [x07]%byte |} [x08]%byte H)
    as (Hs & _ & _ & Ht).
  split; [exact H|]. split; [exact Hs|exact Ht].
Defined.

End PeerChallenges.

(* ================================================================== *)
(** * Properties of the gossip handlers and of runs of a topology *)
(* ================================================================== *)
Module TopologyGossipFacts.
Import Topology TopologyGossip TopologyFacts.

Section Facts.
Context {Routes : Type}.
Variable newTopologyNode : TopologyNode Routes.
Variable removeRouting : Peer.t → TopologyNode Routes → TopologyNode Routes * bool.
Variable updateSelf : list Peer.t → TopologyNode Routes → TopologyNode Routes.
Variable updateRouting :
  Peer.t → NodeRoutingDetails.t → TopologyNode Routes → TopologyNode Routes * bool.
Variable toRoutingDetails : NodeId → TopologyNode Routes → NodeRoutingDetails.t.
Variable hasPeers : TopologyNode Routes → bool.
Variable refresh :
  (NodeId → option Peer.t) → NodeId → gmap NodeId (TopologyNode Routes) → bool →
  gmap NodeId (TopologyNode Routes) * bool.
Implicit Types (s : t Routes) (p : Peer.t).

Notation run := (inputs newTopologyNode removeRouting updateSelf updateRouting
                        toRoutingDetails hasPeers refresh).
Notation step := (input newTopologyNode removeRouting updateSelf updateRouting
                        toRoutingDetails hasPeers refresh).

(** ** What no handler changes: the own id, the endpoint option, and the
    nodes that are known *)

Lemma stable_refl s : stable s s.
Proof. by repeat split. Qed.

Lemma stable_trans s1 s2 s3 : stable s1 s2 → stable s2 s3 → stable s1 s3.
Proof.
  intros (?&?&H1) (?&?&H2). repeat split; [congruence..|]. auto.
Qed.

Lemma stable_queueBroadcast s : stable s (queueBroadcast s).
Proof.
  unfold queueBroadcast. simpl. destruct (endpoint s) eqn:E; [by repeat split|].
  destruct (_ || _); by repeat split.
Qed.

Lemma queueBroadcast_listeners s : listeners (queueBroadcast s) = listeners s.
Proof.
  unfold queueBroadcast. simpl. destruct (endpoint s); [done|].
  by destruct (_ || _).
Qed.

Lemma stable_getOrCreate id s : stable s (snd (getOrCreate newTopologyNode id s)).
Proof.
  unfold getOrCreate. destruct (nodes s !! id) eqn:E; simpl; [apply stable_refl|].
  repeat split; simpl. intros k Hk. destruct (decide (k = id)) as [->|].
  - rewrite lookup_insert_eq. eauto.
  - by rewrite lookup_insert_ne.
Qed.

Lemma stable_grown ks s s' : grown newTopologyNode ks s s' → stable s s'.
Proof.
  intros [E H]. rewrite E. repeat split; simpl. intros k [n Hk].
  rewrite H, Hk. eauto.
Qed.

Lemma stable_set_nodes s v :
  (∀ id, is_Some (nodes s !! id) → is_Some (v !! id)) → stable s (set_nodes v s).
Proof. by repeat split. Qed.

Lemma stable_alter s f k : stable s (set_nodes (alter f k (nodes s)) s).
Proof.
  apply stable_set_nodes. intros id [n Hn].
  destruct (decide (id = k)) as [->|].
  - rewrite lookup_alter_eq, Hn. simpl. eauto.
  - rewrite lookup_alter_ne by done. eauto.
Qed.

Lemma stable_imap s (f : NodeId → TopologyNode Routes → TopologyNode Routes) :
  stable s (set_nodes (map_imap (λ id node, Some (f id node)) (nodes s)) s).
Proof.
  apply stable_set_nodes. intros id [n Hn].
  rewrite map_lookup_imap, Hn. simpl. eauto.
Qed.

Lemma stable_send s p msg : stable s (send p msg s).
Proof. by repeat split. Qed.

Lemma stable_set_peers s v : stable s (set_peers v s).
Proof. by repeat split. Qed.

Lemma stable_addPeer p s : stable s (addPeer newTopologyNode updateSelf p s).
Proof.
  unfold addPeer. destruct (peers s !! Peer.id p); [apply stable_refl|].
  unfold subscribe. simpl.
  match goal with |- context [getOrCreate _ ?i ?s0] =>
    pose proof (stable_getOrCreate i s0) as H;
    destruct (getOrCreate newTopologyNode i s0) as [n s1]
  end.
  eapply stable_trans; [|apply stable_queueBroadcast].
  eapply stable_trans; [|apply stable_alter].
  eapply stable_trans; [|apply stable_alter].
  simpl in H. destruct H as (?&?&?). by repeat split.
Qed.

Lemma foldl_unsubscribe_fields (hs : list N) : ∀ s,
  let s' := foldl (λ s handle, unsubscribe handle s) s hs in
  s' = set_listeners (listeners s') s ∧
  listeners s' = foldl (λ m h, delete h m) (listeners s) hs.
Proof.
  induction hs as [|h hs IH]; intros s; simpl.
  - split; [by destruct s|done].
  - destruct (IH (unsubscribe h s)) as [E1 E2]. simpl in *. split; [|done].
    rewrite E1 at 1. done.
Qed.

Lemma stable_handleDisconnect p s :
  stable s (handleDisconnect newTopologyNode removeRouting updateSelf p s).
Proof.
  unfold handleDisconnect. destruct (peers s !! Peer.id p) as [info|]; [|apply stable_refl].
  destruct (getOrCreate _ _ _) as [n s1] eqn:E.
  eapply stable_trans; [|apply stable_queueBroadcast].
  eapply stable_trans; [|apply stable_alter].
  eapply stable_trans; [|apply stable_imap].
  eapply stable_trans; [|apply stable_alter].
  match type of E with getOrCreate _ _ ?s0 = _ =>
    pose proof (stable_getOrCreate (Peer.id p) s0) as H; rewrite E in H;
    eapply stable_trans; [|apply H];
    destruct (foldl_unsubscribe_fields (subscriptions info)
                (set_peers (delete (Peer.id p) (peers s)) s)) as [E1 _]
  end.
  simpl in E1. rewrite E1. by repeat split.
Qed.

Lemma stable_handleNodeSummaryMessage p message s :
  stable s (handleNodeSummaryMessage newTopologyNode removeRouting p message s).
Proof.
  unfold handleNodeSummaryMessage.
  destruct (collectRequests_spec newTopologyNode p message s) as (ids & s1 & E & G & _).
  rewrite E. apply stable_grown in G.
  eapply stable_trans; [apply G|].
  destruct ids as [|i ids]; [|eapply stable_trans; [|apply stable_send]];
    (destruct (bool_decide _);
      [eapply stable_trans; [|apply stable_queueBroadcast]|];
      apply (stable_imap s1 (λ id node, if unseen _ s1 id then _ else node))).
Qed.

Lemma stable_handleNodeRequestMessage p message s :
  stable s (handleNodeRequestMessage toRoutingDetails p message s).
Proof. apply stable_send. Qed.

Lemma stable_updateRoutings p routings : ∀ old b s,
  stable s (snd (updateRoutings newTopologyNode updateRouting p routings old b s)).
Proof.
  induction routings as [|r rest IH]; intros old b s; simpl; [apply stable_refl|].
  pose proof (stable_getOrCreate (NodeRoutingDetails.id r) s) as H.
  destruct (getOrCreate _ _ _) as [n s1]. simpl in H.
  case_decide; [eapply stable_trans; [apply H|apply IH]|].
  destruct (updateRouting p r n) as [n' ch].
  eapply stable_trans; [apply H|].
  eapply stable_trans; [|apply IH].
  repeat split; simpl. intros id Hid.
  destruct (decide (id = NodeRoutingDetails.id r)) as [->|].
  - rewrite lookup_insert_eq. eauto.
  - by rewrite lookup_insert_ne.
Qed.

Lemma stable_handleNodeDetailsMessage p message s :
  stable s (handleNodeDetailsMessage newTopologyNode removeRouting updateRouting p message s).
Proof.
  unfold handleNodeDetailsMessage.
  destruct (peers s !! Peer.id p) as [info|]; [|apply stable_refl].
  match goal with |- context [updateRoutings _ _ ?q ?l ?o ?b ?s0] =>
    pose proof (stable_updateRoutings q l o b s0) as H;
    destruct (updateRoutings _ _ q l o b s0) as [[old' ch] s1]
  end.
  simpl in H.
  eapply stable_trans; [apply (stable_set_peers s)|].
  eapply stable_trans; [apply H|].
  destruct (_ || _).
  - eapply stable_trans; [|apply stable_queueBroadcast].
    apply (stable_imap s1 (λ id node, if bool_decide (id ∈ old') then _ else node)).
  - apply (stable_imap s1 (λ id node, if bool_decide (id ∈ old') then _ else node)).
Qed.

Lemma foldl_send_fields (ps : list Peer.t) msg : ∀ s,
  let s' := foldl (λ s p, send p msg s) s ps in
  s' = set_sent (sent s ++ ((λ p, (p, msg)) <$> ps)) s.
Proof.
  induction ps as [|q ps IH]; intros s; simpl.
  - rewrite app_nil_r. by destruct s.
  - rewrite IH. unfold send, set_sent. simpl. by rewrite <- app_assoc.
Qed.

(** The inputs the topology handles by itself forget no node. *)
Lemma stable_gossip_step i s : gossip i = true → stable s (step i s).
Proof.
  destruct i as [p|p msg|p|h|]; simpl; try done; intros _.
  - apply stable_addPeer.
  - destruct (subscribed _ _ _); [|apply stable_refl].
    destruct msg; simpl; try apply stable_refl.
    + apply stable_handleNodeSummaryMessage.
    + apply stable_handleNodeRequestMessage.
    + apply stable_handleNodeDetailsMessage.
  - destruct (subscribed _ _ _); [|apply stable_refl]. apply stable_handleDisconnect.
Qed.

Lemma stable_gossip_run l : ∀ s,
  Forall (λ i, gossip i = true) l → stable s (run l s).
Proof.
  induction l as [|i l IH]; intros s Hl; [apply stable_refl|].
  apply Forall_cons in Hl as [Hi Hl].
  eapply stable_trans; [apply (stable_gossip_step i s Hi)|by apply IH].
Qed.

(** The own id and the endpoint option never change. *)
Lemma fixed_step i s :
  networkId (step i s) = networkId s ∧ endpoint (step i s) = endpoint s.
Proof.
  destruct i as [p|p msg|p|h|].
  - destruct (stable_gossip_step (AddPeer p) s eq_refl) as (?&?&_). done.
  - destruct msg;
      try (by (simpl; destruct (subscribed _ _ _)));
      match goal with |- context [step (DataEvent p ?m) s] =>
        destruct (stable_gossip_step (DataEvent p m) s eq_refl) as (?&?&_); done
      end.
  - destruct (stable_gossip_step (DisconnectEvent p) s eq_refl) as (?&?&_). done.
  - simpl. unfold timerFires. case_bool_decide; [|done].
    unfold broadcast. rewrite foldl_send_fields. done.
  - done.
Qed.

Lemma fixed_run l : ∀ s,
  networkId (run l s) = networkId s ∧ endpoint (run l s) = endpoint s.
Proof.
  induction l as [|i l IH]; intros s; [done|]. simpl.
  destruct (IH (step i s)) as [-> ->]. apply fixed_step.
Qed.

Lemma run_app l1 l2 s : run (l1 ++ l2) s = run l2 (run l1 s).
Proof. apply foldl_app. Qed.

(** ** The invariant of a topology *)

Lemma Consistent_set_nodes s v :
  Consistent s → is_Some (v !! networkId s) → Consistent (set_nodes v s).
Proof. intros [] ?. by split. Qed.

Lemma Consistent_set_routingDirty s b : Consistent s → Consistent (set_routingDirty b s).
Proof. intros []. by split. Qed.

Lemma Consistent_stable_nodes s v :
  Consistent s → stable s (set_nodes v s) → Consistent (set_nodes v s).
Proof. intros G (_&_&H). apply Consistent_set_nodes; [done|]. apply H, G. Qed.

Lemma summariesSent_app s l :
  summariesSent (set_sent (sent s ++ l) s) =
  summariesSent s ++
  omap (λ x : Peer.t * PeerMessage,
          if snd x is MNodeSummary m then Some (fst x, m) else None) l.
Proof. unfold summariesSent. simpl. apply omap_app. Qed.

Lemma Consistent_send s p msg :
  Consistent s → (endpoint s = true → ∀ m, msg ≠ MNodeSummary m) → Consistent (send p msg s).
Proof.
  intros [] Hm. split; try done. simpl. intros E.
  destruct (consistent_endpoint0 E) as [? Hs]. split; [done|].
  unfold send. rewrite summariesSent_app, Hs. simpl.
  destruct msg; try done. exfalso. by eapply Hm.
Qed.

Lemma Consistent_queueBroadcast s : Consistent s → Consistent (queueBroadcast s).
Proof.
  intros G. unfold queueBroadcast. simpl.
  destruct (endpoint s) eqn:E; [by apply Consistent_set_routingDirty|].
  destruct (_ || _) eqn:C; [by apply Consistent_set_routingDirty|].
  apply orb_false_iff in C as [C _]. apply bool_decide_eq_false in C.
  destruct (broadcastTimeout s) as [h|] eqn:B; [by destruct C; eauto|].
  destruct G. rewrite B in *. split; simpl; try done.
  - intros h l Hl. apply consistent_handles0 in Hl. lia.
  - rewrite consistent_schedule0. set_solver.
  - congruence.
Qed.

Lemma Consistent_getOrCreate id s :
  Consistent s → Consistent (snd (getOrCreate newTopologyNode id s)).
Proof.
  intros G. pose proof (stable_getOrCreate id s) as H.
  unfold getOrCreate in *. destruct (nodes s !! id); [done|].
  by apply Consistent_stable_nodes.
Qed.

(** Changing what tracked peers advertise. *)
Lemma Consistent_set_peers s m' :
  Consistent s →
  (∀ id info', m' !! id = Some info' →
     ∃ info, peers s !! id = Some info ∧ peer info' = peer info ∧
             subscriptions info' = subscriptions info ∧
             networkId s ∉ pd_nodes info') →
  (∀ id info, peers s !! id = Some info →
     ∃ info', m' !! id = Some info' ∧ peer info' = peer info ∧
              subscriptions info' = subscriptions info) →
  Consistent (set_peers m' s).
Proof.
  intros [] H1 H2. split; simpl; try done.
  - intros id info' Hi. destruct (H1 _ _ Hi) as (info & Hp & Ep & Es & _).
    rewrite Ep, Es. eauto.
  - intros h p ev Hl. destruct (consistent_listeners0 _ _ _ Hl) as (info & Hp & Ep & Hh).
    destruct (H2 _ _ Hp) as (info' & Hp' & Ep' & Es').
    exists info'. rewrite Ep', Es'. done.
  - intros id info' Hi. by destruct (H1 _ _ Hi) as (info & _ & _ & _ & ?).
Qed.

Lemma Consistent_advertise s (k : NodeId) (f : gset NodeId → gset NodeId) :
  Consistent s → (∀ v, networkId s ∉ v → networkId s ∉ f v) →
  Consistent (set_peers (alter (λ info, set_pd_nodes (f (pd_nodes info)) info) k (peers s)) s).
Proof.
  intros G Hf. apply Consistent_set_peers; [done|..].
  - intros id info' Hi. destruct (decide (id = k)) as [->|].
    + rewrite lookup_alter_eq in Hi.
      destruct (peers s !! k) as [info|] eqn:E; [|done]. simpl in Hi.
      injection Hi as <-. exists info. split_and!; try done. simpl.
      apply Hf. by eapply consistent_advertised.
    + rewrite lookup_alter_ne in Hi by done. exists info'. split_and!; try done.
      by eapply consistent_advertised.
  - intros id info Hi. destruct (decide (id = k)) as [->|].
    + rewrite lookup_alter_eq, Hi. simpl. eauto.
    + rewrite lookup_alter_ne by done. eauto.
Qed.

Lemma Consistent_forget s (k : NodeId) info :
  Consistent s → peers s !! k = Some info →
  Consistent (set_peers (<[k := set_pd_nodes ∅ info]> (peers s)) s).
Proof.
  intros G Hk.
  replace (<[k := set_pd_nodes ∅ info]> (peers s))
    with (alter (λ info, set_pd_nodes ((λ _, ∅) (pd_nodes info)) info) k (peers s)).
  - apply (Consistent_advertise s k (λ _, ∅)); [done|]. set_solver.
  - apply map_eq. intros id. destruct (decide (id = k)) as [->|].
    + by rewrite lookup_alter_eq, lookup_insert_eq, Hk.
    + by rewrite lookup_alter_ne, lookup_insert_ne.
Qed.

Lemma Consistent_addPeer p s : Consistent s → Consistent (addPeer newTopologyNode updateSelf p s).
Proof.
  intros G. unfold addPeer. destruct (peers s !! Peer.id p) eqn:Hp; [done|].
  unfold subscribe. simpl.
  match goal with |- context [getOrCreate _ ?i ?s0] =>
    assert (Consistent s0) as G0
  end.
  { destruct G. split; simpl; try done.
    - intros h l Hl. apply lookup_insert_Some in Hl as [[<- _]|[_ Hl]]; [lia|].
      apply lookup_insert_Some in Hl as [[<- _]|[_ Hl]]; [lia|].
      apply consistent_handles0 in Hl. lia.
    - intros id info Hi. apply lookup_insert_Some in Hi as [[<- <-]|[Hne Hi]]; simpl.
      + split; [done|]. exists (nextHandle s), (nextHandle s + 1)%N.
        repeat split; [lia|..].
        * rewrite lookup_insert_ne by lia. by rewrite lookup_insert_eq.
        * by rewrite lookup_insert_eq.
      + destruct (consistent_peers0 _ _ Hi) as (Ei & h1 & h2 & Es & Hh & L1 & L2).
        split; [done|]. exists h1, h2.
        pose proof (consistent_handles0 _ _ L1). pose proof (consistent_handles0 _ _ L2).
        repeat split; [done..| |]; rewrite !lookup_insert_ne by lia; done.
    - intros h q ev Hl. apply lookup_insert_Some in Hl as [[<- E]|[_ Hl]].
      { injection E as <- <-. eexists. rewrite lookup_insert_eq. simpl.
        repeat split. set_solver. }
      apply lookup_insert_Some in Hl as [[<- E]|[_ Hl]].
      { injection E as <- <-. eexists. rewrite lookup_insert_eq. simpl.
        repeat split. set_solver. }
      destruct (consistent_listeners0 _ _ _ Hl) as (info & Hi & Ei & Hh).
      exists info. rewrite lookup_insert_ne; [done|]. congruence.
    - intros id info Hi. apply lookup_insert_Some in Hi as [[<- <-]|[Hne Hi]]; simpl.
      + set_solver.
      + by eapply consistent_advertised0. }
  match goal with |- context [getOrCreate _ ?i ?s0] =>
    pose proof (Consistent_getOrCreate i s0 G0) as G1;
    destruct (getOrCreate newTopologyNode i s0) as [n s1]
  end.
  simpl in G1. apply Consistent_queueBroadcast.
  apply Consistent_stable_nodes; [|apply stable_alter].
  apply Consistent_stable_nodes; [|apply stable_alter]. done.
Qed.

Lemma Consistent_handleDisconnect p s :
  Consistent s → Consistent (handleDisconnect newTopologyNode removeRouting updateSelf p s).
Proof.
  intros G. unfold handleDisconnect.
  destruct (peers s !! Peer.id p) as [info|] eqn:Hp; [|done].
  match goal with |- context [getOrCreate _ ?i ?s0] =>
    assert (Consistent s0) as G0
  end.
  { destruct (consistent_peers _ G _ _ Hp) as (Ei & h1 & h2 & Es & Hh & L1 & L2).
    rewrite Es. simpl. unfold unsubscribe. simpl. destruct G. split; simpl; try done.
    - intros h l Hl. apply lookup_delete_Some in Hl as [_ Hl].
      apply lookup_delete_Some in Hl as [_ Hl]. eauto.
    - intros id info' Hi. apply lookup_delete_Some in Hi as [Hne Hi].
      destruct (consistent_peers0 _ _ Hi) as (Ei' & k1 & k2 & Es' & Hk & K1 & K2).
      split; [done|]. exists k1, k2.
      assert (peer info' ≠ peer info) by congruence.
      repeat split; [done..| |]; rewrite !lookup_delete_ne; try done; congruence.
    - intros h q ev Hl. apply lookup_delete_Some in Hl as [N2 Hl].
      apply lookup_delete_Some in Hl as [N1 Hl].
      destruct (consistent_listeners0 _ _ _ Hl) as (info' & Hi & Ei' & Hin).
      exists info'. rewrite lookup_delete_ne; [done|].
      intros E. rewrite <- E, Hp in Hi. injection Hi as <-.
      rewrite Es in Hin. set_solver.
    - intros id info' Hi. apply lookup_delete_Some in Hi as [_ Hi]. eauto. }
  match goal with |- context [getOrCreate _ ?i ?s0] =>
    pose proof (Consistent_getOrCreate i s0 G0) as G1;
    destruct (getOrCreate newTopologyNode i s0) as [n s1]
  end.
  simpl in G1. apply Consistent_queueBroadcast.
  apply Consistent_stable_nodes; [|apply stable_alter].
  match goal with |- Consistent (set_nodes (map_imap (λ id node, Some (@?f id node)) _) ?s0) =>
    apply Consistent_stable_nodes; [|apply (stable_imap s0 f)]
  end.
  apply Consistent_stable_nodes; [|apply stable_alter]. done.
Qed.

Lemma Consistent_grown ks s s' : Consistent s → grown newTopologyNode ks s s' → Consistent s'.
Proof.
  intros G Hg. pose proof (stable_grown _ _ _ Hg) as Hs.
  destruct Hg as [E _]. rewrite E in *. by apply Consistent_stable_nodes.
Qed.

Lemma Consistent_imap s (f : NodeId → TopologyNode Routes → TopologyNode Routes) :
  Consistent s → Consistent (set_nodes (map_imap (λ id node, Some (f id node)) (nodes s)) s).
Proof. intros G. apply Consistent_stable_nodes; [done|apply stable_imap]. Qed.

Lemma Consistent_handleNodeSummaryMessage p message s :
  Consistent s → Consistent (handleNodeSummaryMessage newTopologyNode removeRouting p message s).
Proof.
  intros G. unfold handleNodeSummaryMessage.
  destruct (collectRequests_spec newTopologyNode p message s) as (ids & s1 & E & Hg & _).
  rewrite E. apply (Consistent_grown _ _ _ G) in Hg.
  destruct ids as [|i ids]; [|apply Consistent_send; [|done]];
    (destruct (bool_decide _); [apply Consistent_queueBroadcast|];
      apply (Consistent_imap s1 (λ id node, if unseen _ s1 id then _ else node) Hg)).
Qed.

Lemma Consistent_handleNodeRequestMessage p message s :
  Consistent s → Consistent (handleNodeRequestMessage toRoutingDetails p message s).
Proof. intros G. by apply Consistent_send. Qed.

Lemma Consistent_updateRoutings p routings : ∀ old b s,
  Consistent s → Consistent (snd (updateRoutings newTopologyNode updateRouting p routings old b s)).
Proof.
  induction routings as [|r rest IH]; intros old b s G; simpl; [done|].
  pose proof (Consistent_getOrCreate (NodeRoutingDetails.id r) s G) as G1.
  destruct (getOrCreate _ _ _) as [n s1]. simpl in G1.
  case_decide as Hne; [by apply IH|].
  destruct (updateRouting p r n) as [n' ch]. apply IH.
  apply (Consistent_advertise s1 (Peer.id p) (λ v, v ∪ {[NodeRoutingDetails.id r]})) in G1;
    [|set_solver].
  apply Consistent_set_nodes; [done|]. simpl.
  rewrite lookup_insert_ne by done. apply G1.
Qed.

Lemma Consistent_handleNodeDetailsMessage p message s :
  Consistent s →
  Consistent (handleNodeDetailsMessage newTopologyNode removeRouting updateRouting p message s).
Proof.
  intros G. unfold handleNodeDetailsMessage.
  destruct (peers s !! Peer.id p) as [info|] eqn:Hp; [|done].
  pose proof (Consistent_forget s _ _ G Hp) as G0.
  match goal with |- context [updateRoutings _ _ ?q ?l ?o ?b ?s0] =>
    pose proof (Consistent_updateRoutings q l o b s0 G0) as G1;
    destruct (updateRoutings _ _ q l o b s0) as [[old' ch] s1]
  end.
  simpl in G1.
  destruct (_ || _); [apply Consistent_queueBroadcast|];
    apply (Consistent_imap s1 (λ id node, if bool_decide (id ∈ old') then _ else node) G1).
Qed.

(** A timer that is armed tells that the topology is no endpoint. *)
Lemma armed_not_endpoint s h : Consistent s → h ∈ timers s → endpoint s = false.
Proof.
  intros G Hh. destruct (endpoint s) eqn:E; [|done].
  destruct (consistent_endpoint _ G E) as [B _].
  rewrite (consistent_schedule _ G), B in Hh. set_solver.
Qed.

Lemma armed_is_scheduled s h :
  Consistent s → h ∈ timers s → broadcastTimeout s = Some h ∧ timers s = {[h]}.
Proof.
  intros G Hh. pose proof (consistent_schedule _ G) as E.
  destruct (broadcastTimeout s) as [h'|]; rewrite E in Hh; [|set_solver].
  assert (h = h') as -> by set_solver. done.
Qed.

Lemma keepOwn_own s m :
  is_Some (nodes s !! networkId s) →
  keepOwn s m !! networkId s = nodes s !! networkId s.
Proof.
  intros [own Ho]. unfold keepOwn. rewrite Ho. by rewrite lookup_insert_eq.
Qed.

Lemma Consistent_refreshRouting s :
  Consistent s → Consistent (refreshRouting refresh s).
Proof.
  intros G. unfold refreshRouting.
  apply Consistent_set_routingDirty, Consistent_set_nodes; [done|].
  rewrite keepOwn_own; apply G.
Qed.

Lemma Consistent_timerFires h s :
  Consistent s → Consistent (timerFires newTopologyNode hasPeers refresh h s).
Proof.
  intros G. unfold timerFires. case_bool_decide as Hh; [|done].
  pose proof (armed_not_endpoint _ _ G Hh) as E.
  destruct (armed_is_scheduled _ _ G Hh) as [_ Ht].
  pose proof (keepOwn_own s
    (fst (refresh (λ id, peer <$> peers s !! id) (networkId s) (nodes s)
            (routingDirty s))) (consistent_self _ G)) as Ho.
  unfold broadcast. rewrite foldl_send_fields. simpl.
  destruct G. split; simpl; try done.
  - rewrite Ht. set_solver.
  - congruence.
  - unfold keepOwn in *. simpl. by rewrite Ho.
Qed.

Lemma Consistent_step i s : Consistent s → Consistent (step i s).
Proof.
  intros G. destruct i as [p|p msg|p|h|]; simpl.
  - by apply Consistent_addPeer.
  - destruct (subscribed _ _ _); [|done]. destruct msg; simpl; try done.
    + by apply Consistent_handleNodeSummaryMessage.
    + by apply Consistent_handleNodeRequestMessage.
    + by apply Consistent_handleNodeDetailsMessage.
  - destruct (subscribed _ _ _); [|done]. by apply Consistent_handleDisconnect.
  - by apply Consistent_timerFires.
  - by apply Consistent_refreshRouting.
Qed.

Lemma Consistent_run l : ∀ s, Consistent s → Consistent (run l s).
Proof.
  induction l as [|i l IH]; intros s G; [done|]. apply IH, Consistent_step, G.
Qed.

Lemma Consistent_new id opt : Consistent (new newTopologyNode id opt).
Proof.
  split; simpl; try done.
  - rewrite lookup_singleton_eq. eauto.
Qed.

Lemma Consistent_reached id opt l : Consistent (run l (new newTopologyNode id opt)).
Proof. apply Consistent_run, Consistent_new. Qed.

Lemma subscribed_spec p ev s :
  subscribed p ev s = true ↔ ∃ h, listeners s !! h = Some (p, ev).
Proof.
  unfold subscribed. rewrite bool_decide_eq_true. unfold map_Exists.
  split; [intros (h & l & Hl & ->)|intros (h & Hl)]; eauto.
Qed.

(** ** The peers and the summaries of a broadcast *)

Lemma elem_of_peerList s q :
  Consistent s →
  q ∈ peerList s ↔ ∃ info, peers s !! Peer.id q = Some info ∧ peer info = q.
Proof.
  intros G. unfold peerList. rewrite list_elem_of_fmap. split.
  - intros ([k info] & -> & Hin). apply elem_of_map_to_list in Hin. simpl.
    destruct (consistent_peers _ G _ _ Hin) as [<- _]. eauto.
  - intros (info & Hi & <-). exists (Peer.id (peer info), info).
    split; [done|]. by apply elem_of_map_to_list.
Qed.

Lemma NoDup_peerList s : Consistent s → NoDup (peerList s).
Proof.
  intros G. unfold peerList. apply NoDup_fmap_2_strong; [|apply NoDup_map_to_list].
  intros [k1 i1] [k2 i2] H1 H2 E. simpl in E.
  apply elem_of_map_to_list in H1, H2.
  destruct (consistent_peers _ G _ _ H1) as [E1 _].
  destruct (consistent_peers _ G _ _ H2) as [E2 _].
  assert (k1 = k2) as -> by congruence. congruence.
Qed.

Lemma elem_of_summaries s sm :
  sm ∈ summaries hasPeers s ↔
  ∃ node, nodes s !! NodeRoutingSummary.id sm = Some node ∧
          NodeRoutingSummary.id sm ≠ networkId s ∧ hasPeers node = true ∧
          NodeRoutingSummary.version sm = version node.
Proof.
  unfold summaries. rewrite list_elem_of_omap. split.
  - intros ([k node] & Hin & E). apply elem_of_map_to_list in Hin. simpl in E.
    case_bool_decide; [done|]. destruct (hasPeers node) eqn:Hh; [|done].
    injection E as <-. simpl. eauto.
  - intros (node & Hn & Hne & Hh & Hv).
    exists (NodeRoutingSummary.id sm, node). split; [by apply elem_of_map_to_list|].
    simpl. rewrite bool_decide_eq_false_2 by done. rewrite Hh.
    destruct sm. simpl in *. by subst.
Qed.

Lemma NoDup_summaries s :
  NoDup (NodeRoutingSummary.id <$> summaries hasPeers s).
Proof.
  unfold summaries.
  pose proof (NoDup_fst_map_to_list (nodes s)) as Hnd.
  eapply sublist_NoDup; [exact Hnd|]. clear Hnd.
  induction (map_to_list (nodes s)) as [|[k n] l IH]; csimpl; [done|].
  case_bool_decide; [by apply sublist_cons|].
  destruct (hasPeers n); csimpl; [by apply sublist_skip|by apply sublist_cons].
Qed.

Lemma omap_length_le {A B} (f : A → option B) (l : list A) :
  (length (omap f l) ≤ length l)%nat.
Proof.
  induction l as [|x l IH]; csimpl; [lia|]. destruct (f x); csimpl; lia.
Qed.

(** ** The loop of handleNodeDetailsMessage *)

Lemma updateRoutings_spec p routings : ∀ old b s,
  is_Some (nodes s !! networkId s) →
  ∃ old' b' s',
    updateRoutings newTopologyNode updateRouting p routings old b s = (old', b', s') ∧
    old' ⊆ old ∧ networkId s' = networkId s ∧
    nodes s' !! networkId s = nodes s !! networkId s ∧
    ∀ k, peers s' !! k =
      if decide (k = Peer.id p)
      then (λ info,
              set_pd_nodes
                (pd_nodes info ∪
                 (list_to_set (NodeRoutingDetails.id <$> routings) ∖ {[networkId s]}))
                info) <$> peers s !! k
      else peers s !! k.
Proof.
  induction routings as [|r rest IH]; intros old b s Hs; simpl.
  - exists old, b, s. split_and!; try done. intros k. case_decide; [|done].
    destruct (peers s !! k) as [[]|]; simpl; [|done].
    unfold set_pd_nodes. simpl. do 2 f_equal. set_solver.
  - unfold getOrCreate.
    destruct (nodes s !! NodeRoutingDetails.id r) as [n|] eqn:Hr; simpl.
    + case_decide as Hid.
      * destruct (IH old b s Hs) as (old' & b' & s' & E & Ho & En & Hn & Hp).
        exists old', b', s'. split_and!; try done. intros k. rewrite Hp.
        case_decide; [|done]. destruct (peers s !! k) as [[]|]; simpl; [|done].
        unfold set_pd_nodes. simpl. do 2 f_equal. set_solver.
      * destruct (updateRouting p r n) as [n' ch].
        match goal with |- context [updateRoutings _ _ p rest ?o ?c ?s0] =>
          destruct (IH o c s0) as (old' & b' & s' & E & Ho & En & Hn & Hp)
        end.
        { simpl. by rewrite lookup_insert_ne. }
        exists old', b', s'. simpl in *. split_and!; try done.
        -- set_solver.
        -- rewrite Hn. by rewrite lookup_insert_ne.
        -- intros k. rewrite Hp.
           case_decide as Hk; [subst k|by rewrite lookup_alter_ne].
           rewrite lookup_alter_eq.
           destruct (peers s !! Peer.id p) as [[]|]; simpl; [|done].
           unfold set_pd_nodes. simpl. do 2 f_equal. set_solver.
    + case_decide as Hid.
      { rewrite <- Hid in Hs. rewrite Hr in Hs. by destruct Hs. }
      destruct (updateRouting p r newTopologyNode) as [n' ch].
      match goal with |- context [updateRoutings _ _ p rest ?o ?c ?s0] =>
        destruct (IH o c s0) as (old' & b' & s' & E & Ho & En & Hn & Hp)
      end.
      { simpl. by rewrite !lookup_insert_ne. }
      exists old', b', s'. simpl in *. split_and!; try done.
      * set_solver.
      * rewrite Hn. rewrite !lookup_insert_ne by done. done.
      * intros k. rewrite Hp.
        case_decide as Hk; [subst k|by rewrite lookup_alter_ne].
        rewrite lookup_alter_eq.
        destruct (peers s !! Peer.id p) as [[]|]; simpl; [|done].
        unfold set_pd_nodes. simpl. do 2 f_equal. set_solver.
Qed.

(** ** Runs of a topology *)

(** X11: in every state a topology reaches from a new one, the event
    subscriptions the runtime holds are exactly those of the tracked peers:
    every live listener belongs to the tracked peer with that id, every
    tracked peer holds its data and its disconnect subscription, both live,
    and events of a peer that is not tracked reach no handler. *)
Theorem listeners_are_those_of_tracked_peers id opt l :
  let s := run l (new newTopologyNode id opt) in
  (∀ h p ev, listeners s !! h = Some (p, ev) →
     ∃ info, peers s !! Peer.id p = Some info ∧ peer info = p ∧
             h ∈ subscriptions info) ∧
  (∀ k info, peers s !! k = Some info →
     Peer.id (peer info) = k ∧
     ∃ h1 h2, subscriptions info = [h1; h2] ∧ h1 ≠ h2 ∧
       listeners s !! h1 = Some (peer info, OnData) ∧
       listeners s !! h2 = Some (peer info, OnDisconnect)) ∧
  (∀ p msg, peers s !! Peer.id p = None →
     step (DataEvent p msg) s = s ∧ step (DisconnectEvent p) s = s).
Proof.
  intros s. pose proof (Consistent_reached id opt l) as G. fold s in G.
  split_and!; [apply G|apply G|].
  intros p msg Hp.
  assert (∀ ev, subscribed p ev s = false) as Hs.
  { intros ev. destruct (subscribed p ev s) eqn:E; [|done].
    apply subscribed_spec in E as [h Hl].
    destruct (consistent_listeners _ G _ _ _ Hl) as (info & Hi & _). congruence. }
  simpl. by rewrite !Hs.
Qed.

(** X12: adding a peer whose id is not tracked subscribes to its two events
    and tracks it; when that peer then disconnects, the tracked peers and
    the live subscriptions are again what they were before it was added, its
    node is no longer direct, and a peer with the same id is accepted
    again. *)
Theorem addPeer_then_disconnect id opt l p p' :
  let s := run l (new newTopologyNode id opt) in
  peers s !! Peer.id p = None →
  Peer.id p' = Peer.id p →
  let s1 := step (AddPeer p) s in
  let s2 := step (DisconnectEvent p) s1 in
  peers s1 = <[Peer.id p :=
    {| peer := p; subscriptions := [nextHandle s; (nextHandle s + 1)%N];
       pd_nodes := ∅ |}]> (peers s) ∧
  listeners s1 = <[(nextHandle s + 1)%N := (p, OnDisconnect)]>
                   (<[nextHandle s := (p, OnData)]> (listeners s)) ∧
  peers s2 = peers s ∧ listeners s2 = listeners s ∧
  (Peer.id p ≠ id → direct <$> nodes s2 !! Peer.id p = Some false) ∧
  peer <$> peers (step (AddPeer p') s2) !! Peer.id p = Some p'.
Proof.
  intros s Hp Hid s1 s2.
  pose proof (Consistent_reached id opt l) as G. fold s in G.
  assert (networkId s = id) as Hn by apply (fixed_run l (new newTopologyNode id opt)).
  assert (listeners s !! nextHandle s = None) as L1.
  { destruct (listeners s !! nextHandle s) eqn:E; [|done].
    apply (consistent_handles _ G) in E. lia. }
  assert (listeners s !! (nextHandle s + 1)%N = None) as L2.
  { destruct (listeners s !! (nextHandle s + 1)%N) eqn:E; [|done].
    apply (consistent_handles _ G) in E. lia. }
  assert (peers s1 = <[Peer.id p :=
    {| peer := p; subscriptions := [nextHandle s; (nextHandle s + 1)%N];
       pd_nodes := ∅ |}]> (peers s) ∧
    listeners s1 = <[(nextHandle s + 1)%N := (p, OnDisconnect)]>
                   (<[nextHandle s := (p, OnData)]> (listeners s))) as [P1 Li1].
  { subst s1. simpl. unfold addPeer. rewrite Hp. unfold subscribe. simpl.
    match goal with |- context [getOrCreate _ ?i ?s0] =>
      pose proof (getOrCreate_grown newTopologyNode i s0) as [_ [E _]];
      destruct (getOrCreate newTopologyNode i s0) as [n s']
    end.
    simpl in E.
    match goal with |- context [queueBroadcast ?s0] =>
      destruct (queueBroadcast_keeps s0) as (_ & _ & Ep);
      pose proof (queueBroadcast_listeners s0) as El
    end.
    rewrite Ep, El. simpl. by rewrite E. }
  assert (networkId s1 = id) as Hn1.
  { rewrite <- Hn. apply (fixed_step (AddPeer p) s). }
  assert (subscribed p OnDisconnect s1 = true) as Sd.
  { apply subscribed_spec. exists (nextHandle s + 1)%N.
    by rewrite Li1, lookup_insert_eq. }
  assert (peers s2 = peers s ∧ listeners s2 = listeners s ∧
          (Peer.id p ≠ id → direct <$> nodes s2 !! Peer.id p = Some false)) as (P2 & Li2 & D2).
  { subst s2. simpl. fold s1. rewrite Sd. unfold handleDisconnect.
    rewrite P1, lookup_insert_eq. simpl. unfold unsubscribe. simpl.
    rewrite delete_insert_id by done.
    match goal with |- context [getOrCreate _ ?i ?s0] =>
      pose proof (getOrCreate_grown newTopologyNode i s0) as [_ [E Hk]];
      destruct (getOrCreate newTopologyNode i s0) as [n s']
    end.
    simpl in E, Hk.
    match goal with |- context [queueBroadcast ?s0] =>
      destruct (queueBroadcast_keeps s0) as (En & _ & Ep);
      pose proof (queueBroadcast_listeners s0) as El
    end.
    rewrite Ep, El, En. simpl. rewrite E. simpl. rewrite Li1.
    split_and!; [done| |].
    - rewrite delete_insert_ne by lia.
      rewrite (delete_insert_id (listeners s) (nextHandle s)) by done.
      by rewrite delete_insert_id.
    - intros Hne. rewrite Hn1. rewrite lookup_alter_ne by done.
      rewrite map_lookup_imap. rewrite lookup_alter_eq.
      specialize (Hk (Peer.id p)).
      destruct (nodes s' !! Peer.id p) as [n0|] eqn:E0; simpl; [done|].
      destruct (nodes s1 !! Peer.id p); [done|]. case_decide; [done|set_solver]. }
  split_and!; try done.
  simpl. fold s1. fold s2. unfold addPeer. rewrite Hid, P2, Hp.
  unfold subscribe. simpl.
  match goal with |- context [getOrCreate _ ?i ?s0] =>
    pose proof (getOrCreate_grown newTopologyNode i s0) as [_ [E _]];
    destruct (getOrCreate newTopologyNode i s0) as [n s']
  end.
  simpl in E.
  match goal with |- context [queueBroadcast ?s0] =>
    destruct (queueBroadcast_keeps s0) as (_ & _ & Ep)
  end.
  rewrite Ep. simpl. rewrite E. simpl. rewrite P2. by rewrite lookup_insert_eq.
Qed.

(** X13: however often a broadcast is queued, at most one broadcast timer is
    armed, namely the one the topology holds in broadcastTimeout; when it
    fires, no timer is left and the next change queues a new one. *)
Theorem broadcasts_are_coalesced id opt l :
  let s := run l (new newTopologyNode id opt) in
  timers s = (if broadcastTimeout s is Some h then {[h]} else ∅) ∧
  (size (timers s) ≤ 1)%nat ∧
  (∀ h, h ∈ timers s →
     timers (queueBroadcast s) = timers s ∧
     timers (step (TimerFires h) s) = ∅ ∧
     broadcastTimeout (step (TimerFires h) s) = None) ∧
  (∀ h, h ∉ timers s → step (TimerFires h) s = s).
Proof.
  intros s. pose proof (Consistent_reached id opt l) as G. fold s in G.
  split_and!.
  - apply G.
  - rewrite (consistent_schedule _ G). destruct (broadcastTimeout s).
    + by rewrite size_singleton.
    + rewrite size_empty. lia.
  - intros h Hh. destruct (armed_is_scheduled _ _ G Hh) as [B T].
    pose proof (armed_not_endpoint _ _ G Hh) as E.
    split_and!.
    + unfold queueBroadcast. simpl. rewrite E, B. simpl.
      rewrite ?bool_decide_eq_true_2 by eauto. done.
    + simpl. unfold timerFires. rewrite bool_decide_eq_true_2 by done.
      unfold broadcast. rewrite foldl_send_fields. simpl. rewrite T. set_solver.
    + simpl. unfold timerFires. rewrite bool_decide_eq_true_2 by done. done.
  - intros h Hh. simpl. unfold timerFires. by rewrite bool_decide_eq_false_2.
Qed.

(** X14: when the broadcast timer fires, routing is refreshed first; then
    every tracked peer is sent one and the same NodeSummary, once, and no
    one else is sent one (in which order is left open); the summary carries
    the version of the own node and lists, each once and with its version,
    exactly the nodes that are known after the refresh, other than the own
    one, and are reachable through some peer (in which order is left open).
    The nodes are those the refresh has left, and the peers and the
    subscriptions are as before. *)
Theorem broadcast_reaches_every_peer id opt l h :
  let s := run l (new newTopologyNode id opt) in
  h ∈ timers s →
  let refreshed := refreshRouting refresh s in
  let s' := step (TimerFires h) s in
  ∃ recipients message,
    sent s' = sent s ++ ((λ q, (q, MNodeSummary message)) <$> recipients) ∧
    NoDup recipients ∧
    (∀ q, q ∈ recipients ↔
          ∃ info, peers s !! Peer.id q = Some info ∧ peer info = q) ∧
    (∃ node, nodes refreshed !! id = Some node ∧
             NodeSummaryMessage.ownVersion message = version node) ∧
    NoDup (NodeRoutingSummary.id <$> NodeSummaryMessage.nodes message) ∧
    (∀ sm, sm ∈ NodeSummaryMessage.nodes message ↔
       ∃ node, nodes refreshed !! NodeRoutingSummary.id sm = Some node ∧
               NodeRoutingSummary.id sm ≠ id ∧ hasPeers node = true ∧
               NodeRoutingSummary.version sm = version node) ∧
    endpoint s = false ∧
    nodes s' = nodes refreshed ∧ routingDirty s' = routingDirty refreshed ∧
    peers s' = peers s ∧ listeners s' = listeners s.
Proof.
  intros s Hh refreshed s'.
  pose proof (Consistent_reached id opt l) as G. fold s in G.
  pose proof (Consistent_refreshRouting s G) as Gr. fold refreshed in Gr.
  assert (networkId s = id) as Hn by apply (fixed_run l (new newTopologyNode id opt)).
  set (message :=
    {| NodeSummaryMessage.ownVersion := version (self newTopologyNode refreshed);
       NodeSummaryMessage.nodes := summaries hasPeers refreshed |}).
  assert (s' = set_broadcastTimeout None
            (set_sent (sent s ++ ((λ q, (q, MNodeSummary message)) <$> peerList s))
               (set_timers (timers s ∖ {[h]}) refreshed))) as ->.
  { subst s'. simpl. unfold timerFires. rewrite bool_decide_eq_true_2 by done.
    unfold broadcast. by rewrite foldl_send_fields. }
  assert (Hown : ∃ node, nodes refreshed !! id = Some node ∧
                         NodeSummaryMessage.ownVersion message = version node).
  { destruct (consistent_self _ Gr) as [node Hs]. exists node.
    split; [rewrite <- Hn; exact Hs|].
    unfold message. cbn [NodeSummaryMessage.ownVersion]. unfold self.
    by rewrite Hs. }
  assert (Hsm : ∀ sm, sm ∈ NodeSummaryMessage.nodes message ↔
     ∃ node, nodes refreshed !! NodeRoutingSummary.id sm = Some node ∧
             NodeRoutingSummary.id sm ≠ id ∧ hasPeers node = true ∧
             NodeRoutingSummary.version sm = version node).
  { intros sm. rewrite <- Hn. apply (elem_of_summaries refreshed). }
  exists (peerList s), message.
  split; [done|]. split; [by apply NoDup_peerList|].
  split; [intros q; by apply elem_of_peerList|].
  split; [exact Hown|]. split; [apply NoDup_summaries|].
  split; [exact Hsm|]. split; [by eapply armed_not_endpoint|]. done.
Qed.

(** X15: a topology created as an endpoint never arms a broadcast timer and
    never sends a NodeSummary, whatever happens to it. *)
Theorem endpoint_never_broadcasts id l :
  let s := run l (new newTopologyNode id (Some true)) in
  timers s = ∅ ∧ broadcastTimeout s = None ∧
  ∀ p message, (p, MNodeSummary message) ∉ sent s.
Proof.
  intros s. pose proof (Consistent_reached id (Some true) l) as G. fold s in G.
  assert (endpoint s = true) as E
    by apply (fixed_run l (new newTopologyNode id (Some true))).
  destruct (consistent_endpoint _ G E) as [B S]. split_and!; [|done|].
  - by rewrite (consistent_schedule _ G), B.
  - intros p message Hin.
    assert ((p, message) ∈ summariesSent s) as Hs.
    { unfold summariesSent. apply list_elem_of_omap.
      by exists (p, MNodeSummary message). }
    rewrite S in Hs. by apply elem_of_nil in Hs.
Qed.

(** X16: nothing the topology does by itself removes a node: while peers
    are added, peers disconnect and NodeSummary, NodeRequest and NodeDetails
    frames are handled, a node that is known stays known (removing nodes is
    left to Routing), so that a NodeRequest that names it is answered with
    one NodeDetails frame that holds its details; the reply has at most one
    entry per requested id. *)
Theorem known_nodes_are_answered s l2 p message k :
  Forall (λ i, gossip i = true) l2 →
  is_Some (nodes s !! k) →
  k ∈ NodeRequestMessage.nodes message →
  let s2 := run l2 s in
  ∃ node reply,
    nodes s2 !! k = Some node ∧
    handleNodeRequestMessage toRoutingDetails p message s2 =
      send p (MNodeDetails {| NodeDetailsMessage.nodes := reply |}) s2 ∧
    toRoutingDetails k node ∈ reply ∧
    (length reply ≤ length (NodeRequestMessage.nodes message))%nat.
Proof.
  intros Hl Hk Hin s2.
  destruct (stable_gossip_run l2 s Hl) as (_ & _ & Hs). fold s2 in Hs.
  destruct (Hs _ Hk) as [node Hnode].
  exists node. eexists. split_and!; [done|reflexivity| |].
  - apply list_elem_of_omap. exists k. split; [done|]. by rewrite Hnode.
  - apply omap_length_le.
Qed.

(** X17: a NodeDetails message never touches the own node, also when it
    lists the own id; from a peer that is not tracked it changes nothing;
    from a tracked peer it replaces the set of nodes that peer advertises by
    the ids of the message other than the own one, and leaves the other
    peers as they are. *)
Theorem details_leave_own_node id opt l p message :
  let s := run l (new newTopologyNode id opt) in
  let s' := handleNodeDetailsMessage newTopologyNode removeRouting updateRouting
              p message s in
  nodes s' !! id = nodes s !! id ∧
  (peers s !! Peer.id p = None → s' = s) ∧
  (∀ info, peers s !! Peer.id p = Some info →
     peers s' !! Peer.id p =
       Some (set_pd_nodes
               (list_to_set (NodeRoutingDetails.id <$> NodeDetailsMessage.nodes message)
                ∖ {[id]}) info)) ∧
  (∀ k, k ≠ Peer.id p → peers s' !! k = peers s !! k).
Proof.
  intros s s'.
  pose proof (Consistent_reached id opt l) as G. fold s in G.
  assert (networkId s = id) as Hn by apply (fixed_run l (new newTopologyNode id opt)).
  subst s'. unfold handleNodeDetailsMessage.
  destruct (peers s !! Peer.id p) as [info|] eqn:Hp; [|done].
  match goal with |- context [updateRoutings _ _ p ?r ?o ?b ?s0] =>
    destruct (updateRoutings_spec p r o b s0) as (old' & b' & s1 & E & Ho & En & Hnd & Hps)
  end.
  { apply G. }
  rewrite E. simpl in *.
  match goal with |- context [if ?c then queueBroadcast ?s0 else _] =>
    destruct (queueBroadcast_keeps s0) as (Kn & _ & Kp);
    assert (nodes (if c then queueBroadcast s0 else s0) = nodes s0 ∧
            peers (if c then queueBroadcast s0 else s0) = peers s0) as [-> ->]
      by (by destruct c)
  end.
  simpl. rewrite Hn in *. split_and!.
  - rewrite map_lookup_imap, Hnd. destruct (nodes s !! id); [simpl|done].
    rewrite bool_decide_eq_false_2; [done|].
    intros Hin. apply Ho in Hin. by apply (consistent_advertised _ G _ _ Hp); rewrite Hn.
  - done.
  - intros ? [= <-]. rewrite Hps, decide_True, lookup_insert_eq by done.
    simpl. unfold set_pd_nodes. simpl. do 2 f_equal. set_solver.
  - intros k Hk. rewrite Hps, decide_False, lookup_insert_ne by done. done.
Qed.

End Facts.

Lemma addPeer_then_disconnect_witness :
  let s := sampleRun [] in
  let s2 := sampleRun [AddPeer peerA; DisconnectEvent peerA] in
  peers s !! Peer.id peerA = None ∧ Peer.id peerA' = Peer.id peerA ∧
  peers s2 = peers s ∧ listeners s2 = listeners s ∧
  peer <$> peers (sampleRun [AddPeer peerA; DisconnectEvent peerA; AddPeer peerA'])
             !! Peer.id peerA = Some peerA'.
Proof.
  assert (H1 : peers (sampleRun []) !! Peer.id peerA = None) by reflexivity.
  assert (H2 : Peer.id peerA' = Peer.id peerA) by reflexivity.
  pose proof (addPeer_then_disconnect sampleNewNode sampleRemoveRouting
                sampleUpdateSelf sampleUpdateRouting sampleToRoutingDetails
                sampleHasPeers sampleRefresh [x01]%byte None [] peerA peerA' H1 H2)
    as (_ & _ & P & L & _ & A).
  split; [exact H1|]. split; [exact H2|]. split; [exact P|].
  split; [exact L|exact A].
Defined.

Lemma broadcast_reaches_every_peer_witness :
  let s := sampleRun [AddPeer peerA] in
  let s' := sampleRun [AddPeer peerA; TimerFires 3%N] in
  3%N ∈ timers s ∧
  ∃ recipients message,
    sent s' = sent s ++ ((λ q, (q, MNodeSummary message)) <$> recipients) ∧
    NoDup recipients ∧
    (∀ q, q ∈ recipients ↔
          ∃ info, peers s !! Peer.id q = Some info ∧ peer info = q).
Proof.
  assert (H : 3%N ∈ timers (sampleRun [AddPeer peerA])) by (by vm_compute).
  pose proof (broadcast_reaches_every_peer sampleNewNode sampleRemoveRouting
                sampleUpdateSelf sampleUpdateRouting sampleToRoutingDetails
                sampleHasPeers sampleRefresh [x01]%byte None [AddPeer peerA] 3%N H)
    as (recipients & message & S & N & M & _).
  split; [exact H|]. exists recipients, message.
  split; [exact S|]. split; [exact N|exact M].
Defined.

Lemma known_nodes_are_answered_witness :
  let s := sampleRun [AddPeer peerA] in
  let l2 := [DataEvent peerA (MNodeSummary sampleSummary); DisconnectEvent peerA] in
  let s2 := inputs sampleNewNode sampleRemoveRouting sampleUpdateSelf
              sampleUpdateRouting sampleToRoutingDetails sampleHasPeers
              sampleRefresh l2 s in
  let message := {| NodeRequestMessage.nodes := [[x0a]%byte] |} in
  Forall (λ i, gossip i = true) l2 ∧
  is_Some (nodes s !! [x0a]%byte) ∧
  [x0a]%byte ∈ NodeRequestMessage.nodes message ∧
  ∃ node reply,
    nodes s2 !! [x0a]%byte = Some node ∧
    handleNodeRequestMessage sampleToRoutingDetails peerB message s2 =
      send peerB (MNodeDetails {| NodeDetailsMessage.nodes := reply |}) s2 ∧
    sampleToRoutingDetails [x0a]%byte node ∈ reply ∧
    (length reply ≤ length (NodeRequestMessage.nodes message))%nat.
Proof.
  assert (H0 : Forall (λ i, gossip i = true)
                 [DataEvent peerA (MNodeSummary sampleSummary); DisconnectEvent peerA])
    by (repeat constructor).
  assert (H1 : is_Some (nodes (sampleRun [AddPeer peerA]) !! [x0a]%byte))
    by (vm_compute; eauto).
  assert (H2 : ([x0a]%byte : NodeId) ∈
               NodeRequestMessage.nodes {| NodeRequestMessage.nodes := [[x0a]%byte] |})
    by constructor.
  split; [exact H0|]. split; [exact H1|]. split; [exact H2|].
  exact (known_nodes_are_answered sampleNewNode sampleRemoveRouting
           sampleUpdateSelf sampleUpdateRouting sampleToRoutingDetails
           sampleHasPeers sampleRefresh (sampleRun [AddPeer peerA])
           [DataEvent peerA (MNodeSummary sampleSummary); DisconnectEvent peerA]
           peerB {| NodeRequestMessage.nodes := [[x0a]%byte] |} [x0a]%byte H0 H1 H2).
Defined.

End TopologyGossipFacts.
